(** * Verification of the PrescriptionValidation zero-knowledge pipeline

    The development embeds three pieces of the repository:

    - [prescription.circom]: the constraint system [PrescriptionValidation]
      over the scalar field of the BN128 curve, together with the witness
      calculator that the compiled circuit runs;
    - [prove.js]: the scenario runner ([tryProve], [printResult], [main]);
    - [ceremony.js]: the trusted-setup script ([main] with its compile
      step and the calls that follow it, [save], [formatKey]).

    Field elements are values of Stdlib's [Zmod bn128_r]; the JavaScript
    object [proofCache] is a [gmap] keyed by scenario id; console output and
    external calls are recorded as explicit traces. *)

From Stdlib Require Import ZArith Lia List Bool String Znumtheory Zmod.
From stdpp Require Import gmap strings list pretty.
Import ListNotations.
Local Open Scope Z_scope.

(* ===================================================================== *)
(** * Part I.  Definitions                                                *)
(* ===================================================================== *)

(** ** Primality certificates

    The circuit's arithmetic is arithmetic modulo the order of the BN128
    scalar field.  Several properties of the circuit (the is-zero gadget,
    the bit constraints of [Num2Bits]) hold only because that modulus is
    prime, so primality is established inside the development: small primes
    by trial division, large ones by Pocklington certificates. *)

Module NumberTheory.

(** [trial fuel d n]: no [k] with [d <= k] and [k * k <= n] divides [n]. *)
Fixpoint trial (fuel : nat) (d n : Z) : bool :=
  match fuel with
  | O => n <? d * d
  | S f => if n <? d * d then true
           else if n mod d =? 0 then false
           else trial f (d + 1) n
  end.

Definition prime_by_trial (n : Z) : bool :=
  (1 <? n) && trial (Z.to_nat (Z.sqrt n)) 2 n.

(** Modular exponentiation by repeated squaring (through [Zmod.pow]). *)
Definition powm (a n m : Z) : Z := Zmod.to_Z (Zmod.pow (Zmod.of_Z m a) n).

(** A certificate is a list of triples [(q, e, a)]: a prime power [q ^ e]
    dividing [N - 1] and a base [a] of order divisible by [q ^ e]. *)
Definition Fprod (cert : list (Z * Z * Z)) : Z :=
  fold_right (fun '(q, e, _) acc => q ^ e * acc) 1 cert.

Fixpoint pock_items (N : Z) (cert : list (Z * Z * Z)) : bool :=
  match cert with
  | [] => true
  | (q, e, a) :: rest =>
      (0 <? e) && ((N - 1) mod q ^ e =? 0)
      && (powm a (N - 1) N =? 1)
      && (Z.gcd (powm a ((N - 1) / q) N - 1) N =? 1)
      && (Z.gcd (q ^ e) (Fprod rest) =? 1)
      && pock_items N rest
  end.

Definition pock_check (N : Z) (cert : list (Z * Z * Z)) : bool :=
  (1 <? N) && (N <? Fprod cert * Fprod cert) && pock_items N cert.

End NumberTheory.

(** ** The field

    [ceremony.js] runs the setup on the curve ["bn128"]; circom compiles
    the circuit over that curve's scalar field, the integers modulo
    [bn128_r]. *)

Definition bn128_r : Z :=
  21888242871839275222246405745257275088548364400416034343698204186575808495617.

Abbreviation F := (Zmod bn128_r).

(** The field constant [1 << n] of circom. *)
Definition pow2F (n : nat) : F := Zmod.of_Z bn128_r (2 ^ Z.of_nat n).

(** A signal carrying a boolean. *)
Definition b2F (b : bool) : F := Zmod.of_Z bn128_r (Z.b2z b).

(** A constraint [lhs === rhs] is kept as the pair of its two sides, so the
    same list reads as a proposition ([holds]) and as a test ([holdsb]). *)
Definition Constraint : Type := F * F.

Definition holds (cs : list Constraint) : Prop :=
  Forall (fun c => fst c = snd c) cs.

Definition holdsb (cs : list Constraint) : bool :=
  forallb (fun c => Zmod.eqb (fst c) (snd c)) cs.

(** ** Gadgets consumed from circomlib *)

Module Circomlib.

(** Modelled from the spec: the bounded comparator consumed by the
    freshness check.  The circuit includes it from
    [node_modules/circomlib/circuits/comparators.circom], which is not part
    of the repository's sources.  Spec 4.3 gives its contract (a less-than
    bit for operands inside the declared width, and a result that is "no
    longer a correct less-than result (the field wraps)" outside it); the
    definitions below are the library templates that realise it:

<<
    template Num2Bits(n) {            template LessThan(n) {
      signal input in;                  signal input in[2];
      signal output out[n];             signal output out;
      var lc1 = 0;  var e2 = 1;         component n2b = Num2Bits(n+1);
      for (var i = 0; i < n; i++) {     n2b.in <== in[0] + (1<<n) - in[1];
        out[i] <-- (in >> i) & 1;       out <== 1 - n2b.out[n];
        out[i] * (out[i] - 1) === 0;  }
        lc1 += out[i] * e2;
        e2 = e2 + e2;
      }
      lc1 === in;
    }
>>
*)

(** The accumulator [lc1] of [Num2Bits] after the loop. *)
Definition lc1 (out : list F) : F :=
  fst (fold_left (fun '(lc, e2) b => (lc + b * e2, e2 + e2)%Zmod) out
                 (Zmod.zero, Zmod.one)).

(** The constraints of [Num2Bits(n)] on its signals [in] and [out]. *)
Definition Num2Bits (in_ : F) (out : list F) : list Constraint :=
  map (fun b => (b * (b - Zmod.one), Zmod.zero)%Zmod) out ++ [(lc1 out, in_)].

(** The hint [out[i] <-- (in >> i) & 1]. *)
Definition Num2Bits_hint (n : nat) (in_ : F) : list F :=
  map (fun i => Zmod.of_Z bn128_r
                  (Z.land (Z.shiftr (Zmod.to_Z in_) (Z.of_nat i)) 1))
      (seq 0 n).

(** Witness calculation of [Num2Bits(n)]: the bits are assigned from the
    hint and the constraints are asserted; a failed assertion aborts. *)
Definition Num2Bits_calc (n : nat) (in_ : F) : option (list F) :=
  let out := Num2Bits_hint n in_ in
  if holdsb (Num2Bits in_ out) then Some out else None.

(** The signals of one [LessThan(n)] component. *)
Record LessThanSignals := {
  n2b_in : F;
  n2b_out : list F;
  lt_out : F
}.

Definition LessThan (n : nat) (in0 in1 : F) (s : LessThanSignals)
  : list Constraint :=
  (n2b_in s, in0 + pow2F n - in1)%Zmod
  :: Num2Bits (n2b_in s) (n2b_out s)
  ++ [(lt_out s, Zmod.one - nth n (n2b_out s) Zmod.zero)%Zmod].

(** The array [n2b.out] of [LessThan(n)] has [n + 1] cells. *)
Definition LessThan_shape (n : nat) (s : LessThanSignals) : Prop :=
  length (n2b_out s) = S n.

Definition LessThan_calc (n : nat) (in0 in1 : F) : option LessThanSignals :=
  let i := (in0 + pow2F n - in1)%Zmod in
  match Num2Bits_calc (S n) i with
  | Some out =>
      Some {| n2b_in := i; n2b_out := out;
              lt_out := (Zmod.one - nth n out Zmod.zero)%Zmod |}
  | None => None
  end.

(** The value [in[0] + (1<<n) - in[1]] fed to [Num2Bits(n+1)], as an
    integer. *)
Definition lt_diff (n : nat) (a b : F) : Z :=
  Zmod.to_Z (a + pow2F n - b)%Zmod.

(** Cells constrained by [b * (b - 1) === 0], and the integer they spell. *)
Fixpoint bitsZ (out : list F) : Z :=
  match out with
  | [] => 0
  | b :: rest => Zmod.to_Z b + 2 * bitsZ rest
  end.

Definition is_bit (b : F) : Prop := b = Zmod.zero \/ b = Zmod.one.

End Circomlib.

(** ** The constraint system [PrescriptionValidation] (prescription.circom) *)

Module Circuit.
Import Circomlib.

(** The twelve [signal input]s of the template: seven private, five public. *)
Record Inputs := {
  doctorId : F;
  doctorSecret : F;
  authorizedAction : F;
  sourceId : F;
  dataAge : F;
  allergyClassId : F;
  medicationClassId : F;
  doctorCredentialHash : F;
  trustedSourceHash : F;
  requiredAction : F;
  deltaMax : F;
  outcome : F
}.

(** A full assignment: the inputs, the outputs of the two hash components,
    the signals of the comparator and the intermediate signals of the
    template. *)
Record Signals := {
  inputs : Inputs;
  credHasher_out : F;
  srcHasher_out : F;
  freshCheck : LessThanSignals;
  freshOk : F;
  authOk : F;
  classDiff : F;
  classDiffInv : F;
  isZero : F;
  noContraindication : F;
  validCtx : F;
  computedOutcome : F
}.

(** [component main {public [...]}]: the public input vector, in the order
    of the declaration. *)
Definition publicSignals (w : Signals) : list Z :=
  map Zmod.to_Z
    [ doctorCredentialHash (inputs w); trustedSourceHash (inputs w);
      requiredAction (inputs w); deltaMax (inputs w); outcome (inputs w) ].

(** The same assignment with another declared outcome. *)
Definition with_outcome (o : F) (i : Inputs) : Inputs :=
  {| doctorId := doctorId i; doctorSecret := doctorSecret i;
     authorizedAction := authorizedAction i; sourceId := sourceId i;
     dataAge := dataAge i; allergyClassId := allergyClassId i;
     medicationClassId := medicationClassId i;
     doctorCredentialHash := doctorCredentialHash i;
     trustedSourceHash := trustedSourceHash i;
     requiredAction := requiredAction i; deltaMax := deltaMax i;
     outcome := o |}.

(** The hint of the is-zero pattern:
    [classDiffInv <-- (classDiff == 0) ? 0 : (1 / classDiff)]. *)
Definition classDiffInv_hint (d : F) : F :=
  if Zmod.eqb d Zmod.zero then Zmod.zero else Zmod.inv d.

(** An assertion [a === b] of the witness calculator. *)
Definition assert_eq (a b : F) : option unit :=
  if Zmod.eqb a b then Some tt else None.

Section PrescriptionValidation.

(** circomlib's [Poseidon(1)] and [Poseidon(2)].  The permutation is
    outside the repository; a hash component is a total function of its
    inputs, which is all the circuit relies on. *)
Variable Poseidon1 : F -> F.
Variable Poseidon2 : F -> F -> F.

(** The constraints of the template, in source order. *)
Definition PrescriptionValidation (w : Signals) : list Constraint :=
  let i := inputs w in
  (* CHECK 1 *)
  [ (credHasher_out w, Poseidon2 (doctorId i) (doctorSecret i));
    (credHasher_out w, doctorCredentialHash i);
  (* CHECK 2 *)
    (srcHasher_out w, Poseidon1 (sourceId i));
    (srcHasher_out w, trustedSourceHash i) ]
  (* CHECK 3 *)
  ++ LessThan 32 (dataAge i) (deltaMax i) (freshCheck w)
  ++ [ (freshOk w, lt_out (freshCheck w));
  (* CHECK 4 *)
       (authOk w, authorizedAction i - requiredAction i);
       (authOk w, Zmod.zero);
  (* CHECK 5 *)
       (classDiff w, allergyClassId i - medicationClassId i);
       (isZero w, Zmod.one - classDiff w * classDiffInv w);
       (classDiff w * isZero w, Zmod.zero);
       (noContraindication w, Zmod.one - isZero w);
  (* FINAL COMPOSITION *)
       (validCtx w, freshOk w);
       (computedOutcome w, validCtx w * noContraindication w);
       (computedOutcome w, outcome i) ]%Zmod.

(** A satisfying witness: every constraint holds. *)
Definition satisfies (w : Signals) : Prop :=
  LessThan_shape 32 (freshCheck w) /\ holds (PrescriptionValidation w).

Definition satisfiesb (w : Signals) : bool :=
  (length (n2b_out (freshCheck w)) =? 33)%nat
  && holdsb (PrescriptionValidation w).

(** The witness calculator: signals are assigned in source order and every
    [===] is asserted as it is reached; [None] is a failed assertion. *)
Definition calcWitness (i : Inputs) : option Signals :=
  let credOut := Poseidon2 (doctorId i) (doctorSecret i) in
  _ ← assert_eq credOut (doctorCredentialHash i);
  let srcOut := Poseidon1 (sourceId i) in
  _ ← assert_eq srcOut (trustedSourceHash i);
  lt ← LessThan_calc 32 (dataAge i) (deltaMax i);
  let freshOk' := lt_out lt in
  let authOk' := (authorizedAction i - requiredAction i)%Zmod in
  _ ← assert_eq authOk' Zmod.zero;
  let classDiff' := (allergyClassId i - medicationClassId i)%Zmod in
  let classDiffInv' := classDiffInv_hint classDiff' in
  let isZero' := (Zmod.one - classDiff' * classDiffInv')%Zmod in
  _ ← assert_eq (classDiff' * isZero')%Zmod Zmod.zero;
  let noContraindication' := (Zmod.one - isZero')%Zmod in
  let validCtx' := freshOk' in
  let computedOutcome' := (validCtx' * noContraindication')%Zmod in
  _ ← assert_eq computedOutcome' (outcome i);
  Some {| inputs := i;
          credHasher_out := credOut;
          srcHasher_out := srcOut;
          freshCheck := lt;
          freshOk := freshOk';
          authOk := authOk';
          classDiff := classDiff';
          classDiffInv := classDiffInv';
          isZero := isZero';
          noContraindication := noContraindication';
          validCtx := validCtx';
          computedOutcome := computedOutcome' |}.

(** What the constraints determine from the inputs alone: whether the
    comparator's bit decomposition exists, the bit it outputs, the bit of
    the is-zero pattern, and the three fatal checks. *)
Definition comparator_accepts (i : Inputs) : Prop :=
  lt_diff 32 (dataAge i) (deltaMax i) < 2 ^ 33.

Definition freshBit (i : Inputs) : bool :=
  negb (Z.testbit (lt_diff 32 (dataAge i) (deltaMax i)) 32).

Definition noContraBit (i : Inputs) : bool :=
  negb (Zmod.eqb (allergyClassId i) (medicationClassId i)).

Definition hard_checks (i : Inputs) : Prop :=
  Poseidon2 (doctorId i) (doctorSecret i) = doctorCredentialHash i
  /\ Poseidon1 (sourceId i) = trustedSourceHash i
  /\ authorizedAction i = requiredAction i.

Definition accepted (i : Inputs) : Prop :=
  hard_checks i /\ comparator_accepts i
  /\ outcome i = b2F (freshBit i && noContraBit i).

End PrescriptionValidation.

End Circuit.

(** ** The scenario runner (prove.js) *)

Module Prove.

(** The object handed to [snarkjs.groth16.fullProve]: every signal as a
    decimal string.  A decimal string is kept as the integer it denotes. *)
Record Input := {
  doctorId : Z;
  doctorSecret : Z;
  authorizedAction : Z;
  sourceId : Z;
  dataAge : Z;
  allergyClassId : Z;
  medicationClassId : Z;
  doctorCredentialHash : Z;
  trustedSourceHash : Z;
  requiredAction : Z;
  deltaMax : Z;
  outcome : Z
}.

(** A thrown value that the handler of [tryProve] can read: its [message]
    property when that is a string, and [String(e)].  Errors, strings and
    numbers are of this kind.  [null] and [undefined] are not: reading
    [e.message] on them throws, which module [Thrown] below accounts for. *)
Record Exn := {
  message : option string;
  asString : string
}.

(** [e.message || String(e)]: an absent or empty message is falsy. *)
Definition error_text (e : Exn) : string :=
  match message e with
  | Some m => if String.eqb m "" then asString e else m
  | None => asString e
  end.

(** One element of [report]. *)
Record ReportEntry := {
  id : string;
  name : string;
  expectProof : bool;
  expectVerify : bool;
  result : bool
}.

(** What the runner writes to the console.  [Result] is one call of
    [printResult]: the PASS/FAIL tag with id and name, the two observed
    flags, and the error line when there is one. *)
Inductive Line :=
| Banner
| Result (id name : string) (ok proofOk verifyOk : bool) (error : option string)
| Skip (id : string)
| Summary (passed total : nat)
| Saved.

(** [if (error) console.log(... error.slice(0, 120))]. *)
Definition printResult (id name : string) (ok proofOk verifyOk : bool)
    (error : option string) : Line :=
  Result id name ok proofOk verifyOk
    (match error with
     | Some e => if String.eqb e "" then None else Some (String.substring 0 120 e)
     | None => None
     end).

(** [orig.slice(0, -6) + "000000"]. *)
Definition corrupt (orig : string) : string :=
  String.append (String.substring 0 (String.length orig - 6) orig) "000000".

(** The classification of spec 4.7: a scenario succeeds exactly when the
    observed pair (constructed?, verified?) equals the declared pair. *)
Definition classify (expectProof expectVerify proofOk verifyOk : bool) : bool :=
  Bool.eqb expectProof proofOk && Bool.eqb expectVerify verifyOk.

(** A console line reports an entry: it is the [printResult] line of the
    same scenario, it prints the entry's result, and that result is the
    classification of the flags it prints. *)
Definition reports (l : Line) (r : ReportEntry) : Prop :=
  match l with
  | Result id name ok proofOk verifyOk _ =>
      id = Prove.id r /\ name = Prove.name r /\ ok = result r
      /\ result r = classify (expectProof r) (expectVerify r) proofOk verifyOk
  | _ => False
  end.

Definition is_result (l : Line) : bool :=
  match l with Result _ _ _ _ _ _ => true | _ => false end.

Definition is_skip (l : Line) : bool :=
  match l with Skip _ => true | _ => false end.

(** The ids of the six proving scenarios, in source order. *)
Definition first_six : list string :=
  ["S1"; "S2"; "S3"; "S4"; "S5a"; "S5b"]%string.

Section Harness.

(** The proof artifact and the part of the verification key the runner
    never looks into are opaque. *)
Variable Proof : Type.
Variable VKeyRest : Type.

(** [verification_key.json]: the commitment array [IC] and the rest. *)
Record VKey := {
  IC : list (list string);
  vk_rest : VKeyRest
}.

(** The two oracles of snarkjs, and the values read at start-up.  In this
    section [fullProve] returns or throws a value the handler can read;
    module [Thrown] lifts the restriction. *)
Variable fullProve : Input -> Exn + (Proof * list Z).
Variable verify : VKey -> list Z -> Proof -> bool.
Variable credHash : Z.
Variable srcHash : Z.
Variable vKey : VKey.

(** The object returned by [tryProve]. *)
Inductive TryProve :=
| Proved (proof : Proof) (publicSignals : list Z)
| Failed (error : string).

Definition ok (r : TryProve) : bool :=
  match r with Proved _ _ => true | Failed _ => false end.

Definition error (r : TryProve) : option string :=
  match r with Proved _ _ => None | Failed e => Some e end.

Definition tryProve (input : Input) : TryProve :=
  match fullProve input with
  | inr (proof, publicSignals) => Proved proof publicSignals
  | inl e => Failed (error_text e)
  end.

(** The mutable variables of [main]. *)
Record State := {
  passed : nat;
  report : list ReportEntry;
  proofCache : gmap string TryProve;
  console : list Line
}.

(** The baseline assignment of S1; the other scenarios change one or two
    fields of it. *)
Definition baseline : Input :=
  {| doctorId := 123; doctorSecret := 456;
     authorizedAction := 1; sourceId := 1;
     dataAge := 30; allergyClassId := 2; medicationClassId := 5;
     doctorCredentialHash := credHash; trustedSourceHash := srcHash;
     requiredAction := 1; deltaMax := 90; outcome := 1 |}.

Definition input_S2 : Input :=
  {| doctorId := 123; doctorSecret := 999;
     authorizedAction := 1; sourceId := 1;
     dataAge := 30; allergyClassId := 2; medicationClassId := 5;
     doctorCredentialHash := credHash; trustedSourceHash := srcHash;
     requiredAction := 1; deltaMax := 90; outcome := 1 |}.

Definition input_S3 : Input :=
  {| doctorId := 123; doctorSecret := 456;
     authorizedAction := 1; sourceId := 99;
     dataAge := 30; allergyClassId := 2; medicationClassId := 5;
     doctorCredentialHash := credHash; trustedSourceHash := srcHash;
     requiredAction := 1; deltaMax := 90; outcome := 1 |}.

Definition input_S4 : Input :=
  {| doctorId := 123; doctorSecret := 456;
     authorizedAction := 1; sourceId := 1;
     dataAge := 100; allergyClassId := 2; medicationClassId := 5;
     doctorCredentialHash := credHash; trustedSourceHash := srcHash;
     requiredAction := 1; deltaMax := 90; outcome := 1 |}.

Definition input_S5a : Input :=
  {| doctorId := 123; doctorSecret := 456;
     authorizedAction := 1; sourceId := 1;
     dataAge := 30; allergyClassId := 2; medicationClassId := 2;
     doctorCredentialHash := credHash; trustedSourceHash := srcHash;
     requiredAction := 1; deltaMax := 90; outcome := 0 |}.

Definition input_S5b : Input :=
  {| doctorId := 123; doctorSecret := 456;
     authorizedAction := 1; sourceId := 1;
     dataAge := 30; allergyClassId := 2; medicationClassId := 2;
     doctorCredentialHash := credHash; trustedSourceHash := srcHash;
     requiredAction := 1; deltaMax := 90; outcome := 1 |}.

(** A block that expects proof and verification to succeed (S1, S5a):
    [verifyOk = r.ok && await verify(vKey, r.publicSignals, r.proof)],
    [ok = r.ok === true && verifyOk === true].  S1 also caches [r]. *)
Definition expect_pass (cache : bool) (id name : string) (input : Input)
    (st : State) : State :=
  let r := tryProve input in
  let verifyOk :=
    match r with
    | Proved proof publicSignals => verify vKey publicSignals proof
    | Failed _ => false
    end in
  let ok_ := ok r && verifyOk in
  {| passed := if ok_ then S (passed st) else passed st;
     proofCache := if ok_ && cache then <[id := r]> (proofCache st)
                   else proofCache st;
     console := console st ++ [printResult id name ok_ (ok r) verifyOk (error r)];
     report := report st ++
       [{| id := id; name := name; expectProof := true;
           expectVerify := true; result := ok_ |}] |}.

(** A block that expects the proof attempt to fail (S2, S3, S4, S5b):
    [verifyOk = false], [ok = r.ok === false]. *)
Definition expect_fail (id name : string) (input : Input) (st : State)
    : State :=
  let r := tryProve input in
  let verifyOk := false in
  let ok_ := negb (ok r) in
  {| passed := if ok_ then S (passed st) else passed st;
     proofCache := proofCache st;
     console := console st ++ [printResult id name ok_ (ok r) verifyOk (error r)];
     report := report st ++
       [{| id := id; name := name; expectProof := false;
           expectVerify := false; result := ok_ |}] |}.

Definition S1 : State -> State :=
  expect_pass true "S1" "Valid baseline — accept prescription" baseline.

Definition S2 : State -> State :=
  expect_fail "S2" "Invalid credential — forged doctorSecret" input_S2.

Definition S3 : State -> State :=
  expect_fail "S3" "Untrusted source — sourceId not in governance registry"
    input_S3.

Definition S4 : State -> State :=
  expect_fail "S4" "Freshness violation — dataAge exceeds Δmax" input_S4.

Definition S5a : State -> State :=
  expect_pass false "S5a" "Contraindication — reject outcome proved correctly"
    input_S5a.

Definition S5b : State -> State :=
  expect_fail "S5b"
    "Outcome integrity — approve attempt despite contraindication" input_S5b.

(** The tail of a binding probe (S6, S7), once [verifyOk] is known:
    [ok = verifyOk === false], [printResult(id, name, ok, true, verifyOk,
    null)] and the report entry. *)
Definition probe (id name : string) (verifyOk : bool) (st : State) : State :=
  let ok_ := negb verifyOk in
  {| passed := if ok_ then S (passed st) else passed st;
     proofCache := proofCache st;
     console := console st ++ [printResult id name ok_ true verifyOk None];
     report := report st ++
       [{| id := id; name := name; expectProof := true;
           expectVerify := false; result := ok_ |}] |}.

(** The SKIP branch: one console line, nothing else. *)
Definition skip (id : string) (st : State) : State :=
  {| passed := passed st; proofCache := proofCache st;
     console := console st ++ [Skip id]; report := report st |}.

(** A block either runs to its end or throws; a throw leaves [main]
    through [main().catch], with the state reached so far. *)
Inductive Step :=
| Continue (st : State)
| Threw (st : State).

(** S6: the last public signal of the cached S1 result is flipped
    ([=== "1" ? "0" : "1"]) in a copy, and the unchanged proof is verified
    against it.  The cache only ever holds successful results; reading
    [publicSignals] of any other object would throw. *)
Definition S6 (st : State) : Step :=
  match proofCache st !! "S1" with
  | None => Continue (skip "S6" st)
  | Some (Proved proof publicSignals) =>
      let tampered := publicSignals in
      let last := (length tampered - 1)%nat in
      let flipped :=
        match tampered !! last with
        | Some 1 => 0
        | _ => 1
        end in
      let tampered := <[last := flipped]> tampered in
      let verifyOk := verify vKey tampered proof in
      Continue (probe "S6" "Replay / substitution — tampered public signals"
                  verifyOk st)
  | Some (Failed _) => Threw st
  end.

(** S7: [IC[0][0]] of a deep copy of the key loses its last six
    characters to ["000000"]; the unchanged proof and signals are verified
    against the copy.  A key without [IC[0][0]] makes the block throw. *)
Definition S7 (st : State) : Step :=
  match proofCache st !! "S1" with
  | None => Continue (skip "S7" st)
  | Some (Proved proof publicSignals) =>
      match IC vKey with
      | (orig :: row) :: rest =>
          let badVkey :=
            {| IC := (corrupt orig :: row) :: rest;
               vk_rest := vk_rest vKey |} in
          let verifyOk := verify badVkey publicSignals proof in
          Continue
            (probe "S7"
               "Policy update — proof verified against wrong verification key"
               verifyOk st)
      | _ => Threw st
      end
  | Some (Failed _) => Threw st
  end.

(** Did S1 construct a proof that verified (and so fill the cache)? *)
Definition S1_ok : bool :=
  match tryProve baseline with
  | Proved proof publicSignals => verify vKey publicSignals proof
  | Failed _ => false
  end.

(** What a run has established so far: every printed result reports
    one entry, in order; [passed] counts the entries that passed; [ids]
    are the scenarios reported and [skips] the SKIP lines printed. *)
Definition Track (st : State) (ids : list string) (skips : list Line)
    : Prop :=
  Forall2 reports (List.filter is_result (console st)) (report st)
  /\ passed st = length (List.filter result (report st))
  /\ map id (report st) = ids
  /\ List.filter is_skip (console st) = skips.

(** Block [after] recorded a pass for the expected-failure scenario [i]
    on top of [before], printing the error text [err]. *)
Definition recorded_pass (before after : State) (i err : string) : Prop :=
  passed after = S (passed before)
  /\ exists n,
       report after = report before ++
         [{| id := i; name := n; expectProof := false;
             expectVerify := false; result := true |}]
       /\ console after = console before ++
            [printResult i n true false false (Some err)].

Definition init : State :=
  {| passed := 0; report := []; proofCache := ∅; console := [Banner] |}.

(** The state after the six proving scenarios. *)
Definition after_S5b : State :=
  S5b (S5a (S4 (S3 (S2 (S1 init))))).

(** The eight blocks in source order. *)
Definition scenarios : Step :=
  match S6 after_S5b with
  | Continue st => S7 st
  | Threw st => Threw st
  end.

(** What a run leaves behind: the console, [test_results.json] when it
    was written, and the status handed to [process.exit] when the script
    called it.  Only [main().catch] calls [process.exit]; when [main]
    returns, nothing does. *)
Record Run := {
  run_console : list Line;
  test_results : option (list ReportEntry);
  exit_status : option Z
}.

Definition main : Run :=
  match scenarios with
  | Continue st =>
      let total := length (report st) in
      {| run_console := console st ++ [Summary (passed st) total; Saved];
         test_results := Some (report st);
         exit_status := None |}
  | Threw st =>
      {| run_console := console st; test_results := None;
         exit_status := Some 1 |}
  end.

End Harness.

Arguments Proved {Proof} _ _.
Arguments Failed {Proof} _.
Arguments ok {Proof} _.
Arguments error {Proof} _.
Arguments passed {Proof} _.
Arguments report {Proof} _.
Arguments proofCache {Proof} _.
Arguments console {Proof} _.
Arguments Continue {Proof} _.
Arguments Threw {Proof} _.
Arguments IC {VKeyRest} _.
Arguments vk_rest {VKeyRest} _.

End Prove.

(** ** The setup script (ceremony.js) *)

Module Ceremony.
Local Open Scope string_scope.

Definition LOG_FILE : string := "ceremony_log.txt".
Definition BUILD_DIR : string := "build".

(** [execSync(circomCmd, ...)] returns the compiler's output, or throws an
    error that may carry the captured [stdout] and [stderr]. *)
Inductive ExecResult :=
| ExecOk (out : string)
| ExecThrew (stdout stderr : option string).

(** The snarkjs and file-system calls that follow the compile step, in
    source order. *)
Inductive Call :=
| R1csInfo
| NewAccumulator
| PtauContribute1
| PtauContribute2
| PtauVerify
| PreparePhase2
| NewZKey
| ZkeyContribute1
| ZkeyContribute2
| ZkeyVerifyFromR1cs
| ExportVerificationKey
| WriteVerificationKey
| BuildPoseidon
| WriteInput
| FullProve
| WriteProof
| WritePublic
| Groth16Verify
| ExportSolidityVerifier
| WriteSolidity.

Definition later_calls : list Call :=
  [ R1csInfo; NewAccumulator; PtauContribute1; PtauContribute2; PtauVerify;
    PreparePhase2; NewZKey; ZkeyContribute1; ZkeyContribute2;
    ZkeyVerifyFromR1cs; ExportVerificationKey; WriteVerificationKey;
    BuildPoseidon; WriteInput; FullProve; WriteProof; WritePublic;
    Groth16Verify; ExportSolidityVerifier; WriteSolidity ].

(** Everything the script reads from its environment. *)
Record World := {
  now : string;                       (* new Date().toISOString() *)
  snarkjs_version : string;
  build_dir_exists : bool;            (* fs.existsSync(BUILD_DIR) *)
  circomBin : string;                 (* path.resolve("circom.exe") *)
  exec_circom : ExecResult;
  r1cs_exists : bool;                 (* existsSync of prescription.r1cs,
                                         asked after a failed compile *)
  trim : string -> string;            (* String.prototype.trim *)
  throws : Call -> bool;              (* does this later call throw? *)
  log_before : Call -> list string;   (* lines logged ahead of a call *)
  log_after : Call -> list string     (* lines logged once it returned *)
}.

(** The effects of a run, besides the log lines. *)
Inductive Event :=
| Mkdir
| Exec (cmd : string)
| Called (c : Call)
| SaveLog (content : list string)
| ConsoleError
| Exit (code : Z).

(** The module-level array [lines] and the trace of effects. *)
Record St := {
  lines : list string;
  events : list Event
}.

Definition log (msg : string) (st : St) : St :=
  {| lines := lines st ++ [msg]; events := events st |}.

Definition log_all (msgs : list string) (st : St) : St :=
  fold_left (fun s m => log m s) msgs st.

Definition emit (e : Event) (st : St) : St :=
  {| lines := lines st; events := events st ++ [e] |}.

Definition bar : string := String.concat "" (repeat "═" 60).

Definition section (title : string) (st : St) : St :=
  log bar (log ("  " ++ title) (log bar (log "" st))).

(** [save()] writes the lines logged so far. *)
Definition save (st : St) : St := emit (SaveLog (lines st)) st.

Definition quote : string := String (Ascii.ascii_of_nat 34) EmptyString.

Definition circomCmd (w : World) : string :=
  quote ++ circomBin w ++ quote
  ++ " prescription.circom --r1cs --wasm --sym -o " ++ BUILD_DIR.

Definition or_empty (s : option string) : string :=
  match s with Some x => x | None => "" end.

(** [f.padEnd(42)]. *)
Definition padEnd (n : nat) (s : string) : string :=
  s ++ String.concat "" (repeat " " (n - String.length s)).

(** The table printed by the summary. *)
Definition files : list (string * string) :=
  [ ("build/prescription.r1cs", "Compiled R1CS constraint system");
    ("build/prescription.wasm",
     "WebAssembly witness generator (inside prescription_js/)");
    ("build/pot12_final.ptau", "Phase 1 Powers of Tau (universal)");
    ("build/prescription_final.zkey", "Phase 2 proving key (circuit-specific)");
    ("verification_key.json", "Verification key (public)");
    ("input.json", "Test input / witness data");
    ("proof.json", "Generated ZK proof");
    ("public.json", "Public signals");
    ("PrescriptionVerifier.sol", "Solidity on-chain verifier");
    (LOG_FILE, "This ceremony log") ].

Definition summary (w : World) (st : St) : St :=
  let st := section "CEREMONY COMPLETE — Output files" st in
  let st :=
    log_all (map (fun '(f, desc) => "  " ++ padEnd 42 f ++ " " ++ desc) files)
      st in
  let st := log "" st in
  log ("Ceremony finished at: " ++ now w) st.

(** Steps 2 to 7 and the summary: every call is attempted in turn; a call
    that throws leaves [main] through [main().catch], which prints the
    error and exits with status 1.  The lines logged around the calls
    depend on the values snarkjs returns and are supplied by the world. *)
Fixpoint run_later (w : World) (cs : list Call) (st : St) : St :=
  match cs with
  | [] => save (summary w st)
  | c :: cs' =>
      let st := emit (Called c) (log_all (log_before w c) st) in
      if throws w c then emit (Exit 1) (emit ConsoleError st)
      else run_later w cs' (log_all (log_after w c) st)
  end.

(** [main]: the header, the compile step with its error path, then the
    rest of the ceremony. *)
Definition main (w : World) : St :=
  let st := {| lines := []; events := [] |} in
  let st := log "TRUSTED SETUP CEREMONY — PrescriptionValidation" st in
  let st := log ("Date: " ++ now w) st in
  let st := log ("snarkjs version: " ++ snarkjs_version w) st in
  let st := if build_dir_exists w then st else emit Mkdir st in
  let st := section "STEP 1 — Compile circuit (circom → .r1cs + .wasm + .sym)" st in
  let st := log ("Command: " ++ circomCmd w) st in
  let st := emit (Exec (circomCmd w)) st in
  match exec_circom w with
  | ExecOk out => run_later w later_calls (log (trim w out) st)
  | ExecThrew stdout stderr =>
      let st := log (or_empty stdout) st in
      let st := log ("STDERR: " ++ or_empty stderr) st in
      if negb (r1cs_exists w) then
        let st := log "ERROR: Compilation failed. Aborting." st in
        emit (Exit 1) (save st)
      else run_later w later_calls st
  end.

(** The later calls and the exits of a trace, in order. *)
Definition calls_and_exits (es : list Event) : list Event :=
  List.filter
    (fun e => match e with Called _ | Exit _ => true | _ => false end) es.

(** The state of [main] when the compile command has thrown and its
    output has been logged. *)
Definition after_failed_compile (w : World) (stdout stderr : option string)
    : St :=
  {| lines :=
       [ "TRUSTED SETUP CEREMONY — PrescriptionValidation";
         "Date: " ++ now w;
         "snarkjs version: " ++ snarkjs_version w;
         ""; bar;
         "  STEP 1 — Compile circuit (circom → .r1cs + .wasm + .sym)"; bar;
         "Command: " ++ circomCmd w;
         or_empty stdout;
         "STDERR: " ++ or_empty stderr ]%string;
     events := (if build_dir_exists w then [] else [Mkdir])
               ++ [Exec (circomCmd w)] |}.

End Ceremony.

(** ** The is-zero pattern over an arbitrary ring

    Lines 121-136 of the circuit, with the field replaced by any
    commutative ring: [isZero <== 1 - classDiff * classDiffInv] and the
    enforcement constraint [classDiff * isZero === 0]. *)

Module IsZero.
Section IsZero.

Variable R : Type.
Variables (rO rI : R) (radd rmul rsub : R -> R -> R) (ropp : R -> R).

Definition isZero (classDiff classDiffInv : R) : R :=
  rsub rI (rmul classDiff classDiffInv).

Definition enforced (classDiff classDiffInv : R) : Prop :=
  rmul classDiff (isZero classDiff classDiffInv) = rO.

End IsZero.
End IsZero.

(** ** From witness to verdict

    [snarkjs.groth16.fullProve] runs the witness calculator of the compiled
    circuit and hands the witness to the prover; [snarkjs.groth16.verify]
    checks the proof against the public signals.  Prover and verifier are
    consumed capabilities: they are parameters, and the only property ever
    assumed of them is completeness. *)

Module Pipeline.
Import Circuit.

(** The signal assignment snarkjs builds from the runner's input object. *)
Definition to_signals (i : Prove.Input) : Inputs :=
  {| doctorId := Zmod.of_Z bn128_r (Prove.doctorId i);
     doctorSecret := Zmod.of_Z bn128_r (Prove.doctorSecret i);
     authorizedAction := Zmod.of_Z bn128_r (Prove.authorizedAction i);
     sourceId := Zmod.of_Z bn128_r (Prove.sourceId i);
     dataAge := Zmod.of_Z bn128_r (Prove.dataAge i);
     allergyClassId := Zmod.of_Z bn128_r (Prove.allergyClassId i);
     medicationClassId := Zmod.of_Z bn128_r (Prove.medicationClassId i);
     doctorCredentialHash := Zmod.of_Z bn128_r (Prove.doctorCredentialHash i);
     trustedSourceHash := Zmod.of_Z bn128_r (Prove.trustedSourceHash i);
     requiredAction := Zmod.of_Z bn128_r (Prove.requiredAction i);
     deltaMax := Zmod.of_Z bn128_r (Prove.deltaMax i);
     outcome := Zmod.of_Z bn128_r (Prove.outcome i) |}.

(** The error of a failed assertion in the witness calculator. *)
Definition assert_failed : Prove.Exn :=
  {| Prove.message := Some "Error: Assert Failed."%string;
     Prove.asString := "Error: Error: Assert Failed."%string |}.

Section Pipeline.

Variable Poseidon1 : F -> F.
Variable Poseidon2 : F -> F -> F.
Variable Proof : Type.
Variable VKey : Type.
Variable prove : Signals -> Proof.
Variable verify : VKey -> list Z -> Proof -> bool.
Variable vKey : VKey.

(** Build the witness, prove, verify: [None] when witness construction
    fails, otherwise the verifier's answer. *)
Definition prove_and_verify (i : Inputs) : option bool :=
  w ← calcWitness Poseidon1 Poseidon2 i;
  Some (verify vKey (publicSignals w) (prove w)).

(** [fullProve] as the runner sees it. *)
Definition fullProve (input : Prove.Input) : Prove.Exn + (Proof * list Z) :=
  match calcWitness Poseidon1 Poseidon2 (to_signals input) with
  | Some w => inr (prove w, publicSignals w)
  | None => inl assert_failed
  end.

(** The baseline of scenario S1, as snarkjs reads it from the runner:
    the commitments are the hashes [prove.js] computes at start-up. *)
Definition baseline_inputs : Inputs :=
  to_signals
    (Prove.baseline
       (Zmod.to_Z (Poseidon2 (Zmod.of_Z bn128_r 123) (Zmod.of_Z bn128_r 456)))
       (Zmod.to_Z (Poseidon1 (Zmod.of_Z bn128_r 1)))).

(** Completeness of the proof system for the keys of the ceremony: the
    proof of a satisfying witness verifies against its public signals. *)
Definition complete : Prop :=
  forall w, satisfies Poseidon1 Poseidon2 w ->
    verify vKey (publicSignals w) (prove w) = true.

End Pipeline.
End Pipeline.

(** ** Closed instances

    Concrete stand-ins for the parameters, used to evaluate the
    definitions at explicit inputs: two hash functions, and the proof
    system whose proof is the witness itself. *)

Module Demo.
Import Circuit.

Definition hash1 (x : F) : F := (x * x + Zmod.one)%Zmod.
Definition hash2 (x y : F) : F := (x * x + y + y)%Zmod.

Definition prove (w : Signals) : Signals := w.

Definition verify (_ : unit) (publicSignals : list Z) (proof : Signals) : bool :=
  satisfiesb hash1 hash2 proof
  && bool_decide (publicSignals = Circuit.publicSignals proof).

Definition fe (z : Z) : F := Zmod.of_Z bn128_r z.

(** The baseline of the test plan with the commitments of the stand-in
    hashes. *)
Definition baseline : Inputs :=
  {| doctorId := fe 123; doctorSecret := fe 456;
     authorizedAction := fe 1; sourceId := fe 1;
     dataAge := fe 30; allergyClassId := fe 2; medicationClassId := fe 5;
     doctorCredentialHash := hash2 (fe 123) (fe 456);
     trustedSourceHash := hash1 (fe 1);
     requiredAction := fe 1; deltaMax := fe 90; outcome := fe 1 |}.

Definition with_dataAge (a : F) (i : Inputs) : Inputs :=
  {| doctorId := doctorId i; doctorSecret := doctorSecret i;
     authorizedAction := authorizedAction i; sourceId := sourceId i;
     dataAge := a; allergyClassId := allergyClassId i;
     medicationClassId := medicationClassId i;
     doctorCredentialHash := doctorCredentialHash i;
     trustedSourceHash := trustedSourceHash i;
     requiredAction := requiredAction i; deltaMax := deltaMax i;
     outcome := outcome i |}.

Definition with_medication (m : F) (i : Inputs) : Inputs :=
  {| doctorId := doctorId i; doctorSecret := doctorSecret i;
     authorizedAction := authorizedAction i; sourceId := sourceId i;
     dataAge := dataAge i; allergyClassId := allergyClassId i;
     medicationClassId := m;
     doctorCredentialHash := doctorCredentialHash i;
     trustedSourceHash := trustedSourceHash i;
     requiredAction := requiredAction i; deltaMax := deltaMax i;
     outcome := outcome i |}.

Definition with_doctorSecret (s : F) (i : Inputs) : Inputs :=
  {| doctorId := doctorId i; doctorSecret := s;
     authorizedAction := authorizedAction i; sourceId := sourceId i;
     dataAge := dataAge i; allergyClassId := allergyClassId i;
     medicationClassId := medicationClassId i;
     doctorCredentialHash := doctorCredentialHash i;
     trustedSourceHash := trustedSourceHash i;
     requiredAction := requiredAction i; deltaMax := deltaMax i;
     outcome := outcome i |}.

(** S5a of the test plan (honest reject of a contraindication). *)
Definition honest_reject : Inputs :=
  with_outcome (fe 0) (with_medication (fe 2) baseline).

(** S2 of the test plan (forged secret). *)
Definition forged_secret : Inputs := with_doctorSecret (fe 999) baseline.

(** Assignments whose [dataAge] leaves the 32-bit width: [2^33], and
    [-1], the largest element of the field. *)
Definition reject_beyond_width : Inputs :=
  with_dataAge (fe (2 ^ 33)) honest_reject.

(** The baseline with [dataAge = 2^33], declared as rejected: the data is
    not fresh ([2^33 >= 90]) and outcome 0 is the conjunction of the two
    checks. *)
Definition stale_beyond_width : Inputs :=
  with_outcome (fe 0) (with_dataAge (fe (2 ^ 33)) baseline).

(** The baseline around the freshness bound [deltaMax = 90]: one day
    below it, declared accepted; at it and above it, declared rejected. *)
Definition one_below_bound : Inputs := with_dataAge (fe 89) baseline.

Definition at_bound : Inputs :=
  with_outcome (fe 0) (with_dataAge (fe 90) baseline).

Definition above_bound : Inputs :=
  with_outcome (fe 0) (with_dataAge (fe 100) baseline).

Definition wrapped_age : Inputs := with_dataAge (fe (-1)) baseline.

(** A run of the scenario suite without build artifacts: every call of
    [fullProve] throws the error of the missing wasm file. *)
Definition missing_wasm : Prove.Exn :=
  {| Prove.message :=
       Some "ENOENT: no such file or directory, open 'build/prescription_js/prescription.wasm'"%string;
     Prove.asString :=
       "Error: ENOENT: no such file or directory, open 'build/prescription_js/prescription.wasm'"%string |}.

Definition no_artifacts (_ : Prove.Input) : Prove.Exn + (unit * list Z) :=
  inl missing_wasm.

Definition accept_all (_ : Prove.VKey unit) (_ : list Z) (_ : unit) : bool :=
  true.

Definition empty_key : Prove.VKey unit :=
  {| Prove.IC := []; Prove.vk_rest := tt |}.

Definition run_without_artifacts : Prove.Run :=
  Prove.main unit unit no_artifacts accept_all 0 0 empty_key.

(** A ceremony whose compiler call fails while an r1cs file from an
    earlier build is still in [build/]; no later call throws. *)
Definition stale_build : Ceremony.World :=
  {| Ceremony.now := "2026-02-20T00:00:00.000Z"%string;
     Ceremony.snarkjs_version := "0.7.6"%string;
     Ceremony.build_dir_exists := true;
     Ceremony.circomBin := "circom.exe"%string;
     Ceremony.exec_circom :=
       Ceremony.ExecThrew (Some ""%string)
         (Some "error[P1012]: illegal expression"%string);
     Ceremony.r1cs_exists := true;
     Ceremony.trim := fun s => s;
     Ceremony.throws := fun _ => false;
     Ceremony.log_before := fun _ => [];
     Ceremony.log_after := fun _ => [] |}.

(** The same failure in a clean checkout. *)
Definition clean_build : Ceremony.World :=
  {| Ceremony.now := "2026-02-20T00:00:00.000Z"%string;
     Ceremony.snarkjs_version := "0.7.6"%string;
     Ceremony.build_dir_exists := false;
     Ceremony.circomBin := "circom.exe"%string;
     Ceremony.exec_circom :=
       Ceremony.ExecThrew (Some ""%string)
         (Some "error[P1012]: illegal expression"%string);
     Ceremony.r1cs_exists := false;
     Ceremony.trim := fun s => s;
     Ceremony.throws := fun _ => false;
     Ceremony.log_before := fun _ => [];
     Ceremony.log_after := fun _ => [] |}.

End Demo.

(** ** The unconstrained hint of check 5 *)

Module Hint.
Import Circuit.

(** The same assignment with another value in [classDiffInv], the one
    signal of the template that is assigned by [<--] (line 126) instead of
    [<==]. *)
Definition with_classDiffInv (v : F) (w : Signals) : Signals :=
  {| inputs := inputs w;
     credHasher_out := credHasher_out w;
     srcHasher_out := srcHasher_out w;
     freshCheck := freshCheck w;
     freshOk := freshOk w;
     authOk := authOk w;
     classDiff := classDiff w;
     classDiffInv := v;
     isZero := isZero w;
     noContraindication := noContraindication w;
     validCtx := validCtx w;
     computedOutcome := computedOutcome w |}.

End Hint.

(** ** The two binding probes of the runner (prove.js, S6 and S7) *)

Module Probes.

(** Lines 187-188:
<<
    const tampered = [...base.publicSignals];
    tampered[tampered.length - 1] =
        tampered[tampered.length - 1] === "1" ? "0" : "1";
>>
    On an empty array the index is [-1]: the assignment then adds a
    property and no element, and the array stays empty. *)
Definition tamper (publicSignals : list Z) : list Z :=
  let tampered := publicSignals in
  let last := (length tampered - 1)%nat in
  <[last := match tampered !! last with
            | Some 1 => 0
            | _ => 1
            end]> tampered.

(** Lines 206-208: the deep copy of the key with [IC[0][0]] replaced; a key
    without [IC[0][0]] makes [orig.slice] throw. *)
Definition badVkey {VKeyRest : Type} (vKey : Prove.VKey VKeyRest)
    : option (Prove.VKey VKeyRest) :=
  match Prove.IC vKey with
  | (orig :: row) :: rest =>
      Some {| Prove.IC := (Prove.corrupt orig :: row) :: rest;
              Prove.vk_rest := Prove.vk_rest vKey |}
  | _ => None
  end.

(** [s] ends with [suffix]. *)
Definition ends_with (suffix s : string) : bool :=
  String.eqb
    (String.substring (String.length s - String.length suffix)
       (String.length suffix) s)
    suffix
  && (String.length suffix <=? String.length s)%nat.

(** The names of the two probes, as printed. *)
Definition name_S6 : string :=
  "Replay / substitution — tampered public signals".
Definition name_S7 : string :=
  "Policy update — proof verified against wrong verification key".

Definition is_summary (l : Prove.Line) : bool :=
  match l with Prove.Summary _ _ => true | _ => false end.

(** The scenario ids of the results printed on a console, in order. *)
Definition printed_ids (ls : list Prove.Line) : list string :=
  flat_map (fun l => match l with
                     | Prove.Result i _ _ _ _ _ => [i]
                     | _ => []
                     end) ls.

Section Endings.

Variable Proof : Type.
Variable VKeyRest : Type.
Variable fullProve : Prove.Input -> Prove.Exn + (Proof * list Z).
Variable verify : Prove.VKey VKeyRest -> list Z -> Proof -> bool.
Variable credHash : Z.
Variable srcHash : Z.
Variable vKey : Prove.VKey VKeyRest.

Local Abbreviation S1_ok :=
  (Prove.S1_ok Proof VKeyRest fullProve verify credHash srcHash vKey).
Local Abbreviation after_S5b :=
  (Prove.after_S5b Proof VKeyRest fullProve verify credHash srcHash vKey).

(** The three ways through the blocks S6 and S7: both skipped, both
    run, or S6 run and S7 thrown out of. *)
Inductive Ending : Prove.Step Proof -> Prop :=
| Skipped :
    S1_ok = false ->
    Ending (Prove.Continue
              (Prove.skip Proof "S7" (Prove.skip Proof "S6" after_S5b)))
| Probed pf ps bad :
    S1_ok = true ->
    Prove.tryProve Proof fullProve (Prove.baseline credHash srcHash)
      = Prove.Proved pf ps ->
    verify vKey ps pf = true ->
    badVkey vKey = Some bad ->
    Ending (Prove.Continue
              (Prove.probe Proof "S7" name_S7 (verify bad ps pf)
                 (Prove.probe Proof "S6" name_S6
                    (verify vKey (tamper ps) pf) after_S5b)))
| Crashed pf ps :
    S1_ok = true ->
    Prove.tryProve Proof fullProve (Prove.baseline credHash srcHash)
      = Prove.Proved pf ps ->
    verify vKey ps pf = true ->
    badVkey vKey = None ->
    Ending (Prove.Threw
              (Prove.probe Proof "S6" name_S6
                 (verify vKey (tamper ps) pf) after_S5b)).

End Endings.

End Probes.

(** ** The log file of the ceremony *)

Module CeremonyLog.
Import Ceremony.

(** What the run wrote to [ceremony_log.txt], one element per write. *)
Definition saved_logs (es : list Event) : list (list string) :=
  flat_map (fun e => match e with SaveLog content => [content] | _ => [] end)
    es.

(** The compile step lets the ceremony go on: the compiler returned, or it
    threw while an r1cs file exists. *)
Definition proceeds (w : World) : bool :=
  match exec_circom w with
  | ExecOk _ => true
  | ExecThrew _ _ => r1cs_exists w
  end.

(** The effects of the header and of the compile step. *)
Definition setup_events (w : World) : list Event :=
  (if build_dir_exists w then [] else [Mkdir]) ++ [Exec (circomCmd w)].

End CeremonyLog.

(** ** The key summary of the ceremony log (ceremony.js, [formatKey]) *)

Module FormatKey.
Local Open Scope string_scope.

(** The values [JSON.stringify] is given: the verification key and the
    proof are trees of objects, arrays, strings and numbers.  An object
    keeps its members in insertion order. *)
#[warnings="-register-all"]
Inductive Json :=
| JNull
| JBool (b : bool)
| JNumber (n : Z)
| JString (s : string)
| JArray (items : list Json)
| JObject (members : list (string * Json)).

(** The replacer (lines 40-45): an array of more than six elements is
    replaced by its first four and a string that counts the others. *)
Definition replacer (v : Json) : Json :=
  match v with
  | JArray items =>
      if (6 <? length items)%nat
      then JArray (firstn 4 items
                   ++ [JString ("... (" ++ pretty (length items - 4)%nat
                                ++ " more)")])
      else v
  | _ => v
  end.

(** The value [formatKey] prints.  [JSON.stringify] hands every value to
    the replacer, the members of what came back to the replacer again, and
    so on downwards.  The recursion below goes into the members first and
    applies the replacer on the way up; [formatKey_visit] shows that it
    satisfies the top-down equation of [JSON.stringify]. *)
Fixpoint formatKey (v : Json) : Json :=
  match v with
  | JArray items => replacer (JArray (map formatKey items))
  | JObject members =>
      JObject (map (fun '(k, x) => (k, formatKey x)) members)
  | _ => v
  end.

(** One step of the traversal of [JSON.stringify]: the replacer, then the
    members of its result. *)
Definition visit (next : Json -> Json) (v : Json) : Json :=
  match replacer v with
  | JArray items => JArray (map next items)
  | JObject members => JObject (map (fun '(k, x) => (k, next x)) members)
  | x => x
  end.

(** No array of the value, at any depth, has more than [n] elements. *)
Fixpoint brief (n : nat) (v : Json) : bool :=
  match v with
  | JArray items => (length items <=? n)%nat && forallb (brief n) items
  | JObject members => forallb (fun '(_, x) => brief n x) members
  | _ => true
  end.

(** The number of values in the tree. *)
Fixpoint size (v : Json) : nat :=
  match v with
  | JArray items => S (list_sum (map size items))
  | JObject members => S (list_sum (map (fun '(_, x) => size x) members))
  | _ => 1%nat
  end.

End FormatKey.

(** ** Further closed instances *)

Module Demo2.
Import Circuit.

(** A verifier for the transparent proof system that also looks at the
    key: it accepts the key whose [IC[0][0]] is the given string. *)
Definition verify_key (good : string) (k : Prove.VKey unit)
    (publicSignals : list Z) (proof : Signals) : bool :=
  Demo.verify tt publicSignals proof
  && match Prove.IC k with
     | (x :: _) :: _ => String.eqb x good
     | _ => false
     end.

Definition key (s : string) : Prove.VKey unit :=
  {| Prove.IC := [[s; "1"%string]; ["2"%string; "3"%string]];
     Prove.vk_rest := tt |}.

Definition credHash : Z :=
  Zmod.to_Z (Demo.hash2 (Demo.fe 123) (Demo.fe 456)).

Definition srcHash : Z := Zmod.to_Z (Demo.hash1 (Demo.fe 1)).

(** The runner on the compiled circuit with the stand-in hashes, the
    transparent proof system and the key [k]. *)
Definition run (good : string) (k : Prove.VKey unit) : Prove.Run :=
  Prove.main Signals unit
    (Pipeline.fullProve Demo.hash1 Demo.hash2 Signals Demo.prove)
    (verify_key good) credHash srcHash k.

(** A ceremony whose compiler succeeds and whose proof generation throws
    (the wasm file is missing, say). *)
Definition failing_proof : Ceremony.World :=
  {| Ceremony.now := "2026-02-20T00:00:00.000Z"%string;
     Ceremony.snarkjs_version := "0.7.6"%string;
     Ceremony.build_dir_exists := true;
     Ceremony.circomBin := "circom.exe"%string;
     Ceremony.exec_circom := Ceremony.ExecOk "Everything went okay"%string;
     Ceremony.r1cs_exists := true;
     Ceremony.trim := fun s => s;
     Ceremony.throws :=
       fun c => match c with Ceremony.FullProve => true | _ => false end;
     Ceremony.log_before := fun _ => [];
     Ceremony.log_after := fun _ => ["    Done."%string] |}.

(** The same ceremony with every call returning. *)
Definition good_run : Ceremony.World :=
  {| Ceremony.now := "2026-02-20T00:00:00.000Z"%string;
     Ceremony.snarkjs_version := "0.7.6"%string;
     Ceremony.build_dir_exists := false;
     Ceremony.circomBin := "circom.exe"%string;
     Ceremony.exec_circom := Ceremony.ExecOk "Everything went okay"%string;
     Ceremony.r1cs_exists := true;
     Ceremony.trim := fun s => s;
     Ceremony.throws := fun _ => false;
     Ceremony.log_before := fun _ => [];
     Ceremony.log_after := fun _ => ["    Done."%string] |}.

End Demo2.

(** ** Rejections the handler cannot read (prove.js, line 38)

    The handler of [tryProve] evaluates [e.message || String(e)].  On a
    thrown [null] or [undefined] the read of [e.message] throws a
    TypeError inside the handler: the promise of [tryProve] is rejected,
    the [await] in [main] rethrows, and the run ends in [main().catch].
    This module runs the eight blocks with that possibility; section
    [Harness] of [Prove] is the case in which it does not arise. *)

Module Thrown.
Import Prove.

(** What the promise of [fullProve] can be rejected with. *)
Inductive Thrown :=
| Nullish                 (* null or undefined *)
| Readable (e : Exn).     (* any value the handler reads a text from *)

Section Thrown.

Variable Proof : Type.
Variable VKeyRest : Type.
Variable fullProve : Input -> Thrown + (Proof * list Z).
Variable verify : VKey VKeyRest -> list Z -> Proof -> bool.
Variable credHash : Z.
Variable srcHash : Z.
Variable vKey : VKey VKeyRest.

(** [tryProve] (lines 31-40); [None] when the handler itself throws. *)
Definition tryProve (input : Input) : option (TryProve Proof) :=
  match fullProve input with
  | inr (proof, publicSignals) => Some (Proved proof publicSignals)
  | inl (Readable e) => Some (Failed (error_text e))
  | inl Nullish => None
  end.

(** The blocks S1 and S5a.  [await tryProve(...)] is their first
    statement: when it throws, the block has counted, printed and pushed
    nothing. *)
Definition expect_pass (cache : bool) (id name : string) (input : Input)
    (st : State Proof) : Step Proof :=
  match tryProve input with
  | None => Threw st
  | Some r =>
      let verifyOk :=
        match r with
        | Proved proof publicSignals => verify vKey publicSignals proof
        | Failed _ => false
        end in
      let ok_ := ok r && verifyOk in
      Continue
        {| passed := if ok_ then S (passed st) else passed st;
           proofCache := if ok_ && cache then <[id := r]> (proofCache st)
                         else proofCache st;
           console := console st
                      ++ [printResult id name ok_ (ok r) verifyOk (error r)];
           report := report st ++
             [{| Prove.id := id; Prove.name := name; expectProof := true;
                 expectVerify := true; result := ok_ |}] |}
  end.

(** The blocks S2, S3, S4 and S5b. *)
Definition expect_fail (id name : string) (input : Input)
    (st : State Proof) : Step Proof :=
  match tryProve input with
  | None => Threw st
  | Some r =>
      let verifyOk := false in
      let ok_ := negb (ok r) in
      Continue
        {| passed := if ok_ then S (passed st) else passed st;
           proofCache := proofCache st;
           console := console st
                      ++ [printResult id name ok_ (ok r) verifyOk (error r)];
           report := report st ++
             [{| Prove.id := id; Prove.name := name; expectProof := false;
                 expectVerify := false; result := ok_ |}] |}
  end.

Definition S1 : State Proof -> Step Proof :=
  expect_pass true "S1" "Valid baseline — accept prescription"
    (baseline credHash srcHash).

Definition S2 : State Proof -> Step Proof :=
  expect_fail "S2" "Invalid credential — forged doctorSecret"
    (input_S2 credHash srcHash).

Definition S3 : State Proof -> Step Proof :=
  expect_fail "S3" "Untrusted source — sourceId not in governance registry"
    (input_S3 credHash srcHash).

Definition S4 : State Proof -> Step Proof :=
  expect_fail "S4" "Freshness violation — dataAge exceeds Δmax"
    (input_S4 credHash srcHash).

Definition S5a : State Proof -> Step Proof :=
  expect_pass false "S5a" "Contraindication — reject outcome proved correctly"
    (input_S5a credHash srcHash).

Definition S5b : State Proof -> Step Proof :=
  expect_fail "S5b"
    "Outcome integrity — approve attempt despite contraindication"
    (input_S5b credHash srcHash).

(** Sequencing: a block runs only if the one before it did not throw. *)
Definition andThen (s : Step Proof) (k : State Proof -> Step Proof)
    : Step Proof :=
  match s with
  | Continue st => k st
  | Threw st => Threw st
  end.

(** The eight blocks in source order; S6 and S7 await no [tryProve] and
    are those of [Prove]. *)
Definition scenarios : Step Proof :=
  andThen (S1 (init Proof)) (fun st =>
  andThen (S2 st) (fun st =>
  andThen (S3 st) (fun st =>
  andThen (S4 st) (fun st =>
  andThen (S5a st) (fun st =>
  andThen (S5b st) (fun st =>
  andThen (Prove.S6 Proof VKeyRest verify vKey st)
    (Prove.S7 Proof VKeyRest verify vKey))))))).

Definition main : Run :=
  match scenarios with
  | Continue st =>
      let total := length (report st) in
      {| run_console := console st ++ [Summary (passed st) total; Saved];
         test_results := Some (report st);
         exit_status := None |}
  | Threw st =>
      {| run_console := console st; test_results := None;
         exit_status := Some 1 |}
  end.

End Thrown.

(** An oracle of section [Harness], seen as one that may throw anything. *)
Definition readable {Proof : Type}
    (fullProve : Input -> Exn + (Proof * list Z)) (input : Input)
    : Thrown + (Proof * list Z) :=
  match fullProve input with
  | inl e => inl (Readable e)
  | inr r => inr r
  end.

(** Block [after] recorded a pass for the expected-failure scenario [i]
    on top of [before], printing the error text [err]. *)
Definition recorded_pass {Proof : Type} (before : State Proof)
    (after : Step Proof) (i err : string) : Prop :=
  exists st,
    after = Continue st
    /\ Prove.recorded_pass Proof before st i err.

End Thrown.

(** ** The report asked for by the test plan

    Spec 4.7: for each scenario the harness compares the observed pair
    (constructed?, verified?) with the declared pair, prints a pass/fail
    and appends a report entry.  The definitions below say what that
    comes to for the eight scenarios, from the answers of the two oracles
    alone; the theorems compare it with what [main] prints and saves. *)

Module Reporting.
Import Prove Probes.

(** One scenario as the test plan sees it. *)
Record Observation := {
  scenario : string;
  title : string;
  declared : bool * bool;       (* proof expected?, verification expected? *)
  constructed : bool;           (* was a proof constructed? *)
  verified : bool;              (* did a verification succeed? *)
  error_shown : option string   (* the error printed beside the result *)
}.

(** Success: the observed pair is the declared pair. *)
Definition success (o : Observation) : bool :=
  classify (fst (declared o)) (snd (declared o)) (constructed o) (verified o).

Definition entry_of (o : Observation) : ReportEntry :=
  {| id := scenario o; name := title o;
     expectProof := fst (declared o); expectVerify := snd (declared o);
     result := success o |}.

Definition line_of (o : Observation) : Line :=
  printResult (scenario o) (title o) (success o) (constructed o) (verified o)
    (error_shown o).

Section Reporting.

Variable Proof : Type.
Variable VKeyRest : Type.
Variable fullProve : Input -> Exn + (Proof * list Z).
Variable verify : VKey VKeyRest -> list Z -> Proof -> bool.
Variable credHash : Z.
Variable srcHash : Z.
Variable vKey : VKey VKeyRest.

(** A scenario that expects a proof that verifies: the proof is
    attempted, and verified when there is one. *)
Definition observe_pass (i n : string) (input : Input) : Observation :=
  let r := tryProve Proof fullProve input in
  {| scenario := i; title := n; declared := (true, true);
     constructed := ok r;
     verified := match r with
                 | Proved proof publicSignals =>
                     verify vKey publicSignals proof
                 | Failed _ => false
                 end;
     error_shown := error r |}.

(** A scenario that expects no proof: the proof is attempted and no
    verification is. *)
Definition observe_fail (i n : string) (input : Input) : Observation :=
  let r := tryProve Proof fullProve input in
  {| scenario := i; title := n; declared := (false, false);
     constructed := ok r;
     verified := false;
     error_shown := error r |}.

(** A binding probe: an existing proof is verified against a key and
    public signals it was not made for. *)
Definition observe_probe (i n : string) (key : VKey VKeyRest)
    (publicSignals : list Z) (proof : Proof) : Observation :=
  {| scenario := i; title := n; declared := (true, false);
     constructed := true;
     verified := verify key publicSignals proof;
     error_shown := None |}.

Definition first_six_observed : list Observation :=
  [ observe_pass "S1" "Valid baseline — accept prescription"
      (baseline credHash srcHash);
    observe_fail "S2" "Invalid credential — forged doctorSecret"
      (input_S2 credHash srcHash);
    observe_fail "S3"
      "Untrusted source — sourceId not in governance registry"
      (input_S3 credHash srcHash);
    observe_fail "S4" "Freshness violation — dataAge exceeds Δmax"
      (input_S4 credHash srcHash);
    observe_pass "S5a" "Contraindication — reject outcome proved correctly"
      (input_S5a credHash srcHash);
    observe_fail "S5b"
      "Outcome integrity — approve attempt despite contraindication"
      (input_S5b credHash srcHash) ].

(** The probes that are run: both need the proof of S1, verified; S7
    also needs a key it can alter. *)
Definition probes_observed : list Observation :=
  match tryProve Proof fullProve (baseline credHash srcHash) with
  | Proved proof publicSignals =>
      if verify vKey publicSignals proof then
        observe_probe "S6" name_S6 vKey (tamper publicSignals) proof
        :: match badVkey vKey with
           | Some bad => [observe_probe "S7" name_S7 bad publicSignals proof]
           | None => []
           end
      else []
  | Failed _ => []
  end.

Definition observed : list Observation :=
  first_six_observed ++ probes_observed.

End Reporting.
End Reporting.

(** ** Closed instances with thrown values *)

Module Demo3.

(** A pipeline that throws the error of the missing wasm file on every
    input but that of S2, where it throws [null]. *)
Definition null_at_S2 (input : Prove.Input)
    : Thrown.Thrown + (unit * list Z) :=
  if Prove.doctorSecret input =? 999 then inl Thrown.Nullish
  else inl (Thrown.Readable Demo.missing_wasm).

Definition run_null_at_S2 : Prove.Run :=
  Thrown.main unit unit null_at_S2 Demo.accept_all 0 0 Demo.empty_key.

(** The run without build artifacts, on the general runner. *)
Definition run_without_artifacts : Prove.Run :=
  Thrown.main unit unit (Thrown.readable Demo.no_artifacts) Demo.accept_all
    0 0 Demo.empty_key.

(** A pipeline that returns a proof on every input; with the verifier
    that accepts everything, S1 passes. *)
Definition always_proves (_ : Prove.Input) : Prove.Exn + (unit * list Z) :=
  inr (tt, [1; 0; 0; 5]).

(** That pipeline with a key that has no [IC[0][0]]. *)
Definition run_with_empty_key : Prove.Run :=
  Prove.main unit unit always_proves Demo.accept_all 0 0 Demo.empty_key.

End Demo3.

(* ===================================================================== *)
(** * Part II.  Number theory: the field modulus is prime                 *)
(* ===================================================================== *)

Module NumberTheoryFacts.
Import NumberTheory.

Lemma trial_sound fuel : forall d n, 0 < d -> trial fuel d n = true ->
  forall k, d <= k -> k * k <= n -> ~ (k | n).
Proof.
  induction fuel as [|f IH]; simpl; intros d n Hd Ht k Hk Hkk Hdiv.
  - apply Z.ltb_lt in Ht. nia.
  - destruct (n <? d * d) eqn:E1.
    + apply Z.ltb_lt in E1. nia.
    + destruct (n mod d =? 0) eqn:E2; [discriminate|].
      apply Z.eqb_neq in E2.
      destruct (Z.eq_dec k d) as [->|Hne].
      * apply E2. apply Z.mod0_divide; assumption.
      * apply (IH (d + 1) n ltac:(lia) Ht k); auto; lia.
Qed.

Lemma prime_by_trial_sound n : prime_by_trial n = true -> Z.prime n.
Proof.
  unfold prime_by_trial. intros H. apply andb_true_iff in H as [H1 H2].
  apply Z.ltb_lt in H1. split; [assumption|].
  intros m Hm [c Hc].
  assert (Hcpos : 1 < c) by nia.
  destruct (Z_le_gt_dec (m * m) n) as [Hle|Hgt].
  - apply (trial_sound _ 2 n ltac:(lia) H2 m); try lia. exists c; assumption.
  - apply (trial_sound _ 2 n ltac:(lia) H2 c); try nia. exists m; lia.
Qed.

Lemma prime_divisor : forall m, 1 < m -> exists r, Z.prime r /\ (r | m).
Proof.
  intros m. induction m as [m IH] using (well_founded_induction (Z.lt_wf 0)).
  intros Hm. destruct (prime_dec m) as [Hp|Hnp].
  - exists m. split; [apply prime_alt; assumption | apply Z.divide_refl].
  - destruct (not_prime_divide m Hm Hnp) as [n [Hn Hdiv]].
    destruct (IH n ltac:(lia) ltac:(lia)) as [r [Hr Hrn]].
    exists r. split; [assumption | eapply Z.divide_trans; eassumption].
Qed.

Section Order.
Variables (r a : Z).
Hypothesis Hr : 1 < r.

Lemma pow1_sub m n : 0 <= n <= m ->
  a ^ m mod r = 1 -> a ^ n mod r = 1 -> a ^ (m - n) mod r = 1.
Proof.
  intros Hnm Hm Hn.
  replace m with ((m - n) + n) in Hm by lia.
  rewrite Z.pow_add_r in Hm by lia.
  rewrite Z.mul_mod, Hn, Z.mul_1_r, Z.mod_mod in Hm by lia. exact Hm.
Qed.

Lemma pow1_mul n k : 0 <= n -> 0 <= k ->
  a ^ n mod r = 1 -> a ^ (n * k) mod r = 1.
Proof.
  intros Hn Hk H1.
  rewrite Z.pow_mul_r by lia.
  rewrite <- Z.mod_pow_l, H1, Z.pow_1_l by lia.
  apply Z.mod_small; lia.
Qed.

Lemma pow1_gcd : forall m n, 0 < m -> 0 < n ->
  a ^ m mod r = 1 -> a ^ n mod r = 1 -> a ^ Z.gcd m n mod r = 1.
Proof.
  intros m n. remember (m + n) as s eqn:Hs. revert m n Hs.
  induction s as [s IH] using (well_founded_induction (Z.lt_wf 0)).
  intros m n Hs Hm Hn Hpm Hpn.
  destruct (Z.lt_trichotomy m n) as [Hlt|[Heq|Hgt]].
  - rewrite <- (Z.gcd_sub_diag_r m n).
    apply (IH (m + (n - m))); try lia; auto.
    apply pow1_sub; auto; lia.
  - subst n. rewrite Z.gcd_diag, Z.abs_eq by lia. assumption.
  - rewrite Z.gcd_comm, <- (Z.gcd_sub_diag_r n m).
    rewrite Z.gcd_comm.
    apply (IH ((m - n) + n)); try lia; auto.
    apply pow1_sub; auto; lia.
Qed.
End Order.

Lemma prime_power_divisor q (Hq : Z.prime q) : forall e, 0 <= e ->
  forall g, 0 < g -> (g | q ^ e) -> g <> q ^ e -> (g | q ^ (e - 1)).
Proof.
  pose proof (Z.prime_ge_2 _ Hq) as Hq2.
  intros e He. pattern e. apply natlike_ind; [| |exact He]; clear e He.
  - intros g Hg Hd Hne. exfalso. apply Hne.
    rewrite Z.pow_0_r in *. apply Z.divide_1_r_nonneg in Hd; lia.
  - intros e He IH g Hg Hd Hne.
    replace (Z.succ e - 1) with e by lia.
    rewrite Z.pow_succ_r in Hd, Hne by lia.
    destruct (Z.BoolSpec_divide q g) as [[g' Hg']|Hnd].
    + subst g.
      assert (Hd' : (g' | q ^ e)).
      { destruct Hd as [c Hc]. exists c. nia. }
      assert (Hne' : g' <> q ^ e) by (intros ->; apply Hne; ring).
      assert (Hg'pos : 0 < g') by nia.
      destruct (Z.eq_dec e 0) as [->|He0].
      * exfalso. rewrite Z.pow_0_r in *. apply Z.divide_1_r_nonneg in Hd'; lia.
      * specialize (IH g' Hg'pos Hd' Hne').
        replace e with (Z.succ (e - 1)) at 1 by lia.
        rewrite Z.pow_succ_r by lia.
        rewrite (Z.mul_comm g' q). apply Z.mul_divide_mono_l. assumption.
    + apply (Z.gauss g q (q ^ e)); [assumption|].
      rewrite Z.gcd_comm. apply Z.coprime_prime_l; assumption.
Qed.

Lemma powm_spec a n m : 0 <= n -> powm a n m = a ^ n mod m.
Proof.
  intros Hn. unfold powm.
  rewrite <- Zmod.of_Z_pow by assumption. apply Zmod.unsigned_of_Z.
Qed.

Section Pocklington.
Variables (N r : Z).
Hypothesis HN : 1 < N.
Hypothesis Hr : Z.prime r.
Hypothesis HrN : (r | N).

Lemma pock_factor q e a :
  Z.prime q -> 0 < e -> ((N - 1) mod q ^ e = 0) ->
  a ^ (N - 1) mod N = 1 ->
  Z.gcd (a ^ ((N - 1) / q) mod N - 1) N = 1 ->
  (q ^ e | r - 1).
Proof.
  intros Hq He Hdiv Ha Hg.
  pose proof (Z.prime_ge_2 _ Hr) as Hr2.
  pose proof (Z.prime_ge_2 _ Hq) as Hq2.
  assert (Hqe : 0 < q ^ e) by (apply Z.pow_pos_nonneg; lia).
  assert (Har : a ^ (N - 1) mod r = 1).
  { rewrite <- (Z.mod_mod_divide _ N r HrN), Ha. apply Z.mod_small; lia. }
  assert (Hanz : a mod r <> 0).
  { intros H0. rewrite <- Z.mod_pow_l, H0, Z.pow_0_l, Z.mod_0_l in Har; lia. }
  pose proof (Z.fermat_nz r a Hr Hanz) as Hf.
  apply Z.mod_divide in Hdiv; [|lia]. destruct Hdiv as [c Hc].
  assert (Hcpos : 0 < c) by nia.
  set (b := a ^ c).
  assert (Hb1 : b ^ (q ^ e) mod r = 1).
  { unfold b. rewrite <- Z.pow_mul_r by lia. rewrite <- Hc. exact Har. }
  assert (Hb2 : b ^ (r - 1) mod r = 1).
  { unfold b. rewrite <- Z.pow_mul_r by lia. rewrite Z.mul_comm.
    apply pow1_mul; auto; lia. }
  pose proof (pow1_gcd r b ltac:(lia) (q ^ e) (r - 1) Hqe ltac:(lia) Hb1 Hb2) as Hbg.
  destruct (Z.eq_dec (Z.gcd (q ^ e) (r - 1)) (q ^ e)) as [Heq|Hne].
  { rewrite <- Heq. apply Z.gcd_divide_r. }
  exfalso.
  assert (Hgpos : 0 < Z.gcd (q ^ e) (r - 1)).
  { pose proof (Z.gcd_nonneg (q ^ e) (r - 1)).
    destruct (Z.eq_dec (Z.gcd (q ^ e) (r - 1)) 0) as [H0|]; [|lia].
    apply Z.gcd_eq_0_l in H0. lia. }
  pose proof (prime_power_divisor q Hq e ltac:(lia) _ Hgpos
                (Z.gcd_divide_l _ _) Hne) as [k Hk].
  assert (Hkpos : 0 < k).
  { apply (Z.mul_pos_cancel_r _ _ Hgpos). rewrite <- Hk.
    apply Z.pow_pos_nonneg; lia. }
  assert (Hb3 : b ^ (q ^ (e - 1)) mod r = 1).
  { rewrite Hk, Z.mul_comm. apply pow1_mul; auto; lia. }
  assert (Hquot : (N - 1) / q = c * q ^ (e - 1)).
  { rewrite Hc. replace e with (Z.succ (e - 1)) at 1 by lia.
    rewrite Z.pow_succ_r by lia.
    replace (c * (q * q ^ (e - 1))) with (c * q ^ (e - 1) * q) by ring.
    apply Z.div_mul; lia. }
  unfold b in Hb3. rewrite <- Z.pow_mul_r in Hb3 by lia.
  rewrite <- Hquot in Hb3.
  assert (Hrd : (r | a ^ ((N - 1) / q) mod N - 1)).
  { apply Z.mod_divide; [lia|].
    rewrite Zminus_mod, (Z.mod_mod_divide _ N r HrN), Hb3.
    rewrite (Z.mod_small 1 r) by lia. reflexivity. }
  pose proof (Z.gcd_greatest _ _ _ Hrd HrN) as Hr1.
  rewrite Hg in Hr1. apply Z.divide_1_r_nonneg in Hr1; lia.
Qed.

Lemma pock_items_divide cert :
  Forall (fun c => Z.prime (fst (fst c))) cert ->
  pock_items N cert = true -> (Fprod cert | r - 1).
Proof.
  induction cert as [|[[q e] a] rest IH]; simpl; intros Hp Hc.
  - apply Z.divide_1_l.
  - inversion Hp as [|? ? Hq Hrest]; subst; simpl in Hq.
    repeat (apply andb_true_iff in Hc as [Hc ?]).
    apply Z.ltb_lt in Hc.
    repeat match goal with H : (_ =? _) = true |- _ => apply Z.eqb_eq in H end.
    assert (0 <= (N - 1) / q).
    { apply Z.div_pos; [lia|]. pose proof (Z.prime_ge_2 _ Hq). lia. }
    rewrite !powm_spec in * by lia.
    assert (Hqe : (q ^ e | r - 1)) by (apply (pock_factor q e a); auto).
    specialize (IH Hrest ltac:(assumption)).
    destruct IH as [u Hu]. 
    assert (Hg : (q ^ e | u)).
    { apply (Z.gauss _ (Fprod rest)); [|assumption].
      rewrite Z.mul_comm, <- Hu. exact Hqe. }
    destruct Hg as [v Hv]. exists v. rewrite Hu, Hv. ring.
Qed.
End Pocklington.

Theorem pocklington N cert :
  Forall (fun c => Z.prime (fst (fst c))) cert ->
  pock_check N cert = true -> Z.prime N.
Proof.
  intros Hp Hc. unfold pock_check in Hc.
  apply andb_true_iff in Hc as [Hc Hitems].
  apply andb_true_iff in Hc as [HN HF].
  apply Z.ltb_lt in HN, HF.
  split; [assumption|].
  intros m Hm [c Hc].
  assert (Hcpos : 1 < c) by nia.
  assert (Hsmall : exists k, 1 < k /\ (k | N) /\ k * k <= N).
  { destruct (Z_le_gt_dec (m * m) N).
    - exists m. repeat split; try lia. exists c; assumption.
    - exists c. repeat split; try nia. exists m; lia. }
  destruct Hsmall as [k [Hk1 [HkN Hkk]]].
  destruct (prime_divisor k Hk1) as [r [Hr Hrk]].
  pose proof (Z.prime_ge_2 _ Hr) as Hr2.
  assert (HrN : (r | N)) by (eapply Z.divide_trans; eassumption).
  pose proof (pock_items_divide N r HN Hr HrN cert Hp Hitems) as [u Hu].
  assert (Hrle : r <= k) by (apply Z.divide_pos_le; [lia|assumption]).
  set (Fp := Fprod cert) in *.
  assert (Hu1 : 1 <= u * u) by nia.
  assert (HF2 : Fp * Fp <= (r - 1) * (r - 1)).
  { rewrite Hu. replace (u * Fp * (u * Fp)) with (u * u * (Fp * Fp)) by ring.
    pose proof (Z.square_nonneg Fp). nia. }
  assert (r * r <= k * k) by nia.
  nia.
Qed.

Lemma prime_12048837557 : Z.prime 12048837557.
Proof. apply prime_by_trial_sound. vm_compute; reflexivity. Qed.

Lemma prime_5156902474397 : Z.prime 5156902474397.
Proof.
  apply (pocklington _ [(12048837557, 1, 2)]).
  - apply List.Forall_cons; [exact prime_12048837557 | apply List.Forall_nil].
  - vm_compute; reflexivity.
Qed.

Lemma prime_1670836401704629 : Z.prime 1670836401704629.
Proof.
  apply (pocklington _ [(5156902474397, 1, 2)]).
  - apply List.Forall_cons; [exact prime_5156902474397 | apply List.Forall_nil].
  - vm_compute; reflexivity.
Qed.

Lemma bn128_r_prime : Z.prime bn128_r.
Proof.
  apply (pocklington _ [(2, 28, 5); (11003, 1, 2); (237073, 1, 2);
                        (405928799, 1, 2); (1670836401704629, 1, 2)]).
  - repeat (apply List.Forall_cons; [first
      [ exact prime_1670836401704629
      | apply prime_by_trial_sound; vm_compute; reflexivity ] |]).
    apply List.Forall_nil.
  - vm_compute; reflexivity.
Qed.

End NumberTheoryFacts.

(* ===================================================================== *)
(** * Part III.  The field and the consumed gadgets                       *)
(* ===================================================================== *)

Module FieldFacts.
Import NumberTheoryFacts.

Lemma bn128_r_big : 2 ^ 253 < bn128_r < 2 ^ 254.
Proof. unfold bn128_r. lia. Qed.

Lemma F_range (x : F) : 0 <= Zmod.to_Z x < bn128_r.
Proof. apply Zmod.unsigned_pos_bound. pose proof bn128_r_big. lia. Qed.

Lemma F_one_to_Z : Zmod.to_Z (Zmod.one : F) = 1.
Proof. reflexivity. Qed.

Lemma F_zero_to_Z : Zmod.to_Z (Zmod.zero : F) = 0.
Proof. reflexivity. Qed.

(** The field has no zero divisors. *)
Lemma F_integral (a b : F) :
  (a * b)%Zmod = Zmod.zero -> a = Zmod.zero \/ b = Zmod.zero.
Proof. apply Zmod.mul_0_iff_prime. exact bn128_r_prime. Qed.

Lemma F_one_neq_zero : (Zmod.one : F) <> Zmod.zero.
Proof. intros H. apply (f_equal Zmod.to_Z) in H. discriminate H. Qed.

Lemma F_of_Z_small z : 0 <= z < bn128_r -> Zmod.to_Z (Zmod.of_Z bn128_r z) = z.
Proof. intros H. rewrite Zmod.unsigned_of_Z. apply Z.mod_small. exact H. Qed.

Lemma b2F_to_Z b : Zmod.to_Z (b2F b) = Z.b2z b.
Proof. destruct b; reflexivity. Qed.

Lemma b2F_true : b2F true = Zmod.one.
Proof. apply Zmod.unsigned_inj. reflexivity. Qed.

Lemma b2F_false : b2F false = Zmod.zero.
Proof. apply Zmod.unsigned_inj. reflexivity. Qed.

Lemma b2F_inj b c : b2F b = b2F c -> b = c.
Proof.
  intros H. apply (f_equal Zmod.to_Z) in H. rewrite !b2F_to_Z in H.
  destruct b, c; simpl in H; congruence.
Qed.

Lemma holdsb_holds cs : holdsb cs = true <-> holds cs.
Proof.
  unfold holdsb, holds. rewrite forallb_forall, List.Forall_forall.
  split; intros H c Hc; apply Zmod.eqb_eq, H, Hc.
Qed.

Lemma holds_app cs ds : holds (cs ++ ds) <-> holds cs /\ holds ds.
Proof. unfold holds. apply List.Forall_app. Qed.

Lemma holds_cons a b cs : holds ((a, b) :: cs) <-> a = b /\ holds cs.
Proof. unfold holds. rewrite List.Forall_cons_iff. reflexivity. Qed.

Lemma holds_nil : holds [] <-> True.
Proof. unfold holds. split; auto. Qed.

End FieldFacts.

Module GadgetFacts.
Import Circomlib FieldFacts.

Add Ring Fring : (Zmod.ring_theory bn128_r).

Lemma lc1_loop out : forall lc e2 : F,
  fst (fold_left (fun '(lc, e2) b => (lc + b * e2, e2 + e2)%Zmod) out (lc, e2))
  = (lc + e2 * Zmod.of_Z bn128_r (bitsZ out))%Zmod.
Proof.
  induction out as [|b rest IH]; intros lc e2; simpl.
  - rewrite Zmod.of_Z_0. ring.
  - rewrite IH, Zmod.of_Z_add, Zmod.of_Z_mul, Zmod.of_Z_unsigned.
    replace (Zmod.of_Z bn128_r 2) with (Zmod.one + Zmod.one : F)%Zmod
      by (apply Zmod.unsigned_inj; reflexivity).
    ring.
Qed.

Lemma lc1_bitsZ out : lc1 out = Zmod.of_Z bn128_r (bitsZ out).
Proof. unfold lc1. rewrite lc1_loop. ring. Qed.

Lemma bit_constraint (b : F) :
  (b * (b - Zmod.one))%Zmod = Zmod.zero <-> is_bit b.
Proof.
  split.
  - intros H. destruct (F_integral _ _ H) as [H0|H1]; [left; exact H0|right].
    apply Zmod.sub_eq_0. exact H1.
  - intros [->| ->]; ring.
Qed.

Lemma is_bit_b2F (b : F) : is_bit b <-> exists t, b = b2F t.
Proof.
  split.
  - intros [->| ->]; [exists false|exists true];
      [rewrite b2F_false|rewrite b2F_true]; reflexivity.
  - intros [[|] ->]; [right; apply b2F_true|left; apply b2F_false].
Qed.

Lemma bitsZ_range out :
  Forall is_bit out -> 0 <= bitsZ out < 2 ^ Z.of_nat (length out).
Proof.
  induction 1 as [|b rest Hb _ IH]; cbn [bitsZ].
  - simpl. lia.
  - rewrite length_cons, Nat2Z.inj_succ, Z.pow_succ_r by lia.
    destruct Hb as [->| ->]; [rewrite F_zero_to_Z|rewrite F_one_to_Z]; lia.
Qed.

Lemma bitsZ_testbit out : Forall is_bit out ->
  forall i, nth i out Zmod.zero = b2F (Z.testbit (bitsZ out) (Z.of_nat i)).
Proof.
  induction 1 as [|b rest Hb Hrest IH]; intros i.
  - destruct i; simpl; rewrite ?Z.testbit_0_l, b2F_false; reflexivity.
  - apply is_bit_b2F in Hb as [t ->]. cbn [bitsZ]. rewrite b2F_to_Z.
    rewrite (Z.add_comm (Z.b2z t)).
    destruct i as [|i].
    + cbn [nth]. change (Z.of_nat 0) with 0. rewrite Z.testbit_0_r. reflexivity.
    + cbn [nth]. rewrite Nat2Z.inj_succ, Z.testbit_succ_r by lia. apply IH.
Qed.

(** Soundness of [Num2Bits(n)] for [n <= 253]: the constraints force [out]
    to be the binary expansion of [in], which therefore fits in [n] bits. *)
Lemma Num2Bits_sound (in_ : F) (out : list F) :
  (length out <= 253)%nat ->
  holds (Num2Bits in_ out) ->
  Forall is_bit out
  /\ Zmod.to_Z in_ = bitsZ out
  /\ Zmod.to_Z in_ < 2 ^ Z.of_nat (length out)
  /\ forall i, nth i out Zmod.zero = b2F (Z.testbit (Zmod.to_Z in_) (Z.of_nat i)).
Proof.
  intros Hlen H. unfold Num2Bits in H. apply holds_app in H as [Hbits Hlc].
  assert (Hb : Forall is_bit out).
  { unfold holds in Hbits. rewrite List.Forall_map in Hbits.
    eapply List.Forall_impl; [|exact Hbits].
    intros b Hc. apply bit_constraint. exact Hc. }
  apply holds_cons in Hlc as [Hlc _]. simpl in Hlc.
  pose proof (bitsZ_range out Hb) as Hr.
  assert (Hpow : 2 ^ Z.of_nat (length out) <= 2 ^ 253)
    by (apply Z.pow_le_mono_r; lia).
  pose proof bn128_r_big as Hbig.
  assert (Heq : Zmod.to_Z in_ = bitsZ out).
  { rewrite <- Hlc, lc1_bitsZ. apply F_of_Z_small. lia. }
  repeat split; auto.
  - lia.
  - intros i. rewrite Heq. apply bitsZ_testbit. exact Hb.
Qed.

Lemma hint_bit x i : 0 <= i ->
  Z.land (Z.shiftr x i) 1 = Z.b2z (Z.testbit x i).
Proof.
  intros Hi. change 1 with (Z.ones 1).
  rewrite Z.land_ones by lia. change (2 ^ 1) with 2.
  rewrite <- Z.bit0_mod, Z.shiftr_spec by lia. reflexivity.
Qed.

Lemma Num2Bits_hint_bits n (in_ : F) :
  Num2Bits_hint n in_
  = map (fun i => b2F (Z.testbit (Zmod.to_Z in_) (Z.of_nat i))) (seq 0 n).
Proof.
  unfold Num2Bits_hint. apply map_ext. intros i.
  rewrite hint_bit by lia. reflexivity.
Qed.

Lemma Forall_is_bit_map (f : nat -> bool) l :
  Forall is_bit (map (fun i => b2F (f i)) l).
Proof.
  apply List.Forall_map, List.Forall_forall. intros i _.
  apply is_bit_b2F. eexists; reflexivity.
Qed.

Lemma bitsZ_seq x : 0 <= x -> forall n k,
  bitsZ (map (fun i => b2F (Z.testbit x (Z.of_nat i))) (seq k n))
  = (x / 2 ^ Z.of_nat k) mod 2 ^ Z.of_nat n.
Proof.
  intros Hx. induction n as [|n IH]; intros k.
  - simpl. rewrite Z.mod_1_r. reflexivity.
  - cbn [seq map bitsZ]. rewrite IH, b2F_to_Z.
    rewrite (Nat2Z.inj_succ n), (Z.pow_succ_r _ (Z.of_nat n)) by lia.
    rewrite (Z.rem_mul_r _ 2 (2 ^ Z.of_nat n)) by lia.
    rewrite Z.div_div by lia.
    rewrite (Nat2Z.inj_succ k), (Z.pow_succ_r _ (Z.of_nat k)) by lia.
    rewrite (Z.mul_comm 2 (2 ^ Z.of_nat k)).
    f_equal.
    rewrite Z.testbit_spec' by lia.
    reflexivity.
Qed.

(** On inputs that fit in [n] bits the hinted cells satisfy the
    constraints of [Num2Bits(n)]. *)
Lemma Num2Bits_hint_holds n (in_ : F) : (n <= 253)%nat ->
  Zmod.to_Z in_ < 2 ^ Z.of_nat n ->
  holds (Num2Bits in_ (Num2Bits_hint n in_)).
Proof.
  intros Hn Hlt. unfold Num2Bits. apply holds_app. split.
  - unfold holds. rewrite List.Forall_map.
    rewrite Num2Bits_hint_bits.
    eapply List.Forall_impl; [|apply (Forall_is_bit_map _ (seq 0 n))].
    intros b Hb. apply bit_constraint. exact Hb.
  - apply holds_cons. split; [|apply holds_nil; exact I]. cbn [fst snd].
    rewrite lc1_bitsZ, Num2Bits_hint_bits.
    pose proof (F_range in_) as Hr.
    rewrite bitsZ_seq by lia.
    change (2 ^ Z.of_nat 0) with 1. rewrite Z.div_1_r.
    rewrite Z.mod_small by lia. apply Zmod.of_Z_unsigned.
Qed.

(** The witness calculator of [Num2Bits(n)] succeeds exactly on inputs
    that fit in [n] bits. *)
Lemma Num2Bits_calc_Some n (in_ : F) : (n <= 253)%nat ->
  Zmod.to_Z in_ < 2 ^ Z.of_nat n ->
  Num2Bits_calc n in_ = Some (Num2Bits_hint n in_).
Proof.
  intros Hn Hlt. unfold Num2Bits_calc. cbv zeta.
  rewrite (proj2 (holdsb_holds _) (Num2Bits_hint_holds n in_ Hn Hlt)).
  reflexivity.
Qed.

Lemma Num2Bits_hint_length n (in_ : F) : length (Num2Bits_hint n in_) = n.
Proof. unfold Num2Bits_hint. rewrite length_map, length_seq. reflexivity. Qed.

Lemma Num2Bits_calc_inv n (in_ : F) out : (n <= 253)%nat ->
  Num2Bits_calc n in_ = Some out ->
  out = Num2Bits_hint n in_ /\ Zmod.to_Z in_ < 2 ^ Z.of_nat n.
Proof.
  intros Hn. unfold Num2Bits_calc.
  destruct (holdsb _) eqn:E; [|discriminate].
  intros [= <-]. split; [reflexivity|].
  apply holdsb_holds in E. apply Num2Bits_sound in E.
  - rewrite Num2Bits_hint_length in E. tauto.
  - rewrite Num2Bits_hint_length. exact Hn.
Qed.

Lemma pow2F_to_Z n : (n <= 253)%nat -> Zmod.to_Z (pow2F n) = 2 ^ Z.of_nat n.
Proof.
  intros Hn. unfold pow2F. apply F_of_Z_small.
  pose proof bn128_r_big.
  assert (2 ^ Z.of_nat n <= 2 ^ 253) by (apply Z.pow_le_mono_r; lia).
  assert (0 < 2 ^ Z.of_nat n) by (apply Z.pow_pos_nonneg; lia).
  lia.
Qed.

Lemma lt_diff_mod n a b : (n <= 253)%nat ->
  lt_diff n a b
  = (Zmod.to_Z a + 2 ^ Z.of_nat n - Zmod.to_Z b) mod bn128_r.
Proof.
  intros Hn. unfold lt_diff.
  rewrite Zmod.unsigned_sub, Zmod.unsigned_add, pow2F_to_Z by exact Hn.
  rewrite Zminus_mod_idemp_l. reflexivity.
Qed.

Lemma lt_diff_in_range n a b : (n <= 252)%nat ->
  Zmod.to_Z a < 2 ^ Z.of_nat n -> Zmod.to_Z b < 2 ^ Z.of_nat n ->
  lt_diff n a b = Zmod.to_Z a + 2 ^ Z.of_nat n - Zmod.to_Z b.
Proof.
  intros Hn Ha Hb. rewrite lt_diff_mod by lia.
  pose proof (F_range a). pose proof (F_range b). pose proof bn128_r_big.
  assert (2 ^ Z.of_nat n <= 2 ^ 252) by (apply Z.pow_le_mono_r; lia).
  apply Z.mod_small. lia.
Qed.

Lemma testbit_top n d : 0 <= n -> 0 <= d < 2 ^ (n + 1) ->
  Z.testbit d n = (2 ^ n <=? d).
Proof.
  intros Hn Hd. rewrite Z.pow_add_r, Z.pow_1_r in Hd by lia.
  assert (Hp : 0 < 2 ^ n) by (apply Z.pow_pos_nonneg; lia).
  destruct (Z.leb_spec (2 ^ n) d) as [Hle|Hlt].
  - apply Z.testbit_true; [lia|].
    replace (d / 2 ^ n) with 1; [reflexivity|].
    apply Z.div_unique with (r := d - 2 ^ n); lia.
  - destruct (Z.eq_dec d 0) as [->|Hne]; [apply Z.testbit_0_l|].
    apply Z.bits_above_log2; [lia|].
    apply Z.log2_lt_pow2; lia.
Qed.

Lemma one_minus_b2F t : (Zmod.one - b2F t)%Zmod = b2F (negb t).
Proof.
  destruct t; simpl negb; rewrite ?b2F_true, ?b2F_false; ring.
Qed.

(** Soundness of [LessThan(n)], [n <= 252]: the comparator constrains the
    difference [in[0] + 2^n - in[1]] to [n + 1] bits and outputs the
    complement of its top bit.  The operands themselves are not
    constrained. *)
Lemma LessThan_sound n a b (s : LessThanSignals) : (n <= 252)%nat ->
  LessThan_shape n s -> holds (LessThan n a b s) ->
  lt_diff n a b < 2 ^ Z.of_nat (S n)
  /\ lt_out s = b2F (negb (Z.testbit (lt_diff n a b) (Z.of_nat n))).
Proof.
  intros Hn Hshape H. unfold LessThan in H.
  apply holds_cons in H as [Hin H]. apply holds_app in H as [Hbits Hout].
  apply holds_cons in Hout as [Hout _].
  unfold LessThan_shape in Hshape.
  apply Num2Bits_sound in Hbits; [|lia].
  destruct Hbits as (_ & _ & Hlt & Hnth).
  rewrite Hshape, Hin in Hlt. rewrite Hin in Hnth.
  split; [exact Hlt|].
  rewrite Hout, Hnth. apply one_minus_b2F.
Qed.

Lemma LessThan_calc_Some n a b : (n <= 252)%nat ->
  lt_diff n a b < 2 ^ Z.of_nat (S n) ->
  exists s, LessThan_calc n a b = Some s
    /\ LessThan_shape n s /\ holds (LessThan n a b s).
Proof.
  intros Hn Hlt. unfold lt_diff in Hlt.
  exists {| n2b_in := (a + pow2F n - b)%Zmod;
            n2b_out := Num2Bits_hint (S n) (a + pow2F n - b)%Zmod;
            lt_out := (Zmod.one
                       - nth n (Num2Bits_hint (S n) (a + pow2F n - b)%Zmod)
                           Zmod.zero)%Zmod |}.
  split; [|split].
  - unfold LessThan_calc. cbv zeta.
    rewrite (Num2Bits_calc_Some (S n) _ ltac:(lia) Hlt). reflexivity.
  - unfold LessThan_shape. cbn [n2b_out]. apply Num2Bits_hint_length.
  - unfold LessThan. cbn [n2b_in n2b_out lt_out].
    apply holds_cons. split; [reflexivity|].
    apply holds_app. split.
    + apply Num2Bits_hint_holds; [lia|exact Hlt].
    + apply holds_cons. split; [reflexivity|apply holds_nil; exact I].
Qed.

Lemma LessThan_calc_inv n a b s : (n <= 252)%nat ->
  LessThan_calc n a b = Some s ->
  lt_diff n a b < 2 ^ Z.of_nat (S n).
Proof.
  intros Hn. unfold LessThan_calc.
  destruct (Num2Bits_calc _ _) as [out|] eqn:E; [|discriminate].
  intros _. apply Num2Bits_calc_inv in E; [|lia]. tauto.
Qed.

(** Inside the declared width the comparator is a strict less-than. *)
Lemma LessThan_in_range n a b (s : LessThanSignals) : (n <= 252)%nat ->
  Zmod.to_Z a < 2 ^ Z.of_nat n -> Zmod.to_Z b < 2 ^ Z.of_nat n ->
  LessThan_shape n s -> holds (LessThan n a b s) ->
  lt_out s = b2F (Zmod.to_Z a <? Zmod.to_Z b).
Proof.
  intros Hn Ha Hb Hshape H.
  destruct (LessThan_sound n a b s Hn Hshape H) as [_ ->].
  rewrite lt_diff_in_range by assumption.
  pose proof (F_range a). pose proof (F_range b).
  assert (0 < 2 ^ Z.of_nat n) by (apply Z.pow_pos_nonneg; lia).
  rewrite testbit_top.
  - f_equal.
    destruct (Z.leb_spec (2 ^ Z.of_nat n) (Zmod.to_Z a + 2 ^ Z.of_nat n - Zmod.to_Z b));
      destruct (Z.ltb_spec (Zmod.to_Z a) (Zmod.to_Z b)); simpl; auto; lia.
  - lia.
  - rewrite Z.pow_add_r, Z.pow_1_r by lia. lia.
Qed.

End GadgetFacts.

(* ===================================================================== *)
(** * Part IV.  The constraint system and its witness calculator          *)
(* ===================================================================== *)

Module CircuitFacts.
Import Circomlib Circuit FieldFacts GadgetFacts.

Add Ring Fring' : (Zmod.ring_theory bn128_r).

Section CircuitFacts.

Variable Poseidon1 : F -> F.
Variable Poseidon2 : F -> F -> F.

Local Abbreviation sat := (satisfies Poseidon1 Poseidon2).
Local Abbreviation calc := (calcWitness Poseidon1 Poseidon2).
Local Abbreviation hard_checks := (hard_checks Poseidon1 Poseidon2).
Local Abbreviation accepted := (accepted Poseidon1 Poseidon2).

(** The constraint list, read as a conjunction of equations. *)
Lemma satisfies_iff (w : Signals) :
  sat w <->
  let i := inputs w in
  LessThan_shape 32 (freshCheck w)
  /\ credHasher_out w = Poseidon2 (doctorId i) (doctorSecret i)
  /\ credHasher_out w = doctorCredentialHash i
  /\ srcHasher_out w = Poseidon1 (sourceId i)
  /\ srcHasher_out w = trustedSourceHash i
  /\ holds (LessThan 32 (dataAge i) (deltaMax i) (freshCheck w))
  /\ freshOk w = lt_out (freshCheck w)
  /\ authOk w = (authorizedAction i - requiredAction i)%Zmod
  /\ authOk w = Zmod.zero
  /\ classDiff w = (allergyClassId i - medicationClassId i)%Zmod
  /\ isZero w = (Zmod.one - classDiff w * classDiffInv w)%Zmod
  /\ (classDiff w * isZero w)%Zmod = Zmod.zero
  /\ noContraindication w = (Zmod.one - isZero w)%Zmod
  /\ validCtx w = freshOk w
  /\ computedOutcome w = (validCtx w * noContraindication w)%Zmod
  /\ computedOutcome w = outcome (inputs w).
Proof.
  unfold satisfies, PrescriptionValidation. cbv zeta. cbn [app].
  remember (LessThan 32 _ _ _) as L eqn:HL.
  do 4 rewrite holds_cons. rewrite holds_app.
  do 10 rewrite holds_cons. rewrite holds_nil.
  cbn [fst snd]. tauto.
Qed.

Lemma b2F_mul a b : (b2F a * b2F b)%Zmod = b2F (a && b).
Proof.
  destruct a, b; simpl andb; rewrite ?b2F_true, ?b2F_false; ring.
Qed.

Lemma assert_eq_Some a b u : assert_eq a b = Some u <-> a = b.
Proof.
  unfold assert_eq. destruct (Zmod.eqb_spec a b) as [E|E].
  - destruct u. tauto.
  - split; [discriminate|tauto].
Qed.

Lemma assert_eq_refl a : assert_eq a a = Some tt.
Proof. apply assert_eq_Some. reflexivity. Qed.

(** The is-zero pattern, instantiated to the field of the circuit. *)
Lemma isZero_forced (d inv z : F) :
  z = (Zmod.one - d * inv)%Zmod -> (d * z)%Zmod = Zmod.zero ->
  z = b2F (Zmod.eqb d Zmod.zero).
Proof.
  intros Hz He. destruct (Zmod.eqb_spec d Zmod.zero) as [E|E].
  - rewrite b2F_true, Hz, E. ring.
  - rewrite b2F_false. destruct (F_integral _ _ He); tauto.
Qed.

Lemma hint_enforced (d : F) :
  (d * (Zmod.one - d * classDiffInv_hint d))%Zmod = Zmod.zero.
Proof.
  unfold classDiffInv_hint. destruct (Zmod.eqb_spec d Zmod.zero) as [E|E].
  - rewrite E. ring.
  - rewrite Zmod.mul_inv_same_r_prime
      by (auto; exact NumberTheoryFacts.bn128_r_prime).
    ring.
Qed.

Lemma eqb_sub_zero (a b : F) :
  Zmod.eqb (a - b)%Zmod Zmod.zero = Zmod.eqb a b.
Proof.
  destruct (Zmod.eqb_spec a b) as [E|E];
    destruct (Zmod.eqb_spec (a - b)%Zmod Zmod.zero) as [E'|E']; auto.
  - exfalso. apply E'. rewrite E. ring.
  - exfalso. apply E. apply Zmod.sub_eq_0. exact E'.
Qed.

(** Every signal of a satisfying witness that the outcome depends on is
    a function of the inputs. *)
Lemma satisfies_forced (w : Signals) : sat w ->
  let i := inputs w in
  hard_checks i
  /\ comparator_accepts i
  /\ freshOk w = b2F (freshBit i)
  /\ isZero w = b2F (Zmod.eqb (allergyClassId i) (medicationClassId i))
  /\ noContraindication w = b2F (noContraBit i)
  /\ computedOutcome w = b2F (freshBit i && noContraBit i)
  /\ outcome i = b2F (freshBit i && noContraBit i).
Proof.
  intros H. apply satisfies_iff in H. cbv zeta in *.
  destruct H as (Hshape & Hc1 & Hc2 & Hs1 & Hs2 & Hlt & Hf & Ha1 & Ha2
                 & Hd & Hz & He & Hn & Hv & Hco & Hout).
  destruct (LessThan_sound 32 _ _ _ ltac:(lia) Hshape Hlt) as [Hacc Hbit].
  assert (HisZ : isZero w
                 = b2F (Zmod.eqb (allergyClassId (inputs w))
                                 (medicationClassId (inputs w)))).
  { rewrite <- eqb_sub_zero, <- Hd. eapply isZero_forced; eassumption. }
  assert (HnC : noContraindication w = b2F (noContraBit (inputs w))).
  { rewrite Hn, HisZ. apply one_minus_b2F. }
  assert (Hfresh : freshOk w = b2F (freshBit (inputs w))).
  { rewrite Hf, Hbit. reflexivity. }
  assert (Hcomp : computedOutcome w
                  = b2F (freshBit (inputs w) && noContraBit (inputs w))).
  { rewrite Hco, Hv, Hfresh, HnC. apply b2F_mul. }
  repeat split; auto.
  - congruence.
  - congruence.
  - apply Zmod.sub_eq_0. congruence.
  - congruence.
Qed.

Lemma LessThan_calc_holds n a b s : (n <= 252)%nat ->
  LessThan_calc n a b = Some s ->
  LessThan_shape n s /\ holds (LessThan n a b s).
Proof.
  intros Hn Hs. pose proof (LessThan_calc_inv n a b s Hn Hs) as Hr.
  destruct (LessThan_calc_Some n a b Hn Hr) as (s' & Hs' & H).
  rewrite Hs in Hs'. injection Hs' as ->. exact H.
Qed.

(** The witness calculator only returns satisfying witnesses. *)
Lemma calcWitness_sound (i : Inputs) (w : Signals) :
  calc i = Some w -> inputs w = i /\ sat w.
Proof.
  unfold calcWitness. cbv zeta. intros H.
  apply bind_Some in H as (u1 & H1 & H). apply assert_eq_Some in H1.
  apply bind_Some in H as (u2 & H2 & H). apply assert_eq_Some in H2.
  apply bind_Some in H as (lt & H3 & H).
  apply bind_Some in H as (u4 & H4 & H). apply assert_eq_Some in H4.
  apply bind_Some in H as (u5 & H5 & H). apply assert_eq_Some in H5.
  apply bind_Some in H as (u6 & H6 & H). apply assert_eq_Some in H6.
  injection H as <-. split; [reflexivity|].
  apply LessThan_calc_holds in H3 as [Hshape Hlt]; [|lia].
  apply satisfies_iff. cbv zeta.
  cbn [inputs credHasher_out srcHasher_out freshCheck freshOk authOk
       classDiff classDiffInv isZero noContraindication validCtx
       computedOutcome].
  repeat split; auto.
Qed.

Lemma bind_assert_refl {A} (a : F) (k : unit -> option A) :
  (assert_eq a a ≫= k) = k tt.
Proof. rewrite assert_eq_refl. reflexivity. Qed.

Lemma bind_assert_eq {A} (a b : F) (k : unit -> option A) :
  a = b -> (assert_eq a b ≫= k) = k tt.
Proof. intros ->. apply bind_assert_refl. Qed.

Lemma bind_Some_eq {A B} (m : option A) (x : A) (k : A -> option B) :
  m = Some x -> (m ≫= k) = k x.
Proof. intros ->. reflexivity. Qed.

(** ... and it finds one whenever the inputs are accepted. *)
Lemma calcWitness_complete (i : Inputs) :
  accepted i -> exists w, calc i = Some w.
Proof.
  intros ((Hc & Hs & Ha) & Hacc & Hout).
  destruct (LessThan_calc_Some 32 (dataAge i) (deltaMax i) ltac:(lia) Hacc)
    as (s & Hcalc & Hshape & Hlt).
  destruct (LessThan_sound 32 _ _ _ ltac:(lia) Hshape Hlt) as [_ Hbit].
  assert (Hauth : (authorizedAction i - requiredAction i)%Zmod = Zmod.zero)
    by (rewrite Ha; ring).
  assert (Hfinal : (lt_out s * (Zmod.one - (Zmod.one -
             (allergyClassId i - medicationClassId i) *
             classDiffInv_hint (allergyClassId i - medicationClassId i))))%Zmod
           = outcome i).
  { rewrite Hout, Hbit.
    rewrite (isZero_forced _ _ _ eq_refl (hint_enforced _)).
    rewrite eqb_sub_zero, one_minus_b2F. apply b2F_mul. }
  unfold calcWitness. cbv zeta.
  rewrite (bind_assert_eq _ _ _ Hc).
  rewrite (bind_assert_eq _ _ _ Hs).
  rewrite (bind_Some_eq _ _ _ Hcalc).
  rewrite (bind_assert_eq _ _ _ Hauth).
  rewrite (bind_assert_eq _ _ _ (hint_enforced _)).
  rewrite (bind_assert_eq _ _ _ Hfinal).
  eexists. reflexivity.
Qed.

(** The three readings of "the inputs can be proved" coincide. *)
Theorem accepted_iff_satisfiable (i : Inputs) :
  accepted i <-> exists w, inputs w = i /\ sat w.
Proof.
  split.
  - intros H. destruct (calcWitness_complete i H) as [w Hw].
    exists w. apply calcWitness_sound. exact Hw.
  - intros (w & <- & Hw). pose proof (satisfies_forced w Hw) as Hf.
    cbv zeta in Hf. unfold accepted. tauto.
Qed.

Theorem accepted_iff_calcWitness (i : Inputs) :
  accepted i <-> exists w, calc i = Some w.
Proof.
  split; [apply calcWitness_complete|].
  intros [w Hw]. apply accepted_iff_satisfiable.
  exists w. apply calcWitness_sound. exact Hw.
Qed.

(** Operands inside the declared width are always accepted by the
    comparator, and its bit is then the strict comparison. *)
Lemma fits32_accepts (i : Inputs) :
  Zmod.to_Z (dataAge i) < 2 ^ 32 -> Zmod.to_Z (deltaMax i) < 2 ^ 32 ->
  comparator_accepts i
  /\ freshBit i = (Zmod.to_Z (dataAge i) <? Zmod.to_Z (deltaMax i)).
Proof.
  intros Ha Hb. unfold comparator_accepts, freshBit.
  rewrite (lt_diff_in_range 32) by (auto; lia).
  pose proof (F_range (dataAge i)). pose proof (F_range (deltaMax i)).
  change (Z.of_nat 32) with 32.
  split; [lia|].
  rewrite (testbit_top 32) by lia.
  destruct (Z.leb_spec (2 ^ 32)
              (Zmod.to_Z (dataAge i) + 2 ^ 32 - Zmod.to_Z (deltaMax i)));
    destruct (Z.ltb_spec (Zmod.to_Z (dataAge i)) (Zmod.to_Z (deltaMax i)));
    simpl; auto; lia.
Qed.

End CircuitFacts.
End CircuitFacts.

(* ===================================================================== *)
(** * Part V.  Properties of the constraint system                        *)
(* ===================================================================== *)

Module DemoFacts.
Import Circomlib Circuit FieldFacts GadgetFacts CircuitFacts.

Lemma satisfiesb_iff P1 P2 (w : Signals) :
  satisfiesb P1 P2 w = true <-> satisfies P1 P2 w.
Proof.
  unfold satisfiesb, satisfies, LessThan_shape.
  rewrite andb_true_iff, Nat.eqb_eq, holdsb_holds. reflexivity.
Qed.

(** The transparent proof system is complete. *)
Lemma demo_complete :
  Pipeline.complete Demo.hash1 Demo.hash2 Signals unit Demo.prove Demo.verify tt.
Proof.
  intros w Hw. unfold Demo.verify, Demo.prove.
  apply andb_true_iff. split.
  - apply satisfiesb_iff. exact Hw.
  - apply bool_decide_eq_true. reflexivity.
Qed.

Lemma fe_neq a b : Zmod.to_Z a <> Zmod.to_Z b -> a <> b :> F.
Proof. intros H E. apply H. rewrite E. reflexivity. Qed.

Lemma fe_eq a b : Zmod.to_Z a = Zmod.to_Z b -> a = b :> F.
Proof. apply Zmod.unsigned_inj. Qed.

Lemma demo_baseline_hard : hard_checks Demo.hash1 Demo.hash2 Demo.baseline.
Proof. repeat split. Qed.

Lemma demo_baseline_accepted : accepted Demo.hash1 Demo.hash2 Demo.baseline.
Proof.
  split; [exact demo_baseline_hard|]. split.
  - unfold comparator_accepts. vm_compute. reflexivity.
  - apply fe_eq. vm_compute. reflexivity.
Qed.

Lemma demo_honest_reject_accepted :
  accepted Demo.hash1 Demo.hash2 Demo.honest_reject.
Proof.
  split; [repeat split|]. split.
  - unfold comparator_accepts. vm_compute. reflexivity.
  - apply fe_eq. vm_compute. reflexivity.
Qed.

Lemma demo_wrapped_accepted : accepted Demo.hash1 Demo.hash2 Demo.wrapped_age.
Proof.
  split; [repeat split|]. split.
  - unfold comparator_accepts. vm_compute. reflexivity.
  - apply fe_eq. vm_compute. reflexivity.
Qed.

Lemma demo_reject_beyond_rejected :
  ~ comparator_accepts Demo.reject_beyond_width.
Proof. unfold comparator_accepts. vm_compute. discriminate. Qed.

Lemma demo_stale_beyond_rejected :
  ~ comparator_accepts Demo.stale_beyond_width.
Proof. unfold comparator_accepts. vm_compute. discriminate. Qed.

End DemoFacts.

Module CircuitClaims.
Import Circomlib Circuit FieldFacts GadgetFacts CircuitFacts DemoFacts.

Section Soundness.

Variable Poseidon1 : F -> F.
Variable Poseidon2 : F -> F -> F.

Local Abbreviation sat := (satisfies Poseidon1 Poseidon2).
Local Abbreviation calc := (calcWitness Poseidon1 Poseidon2).

Lemma calc_None_iff (i : Inputs) :
  calc i = None <-> ~ accepted Poseidon1 Poseidon2 i.
Proof.
  rewrite accepted_iff_calcWitness. split.
  - intros H [w Hw]. congruence.
  - intros H. destruct (calc i) as [w|] eqn:E; [|reflexivity].
    exfalso. apply H. exists w. reflexivity.
Qed.

Lemma unsat_iff (i : Inputs) :
  (forall w, inputs w = i -> ~ sat w) <-> ~ accepted Poseidon1 Poseidon2 i.
Proof.
  rewrite accepted_iff_satisfiable. split.
  - intros H (w & Hi & Hw). exact (H w Hi Hw).
  - intros H w Hi Hw. apply H. exists w. split; assumption.
Qed.

(** C2 (hard-check soundness).  If the credential commitment, the source
    commitment or the action does not match, then, whatever outcome is
    declared, no assignment extending the inputs satisfies the
    constraint system, and the witness calculator fails. *)
Theorem hard_check_soundness (i : Inputs) :
  Poseidon2 (doctorId i) (doctorSecret i) <> doctorCredentialHash i
  \/ Poseidon1 (sourceId i) <> trustedSourceHash i
  \/ authorizedAction i <> requiredAction i ->
  forall o : F,
    (forall w, inputs w = with_outcome o i -> ~ sat w)
    /\ calc (with_outcome o i) = None.
Proof.
  intros Hbad o.
  assert (Hna : ~ accepted Poseidon1 Poseidon2 (with_outcome o i)).
  { intros ((Hc & Hs & Ha) & _). cbn [with_outcome doctorId doctorSecret
      doctorCredentialHash sourceId trustedSourceHash authorizedAction
      requiredAction] in *. tauto. }
  split; [apply unsat_iff|apply calc_None_iff]; exact Hna.
Qed.

(** C5 (freshness boundary).  For [dataAge] and [deltaMax] that fit in
    32 bits, check 3 yields [freshOk], and yields the strict comparison:
    1 exactly when [dataAge < deltaMax] and 0 otherwise, so 1 at
    [deltaMax - 1] and 0 at [deltaMax] and above.  The comparator
    component computes this value; the witness calculator assigns it to
    [freshOk] whenever the other checks let it finish; and no satisfying
    assignment carries another value. *)
Theorem freshness_boundary (i : Inputs) :
  Zmod.to_Z (dataAge i) < 2 ^ 32 ->
  Zmod.to_Z (deltaMax i) < 2 ^ 32 ->
  let age := Zmod.to_Z (dataAge i) in
  let bound := Zmod.to_Z (deltaMax i) in
  let fresh := b2F (age <? bound) in
  ((fresh = Zmod.one <-> age < bound)
   /\ (fresh = Zmod.zero <-> bound <= age)
   /\ (age = bound - 1 -> fresh = Zmod.one)
   /\ (age = bound -> fresh = Zmod.zero)
   /\ (age > bound -> fresh = Zmod.zero))
  /\ (exists s, LessThan_calc 32 (dataAge i) (deltaMax i) = Some s
                /\ lt_out s = fresh)
  /\ (hard_checks Poseidon1 Poseidon2 i ->
      outcome i = b2F ((age <? bound) && noContraBit i) ->
      exists w, calc i = Some w /\ freshOk w = fresh)
  /\ (forall w, inputs w = i -> sat w -> freshOk w = fresh).
Proof.
  intros Ha Hb age bound fresh.
  destruct (fits32_accepts i Ha Hb) as [Hacc Hbit].
  fold age bound in Hbit.
  split; [|split; [|split]].
  - subst fresh.
    destruct (Z.ltb_spec age bound) as [Hlt|Hge];
      rewrite ?b2F_true, ?b2F_false;
      pose proof F_one_neq_zero as Hne;
      repeat split; intros; try reflexivity; try lia; try congruence.
  - destruct (LessThan_calc_Some 32 (dataAge i) (deltaMax i))
      as (s & Hs & Hshape & Hholds); [lia | exact Hacc |].
    exists s. split; [exact Hs|].
    apply (LessThan_in_range 32 (dataAge i) (deltaMax i) s);
      [lia | exact Ha | exact Hb | exact Hshape | exact Hholds].
  - intros Hh Ho.
    assert (Hok : accepted Poseidon1 Poseidon2 i).
    { split; [exact Hh|]. split; [exact Hacc|].
      rewrite Hbit. exact Ho. }
    destruct (calcWitness_complete _ _ i Hok) as [w Hw].
    destruct (calcWitness_sound _ _ i w Hw) as [Hi Hs].
    destruct (satisfies_forced _ _ w Hs) as (_ & _ & Hf & _).
    cbv zeta in Hf. rewrite Hi, Hbit in Hf.
    exists w. split; [exact Hw|exact Hf].
  - intros w Hi Hs.
    destruct (satisfies_forced _ _ w Hs) as (_ & _ & Hf & _).
    cbv zeta in Hf. rewrite Hi, Hbit in Hf. exact Hf.
Qed.

(** C3, as amended.  The comparator range-checks the 33-bit difference
    [dataAge + 2^32 - deltaMax], not its operands: in every satisfying
    assignment that difference (reduced modulo the field order) is below
    [2^33], [freshOk] is the complement of its bit 32, and [freshOk] is
    the less-than result whenever both operands are below [2^32]. *)
Theorem comparator_checks_difference (w : Signals) :
  sat w ->
  let age := dataAge (inputs w) in
  let bound := deltaMax (inputs w) in
  lt_diff 32 age bound
    = (Zmod.to_Z age + 2 ^ 32 - Zmod.to_Z bound) mod bn128_r
  /\ lt_diff 32 age bound < 2 ^ 33
  /\ freshOk w = b2F (negb (Z.testbit (lt_diff 32 age bound) 32))
  /\ (Zmod.to_Z age < 2 ^ 32 -> Zmod.to_Z bound < 2 ^ 32 ->
      freshOk w = b2F (Zmod.to_Z age <? Zmod.to_Z bound)).
Proof.
  intros Hw age bound.
  destruct (satisfies_forced _ _ w Hw) as (_ & Hacc & Hf & _).
  split; [apply (lt_diff_mod 32); lia|].
  split; [exact Hacc|]. split; [exact Hf|].
  intros Ha Hb. rewrite Hf. subst age bound.
  destruct (fits32_accepts (inputs w) Ha Hb) as [_ Hbit].
  rewrite Hbit. reflexivity.
Qed.

End Soundness.

(** C2 at the forged secret of scenario S2, for the declared outcome 1. *)
Lemma hard_check_soundness_witness :
  (Demo.hash2 (doctorId Demo.forged_secret) (doctorSecret Demo.forged_secret)
     <> doctorCredentialHash Demo.forged_secret
   \/ Demo.hash1 (sourceId Demo.forged_secret)
        <> trustedSourceHash Demo.forged_secret
   \/ authorizedAction Demo.forged_secret <> requiredAction Demo.forged_secret)
  /\ ((forall w, inputs w = with_outcome (Demo.fe 1) Demo.forged_secret ->
         ~ satisfies Demo.hash1 Demo.hash2 w)
      /\ calcWitness Demo.hash1 Demo.hash2
           (with_outcome (Demo.fe 1) Demo.forged_secret) = None).
Proof.
  assert (H : Demo.hash2 (doctorId Demo.forged_secret)
                (doctorSecret Demo.forged_secret)
              <> doctorCredentialHash Demo.forged_secret)
    by (apply fe_neq; vm_compute; discriminate).
  split; [left; exact H|].
  exact (hard_check_soundness Demo.hash1 Demo.hash2 Demo.forged_secret
           (or_introl H) (Demo.fe 1)).
Defined.

(** C5 around the bound [deltaMax = 90] of the baseline: the calculator
    assigns [freshOk = 1] at [dataAge = 89], and [freshOk = 0] at
    [dataAge = 90] and at [dataAge = 100]. *)
Lemma freshness_boundary_witness :
  (exists w, calcWitness Demo.hash1 Demo.hash2 Demo.one_below_bound = Some w
             /\ freshOk w = Zmod.one)
  /\ (exists w, calcWitness Demo.hash1 Demo.hash2 Demo.at_bound = Some w
                /\ freshOk w = Zmod.zero)
  /\ (exists w, calcWitness Demo.hash1 Demo.hash2 Demo.above_bound = Some w
                /\ freshOk w = Zmod.zero).
Proof.
  assert (Hat : forall i v,
    Zmod.to_Z (dataAge i) < 2 ^ 32 ->
    Zmod.to_Z (deltaMax i) < 2 ^ 32 ->
    hard_checks Demo.hash1 Demo.hash2 i ->
    outcome i
      = b2F ((Zmod.to_Z (dataAge i) <? Zmod.to_Z (deltaMax i))
             && noContraBit i) ->
    b2F (Zmod.to_Z (dataAge i) <? Zmod.to_Z (deltaMax i)) = v ->
    exists w, calcWitness Demo.hash1 Demo.hash2 i = Some w /\ freshOk w = v).
  { intros i v Ha Hb Hh Ho Hv.
    destruct (freshness_boundary Demo.hash1 Demo.hash2 i Ha Hb)
      as (_ & _ & Hcalc & _).
    destruct (Hcalc Hh Ho) as (w & Hw & Hf).
    exists w. split; [exact Hw|]. rewrite Hf. exact Hv. }
  split; [|split]; apply Hat;
    try (vm_compute; reflexivity); try (repeat split);
    try (apply fe_eq; vm_compute; reflexivity).
Defined.

(** C3, the claim as stated fails: with [dataAge = -1] (the field element
    [bn128_r - 1]) and [deltaMax = 90] the baseline is satisfiable; the
    operand is far outside 32 bits and [freshOk] is 1 although [dataAge]
    is not below [deltaMax]. *)
Lemma comparator_operand_counterexample :
  exists w,
    satisfies Demo.hash1 Demo.hash2 w
    /\ inputs w = Demo.wrapped_age
    /\ ~ Zmod.to_Z (dataAge (inputs w)) < 2 ^ 32
    /\ freshOk w = Zmod.one
    /\ ~ Zmod.to_Z (dataAge (inputs w)) < Zmod.to_Z (deltaMax (inputs w)).
Proof.
  destruct (calcWitness_complete _ _ _ demo_wrapped_accepted) as [w Hw].
  destruct (calcWitness_sound _ _ _ _ Hw) as [Hi Hs].
  destruct (satisfies_forced _ _ w Hs) as (_ & _ & Hf & _).
  exists w. split; [exact Hs|]. split; [exact Hi|].
  rewrite Hi in *. split; [vm_compute; discriminate|].
  split; [|vm_compute; discriminate].
  rewrite Hf. apply fe_eq. vm_compute. reflexivity.
Qed.

(** The same failure does not depend on the hash functions. *)
Lemma comparator_operand_unchecked (P1 : F -> F) (P2 : F -> F -> F) :
  exists w,
    satisfies P1 P2 w
    /\ Zmod.to_Z (dataAge (inputs w)) = bn128_r - 1
    /\ Zmod.to_Z (deltaMax (inputs w)) = 90
    /\ freshOk w = Zmod.one.
Proof.
  set (i := {| doctorId := Demo.fe 123; doctorSecret := Demo.fe 456;
               authorizedAction := Demo.fe 1; sourceId := Demo.fe 1;
               dataAge := Demo.fe (-1); allergyClassId := Demo.fe 2;
               medicationClassId := Demo.fe 5;
               doctorCredentialHash := P2 (Demo.fe 123) (Demo.fe 456);
               trustedSourceHash := P1 (Demo.fe 1);
               requiredAction := Demo.fe 1; deltaMax := Demo.fe 90;
               outcome := Demo.fe 1 |}).
  assert (Hacc : accepted P1 P2 i).
  { split; [repeat split|]. split.
    - unfold comparator_accepts. vm_compute. reflexivity.
    - apply fe_eq. vm_compute. reflexivity. }
  destruct (calcWitness_complete _ _ _ Hacc) as [w Hw].
  destruct (calcWitness_sound _ _ _ _ Hw) as [Hi Hs].
  destruct (satisfies_forced _ _ w Hs) as (_ & _ & Hf & _).
  exists w. split; [exact Hs|]. rewrite Hi in *.
  split; [reflexivity|]. split; [reflexivity|].
  rewrite Hf. apply fe_eq. vm_compute. reflexivity.
Qed.

(** C3 as amended, at the baseline. *)
Lemma comparator_checks_difference_witness :
  exists w,
    satisfies Demo.hash1 Demo.hash2 w
    /\ lt_diff 32 (dataAge (inputs w)) (deltaMax (inputs w)) < 2 ^ 33
    /\ freshOk w
        = b2F (negb (Z.testbit
                       (lt_diff 32 (dataAge (inputs w)) (deltaMax (inputs w)))
                       32)).
Proof.
  destruct (calcWitness_complete _ _ _ demo_baseline_accepted) as [w Hw].
  destruct (calcWitness_sound _ _ _ _ Hw) as [Hi Hs].
  exists w. split; [exact Hs|].
  pose proof (comparator_checks_difference Demo.hash1 Demo.hash2 w Hs) as H.
  cbv zeta in H. tauto.
Defined.

Section Completeness.

Variable Poseidon1 : F -> F.
Variable Poseidon2 : F -> F -> F.
Variable Proof : Type.
Variable VKey : Type.
Variable prove : Signals -> Proof.
Variable verify : VKey -> list Z -> Proof -> bool.
Variable vKey : VKey.

Hypothesis proof_system_complete :
  Pipeline.complete Poseidon1 Poseidon2 Proof VKey prove verify vKey.

Local Abbreviation sat := (satisfies Poseidon1 Poseidon2).
Local Abbreviation calc := (calcWitness Poseidon1 Poseidon2).
Local Abbreviation hard := (hard_checks Poseidon1 Poseidon2).
Local Abbreviation ok := (accepted Poseidon1 Poseidon2).
Local Abbreviation run :=
  (Pipeline.prove_and_verify Poseidon1 Poseidon2 Proof VKey prove verify vKey).

Lemma run_accepted (i : Inputs) : ok i -> run i = Some true.
Proof.
  intros H. destruct (calcWitness_complete _ _ i H) as [w Hw].
  unfold Pipeline.prove_and_verify. rewrite Hw. cbn [mbind option_bind].
  rewrite proof_system_complete; [reflexivity|].
  apply (calcWitness_sound _ _ i w Hw).
Qed.

Lemma run_rejected (i : Inputs) : ~ ok i -> run i = None.
Proof.
  intros H. apply calc_None_iff in H.
  unfold Pipeline.prove_and_verify. rewrite H. reflexivity.
Qed.

(** C1, as amended.  Let the credential, source and action checks hold,
    let [allergyClassId = medicationClassId], and let the comparator's
    range check on [dataAge + 2^32 - deltaMax] pass (as it does whenever
    both operands fit in 32 bits).  Then a satisfying witness exists
    exactly when the declared outcome is 0; every satisfying witness has
    [noContraindication = 0] and [computedOutcome = 0]; with outcome 1
    there is no witness and construction fails; with outcome 0
    construction succeeds and the proof verifies. *)
Theorem outcome_integrity (i : Inputs) :
  hard i ->
  allergyClassId i = medicationClassId i ->
  comparator_accepts i ->
  ((exists w, inputs w = i /\ sat w) <-> outcome i = Zmod.zero)
  /\ (forall w, inputs w = i -> sat w ->
        noContraindication w = Zmod.zero /\ computedOutcome w = Zmod.zero)
  /\ (outcome i = Zmod.one ->
        (forall w, inputs w = i -> ~ sat w) /\ run i = None)
  /\ (outcome i = Zmod.zero -> run i = Some true).
Proof.
  intros Hh Heq Hacc.
  assert (Hnc : noContraBit i = false).
  { unfold noContraBit. rewrite Heq, Zmod.eqb_refl. reflexivity. }
  assert (Hiff : ok i <-> outcome i = Zmod.zero).
  { unfold accepted. rewrite Hnc, andb_false_r, b2F_false. tauto. }
  split; [rewrite <- accepted_iff_satisfiable; exact Hiff|].
  split.
  { intros w <- Hw. destruct (satisfies_forced _ _ w Hw)
      as (_ & _ & _ & _ & Hn & Hc & _).
    rewrite Hnc in Hn, Hc. rewrite andb_false_r in Hc.
    rewrite b2F_false in Hn, Hc. split; assumption. }
  split.
  - intros H1.
    assert (Hno : ~ ok i).
    { rewrite Hiff, H1. exact F_one_neq_zero. }
    split; [apply unsat_iff; exact Hno | apply run_rejected; exact Hno].
  - intros H0. apply run_accepted, Hiff, H0.
Qed.

Local Abbreviation baseline_inputs :=
  (Pipeline.baseline_inputs Poseidon1 Poseidon2).

Lemma baseline_accepted : ok baseline_inputs.
Proof.
  split; [|split].
  - unfold hard_checks, Pipeline.baseline_inputs, Pipeline.to_signals,
      Prove.baseline.
    cbn [doctorId doctorSecret doctorCredentialHash sourceId
         trustedSourceHash authorizedAction requiredAction
         Prove.doctorId Prove.doctorSecret Prove.doctorCredentialHash
         Prove.sourceId Prove.trustedSourceHash Prove.authorizedAction
         Prove.requiredAction].
    rewrite !Zmod.of_Z_unsigned. repeat split.
  - unfold comparator_accepts. vm_compute. reflexivity.
  - apply fe_eq. vm_compute. reflexivity.
Qed.


End Completeness.

(** C1, the claim as stated fails: the honest reject of S5a with
    [dataAge = 2^33] passes the credential, source and action checks, has
    equal classes and declares outcome 0, yet no witness exists and
    construction fails. *)
Lemma outcome_integrity_counterexample :
  hard_checks Demo.hash1 Demo.hash2 Demo.reject_beyond_width
  /\ allergyClassId Demo.reject_beyond_width
     = medicationClassId Demo.reject_beyond_width
  /\ outcome Demo.reject_beyond_width = Zmod.zero
  /\ (forall w, inputs w = Demo.reject_beyond_width ->
        ~ satisfies Demo.hash1 Demo.hash2 w)
  /\ calcWitness Demo.hash1 Demo.hash2 Demo.reject_beyond_width = None.
Proof.
  assert (Hno : ~ accepted Demo.hash1 Demo.hash2 Demo.reject_beyond_width).
  { intros (_ & H & _). exact (demo_reject_beyond_rejected H). }
  split; [repeat split|]. split; [reflexivity|]. split; [reflexivity|].
  split; [apply unsat_iff|apply calc_None_iff]; exact Hno.
Qed.

(** C1 as amended, at the honest reject of S5a. *)
Lemma outcome_integrity_witness :
  hard_checks Demo.hash1 Demo.hash2 Demo.honest_reject
  /\ allergyClassId Demo.honest_reject = medicationClassId Demo.honest_reject
  /\ comparator_accepts Demo.honest_reject
  /\ Pipeline.prove_and_verify Demo.hash1 Demo.hash2 Signals unit Demo.prove
       Demo.verify tt Demo.honest_reject = Some true.
Proof.
  assert (Hh : hard_checks Demo.hash1 Demo.hash2 Demo.honest_reject)
    by (repeat split).
  assert (He : allergyClassId Demo.honest_reject
               = medicationClassId Demo.honest_reject) by reflexivity.
  assert (Ha : comparator_accepts Demo.honest_reject)
    by (unfold comparator_accepts; vm_compute; reflexivity).
  split; [exact Hh|]. split; [exact He|]. split; [exact Ha|].
  apply (outcome_integrity Demo.hash1 Demo.hash2 Signals unit Demo.prove
           Demo.verify tt demo_complete Demo.honest_reject Hh He Ha).
  reflexivity.
Defined.



End CircuitClaims.

Module IsZeroFacts.
Section IsZeroFacts.

Variable R : Type.
Variables (rO rI : R) (radd rmul rsub : R -> R -> R) (ropp : R -> R).

Hypothesis Rth : ring_theory rO rI radd rmul rsub ropp eq.
Hypothesis no_zero_divisors :
  forall a b : R, rmul a b = rO -> a = rO \/ b = rO.

Add Ring Rring : Rth.

Local Abbreviation isZero := (IsZero.isZero R rI rmul rsub).
Local Abbreviation enforced := (IsZero.enforced R rO rI rmul rsub).

(** C4 (is-zero gadget under an adversarial hint).  Over any commutative
    ring without zero divisors: when [classDiff = 0] the enforcement
    constraint holds for every hint; and whenever the enforcement
    constraint holds, [isZero] is 1 if [classDiff = 0] and 0 if
    [classDiff] is nonzero, whatever the hint. *)
Theorem is_zero_gadget (classDiff classDiffInv : R) :
  (classDiff = rO -> enforced classDiff classDiffInv)
  /\ (enforced classDiff classDiffInv ->
      (classDiff = rO -> isZero classDiff classDiffInv = rI)
      /\ (classDiff <> rO -> isZero classDiff classDiffInv = rO)).
Proof.
  unfold IsZero.enforced, IsZero.isZero. split.
  - intros ->. ring.
  - intros He. split.
    + intros ->. ring.
    + intros Hne. destruct (no_zero_divisors _ _ He); tauto.
Qed.

End IsZeroFacts.

(** C4 in the field of the circuit, at [classDiff = 2 - 5] with the honest
    hint [1 / classDiff]. *)
Lemma is_zero_gadget_witness :
  IsZero.enforced F Zmod.zero Zmod.one Zmod.mul Zmod.sub
    (Demo.fe (-3)) (Zmod.inv (Demo.fe (-3)))
  /\ (Demo.fe (-3) <> Zmod.zero ->
      IsZero.isZero F Zmod.one Zmod.mul Zmod.sub
        (Demo.fe (-3)) (Zmod.inv (Demo.fe (-3))) = Zmod.zero).
Proof.
  assert (He : IsZero.enforced F Zmod.zero Zmod.one Zmod.mul Zmod.sub
                 (Demo.fe (-3)) (Zmod.inv (Demo.fe (-3))))
    by (apply Zmod.unsigned_inj; vm_compute; reflexivity).
  split; [exact He|].
  exact (proj2 (proj2 (is_zero_gadget F Zmod.zero Zmod.one Zmod.add Zmod.mul
                         Zmod.sub Zmod.opp (Zmod.ring_theory bn128_r)
                         FieldFacts.F_integral
                         (Demo.fe (-3)) (Zmod.inv (Demo.fe (-3)))) He)).
Defined.

End IsZeroFacts.

(* ===================================================================== *)
(** * Part VI.  The scenario runner                                       *)
(* ===================================================================== *)

Module HarnessFacts.
Import Prove.

Section HarnessFacts.

Variable Proof : Type.
Variable VKeyRest : Type.
Variable fullProve : Input -> Exn + (Proof * list Z).
Variable verify : VKey VKeyRest -> list Z -> Proof -> bool.
Variable credHash : Z.
Variable srcHash : Z.
Variable vKey : VKey VKeyRest.

Local Abbreviation tryProve := (Prove.tryProve Proof fullProve).
Local Abbreviation expect_pass :=
  (Prove.expect_pass Proof VKeyRest fullProve verify vKey).
Local Abbreviation expect_fail := (Prove.expect_fail Proof fullProve).
Local Abbreviation S1 :=
  (Prove.S1 Proof VKeyRest fullProve verify credHash srcHash vKey).
Local Abbreviation S2 := (Prove.S2 Proof fullProve credHash srcHash).
Local Abbreviation S3 := (Prove.S3 Proof fullProve credHash srcHash).
Local Abbreviation S4 := (Prove.S4 Proof fullProve credHash srcHash).
Local Abbreviation S5a :=
  (Prove.S5a Proof VKeyRest fullProve verify credHash srcHash vKey).
Local Abbreviation S5b := (Prove.S5b Proof fullProve credHash srcHash).
Local Abbreviation S6 := (Prove.S6 Proof VKeyRest verify vKey).
Local Abbreviation S7 := (Prove.S7 Proof VKeyRest verify vKey).
Local Abbreviation S1_ok :=
  (Prove.S1_ok Proof VKeyRest fullProve verify credHash srcHash vKey).
Local Abbreviation scenarios :=
  (Prove.scenarios Proof VKeyRest fullProve verify credHash srcHash vKey).
Local Abbreviation main :=
  (Prove.main Proof VKeyRest fullProve verify credHash srcHash vKey).
Local Abbreviation after_S5b :=
  (Prove.after_S5b Proof VKeyRest fullProve verify credHash srcHash vKey).
Local Abbreviation Track := (Prove.Track Proof).

Lemma Track_step st st' ids skips line entry :
  console st' = console st ++ [line] ->
  report st' = report st ++ [entry] ->
  reports line entry ->
  passed st' = (if result entry then S (passed st) else passed st) ->
  Track st ids skips -> Track st' (ids ++ [id entry]) skips.
Proof.
  intros Hc Hr Hl Hp (H1 & H2 & H3 & H4).
  assert (Hres : is_result line = true /\ is_skip line = false)
    by (destruct line; simpl in Hl; try contradiction; auto).
  destruct Hres as [Hres Hsk].
  unfold Prove.Track. rewrite Hc, Hr, !List.filter_app, map_app.
  cbn [List.filter map]. rewrite Hres, Hsk, H3, H4, app_nil_r.
  repeat split.
  - apply Forall2_app; [exact H1|]. constructor; [exact Hl|constructor].
  - rewrite Hp, H2, length_app. destruct (result entry); simpl; lia.
Qed.

Lemma Track_skip st ids skips i :
  Track st ids skips -> Track (skip Proof i st) ids (skips ++ [Skip i]).
Proof.
  intros (H1 & H2 & H3 & H4). unfold Prove.Track, skip.
  cbn [console report passed].
  rewrite !List.filter_app. cbn [List.filter is_result is_skip].
  rewrite app_nil_r, H4. repeat split; assumption.
Qed.

Lemma classify_pass (a b : bool) : a && b = classify true true a b.
Proof. destruct a, b; reflexivity. Qed.

Lemma classify_fail (a : bool) : negb a = classify false false a false.
Proof. destruct a; reflexivity. Qed.

Lemma classify_probe (b : bool) : negb b = classify true false true b.
Proof. destruct b; reflexivity. Qed.

Lemma Track_expect_pass cache i n input st ids skips :
  Track st ids skips ->
  Track (expect_pass cache i n input st) (ids ++ [i]) skips.
Proof.
  intros H.
  eapply (Track_step st _ ids skips _
            {| id := i; name := n; expectProof := true;
               expectVerify := true; result := _ |});
    [reflexivity | reflexivity | | reflexivity | exact H].
  cbn [reports printResult id name result expectProof expectVerify].
  repeat split; try apply classify_pass.
Qed.

Lemma Track_expect_fail i n input st ids skips :
  Track st ids skips ->
  Track (expect_fail i n input st) (ids ++ [i]) skips.
Proof.
  intros H.
  eapply (Track_step st _ ids skips _
            {| id := i; name := n; expectProof := false;
               expectVerify := false; result := _ |});
    [reflexivity | reflexivity | | reflexivity | exact H].
  cbn [reports printResult id name result expectProof expectVerify].
  repeat split; try apply classify_fail.
Qed.

Lemma Track_probe i n verifyOk st ids skips :
  Track st ids skips ->
  Track (probe Proof i n verifyOk st) (ids ++ [i]) skips.
Proof.
  intros H.
  eapply (Track_step st _ ids skips _
            {| id := i; name := n; expectProof := true;
               expectVerify := false; result := _ |});
    [reflexivity | reflexivity | | reflexivity | exact H].
  cbn [reports printResult id name result expectProof expectVerify].
  repeat split; try apply classify_probe.
Qed.

Lemma Track_init : Track (init Proof) [] [].
Proof. repeat split; constructor. Qed.

Lemma Track_after_S5b : Track after_S5b first_six [].
Proof.
  unfold Prove.after_S5b.
  apply (Track_expect_fail _ _ _ _ ["S1"; "S2"; "S3"; "S4"; "S5a"]%string).
  apply (Track_expect_pass _ _ _ _ _ ["S1"; "S2"; "S3"; "S4"]%string).
  apply (Track_expect_fail _ _ _ _ ["S1"; "S2"; "S3"]%string).
  apply (Track_expect_fail _ _ _ _ ["S1"; "S2"]%string).
  apply (Track_expect_fail _ _ _ _ ["S1"]%string).
  apply (Track_expect_pass _ _ _ _ _ []).
  apply Track_init.
Qed.

(** Only S1 writes the cache, and only when it passed. *)
Lemma proofCache_after_S5b :
  proofCache after_S5b
  = if S1_ok then {[ "S1"%string := tryProve (baseline credHash srcHash) ]}
    else ∅.
Proof.
  unfold Prove.after_S5b, Prove.S5b, Prove.S5a, Prove.S4, Prove.S3, Prove.S2,
    Prove.expect_fail, Prove.expect_pass.
  cbn [proofCache]. rewrite andb_false_r.
  unfold Prove.S1, Prove.expect_pass, Prove.S1_ok. cbn [proofCache init].
  rewrite andb_true_r.
  destruct (Prove.tryProve Proof fullProve (baseline credHash srcHash))
    as [pf ps|e]; cbn [ok andb]; [|reflexivity].
  destruct (verify vKey ps pf); reflexivity.
Qed.

Lemma S1_ok_Proved :
  S1_ok = true ->
  exists pf ps, tryProve (baseline credHash srcHash) = Proved pf ps.
Proof.
  unfold Prove.S1_ok.
  destruct (Prove.tryProve Proof fullProve (baseline credHash srcHash))
    as [pf ps|e]; [eauto|discriminate].
Qed.

Lemma report_expect_fail i n input st :
  report (expect_fail i n input st)
  = report st ++
      [{| id := i; name := n; expectProof := false; expectVerify := false;
          result := negb (ok (tryProve input)) |}].
Proof. reflexivity. Qed.

Lemma report_expect_pass cache i n input st :
  report (expect_pass cache i n input st)
  = report st ++
      [{| id := i; name := n; expectProof := true; expectVerify := true;
          result :=
            ok (tryProve input)
            && match tryProve input with
               | Proved proof publicSignals => verify vKey publicSignals proof
               | Failed _ => false
               end |}].
Proof. reflexivity. Qed.

Lemma scenarios_unfold :
  scenarios
  = match S6 after_S5b with
    | Continue st => S7 st
    | Threw st => Threw st
    end.
Proof. reflexivity. Qed.

End HarnessFacts.

(** C9, the claim as stated fails: in a run where no proof is produced
    (here: the wasm file is missing) the saved report has six entries;
    S6 and S7 were named on the console as skipped but have no entry. *)
Lemma report_completeness_counterexample :
  option_map (map id) (test_results Demo.run_without_artifacts)
    = Some ["S1"; "S2"; "S3"; "S4"; "S5a"; "S5b"]%string
  /\ List.filter is_skip (run_console Demo.run_without_artifacts)
     = [Skip "S6"; Skip "S7"].
Proof. split; vm_compute; reflexivity. Qed.

End HarnessFacts.

(* ===================================================================== *)
(** * Part VI, continued.  Runs in which every thrown value is readable   *)
(* ===================================================================== *)

Module ReadableFacts.
Import Prove.

Section ReadableFacts.

Variable Proof : Type.
Variable VKeyRest : Type.
Variable verify : VKey VKeyRest -> list Z -> Proof -> bool.
Variable credHash : Z.
Variable srcHash : Z.
Variable vKey : VKey VKeyRest.

Lemma tryProve_readable (f : Input -> Exn + (Proof * list Z)) input :
  Thrown.tryProve Proof (Thrown.readable f) input
  = Some (Prove.tryProve Proof f input).
Proof.
  unfold Thrown.tryProve, Thrown.readable, Prove.tryProve.
  destruct (f input) as [e|[pf ps]]; reflexivity.
Qed.

Lemma expect_pass_readable (f : Input -> Exn + (Proof * list Z))
    cache i n input st :
  Thrown.expect_pass Proof VKeyRest (Thrown.readable f) verify vKey cache
    i n input st
  = Continue (Prove.expect_pass Proof VKeyRest f verify vKey cache i n
                input st).
Proof.
  unfold Thrown.expect_pass. rewrite tryProve_readable. reflexivity.
Qed.

Lemma expect_fail_readable (f : Input -> Exn + (Proof * list Z))
    i n input st :
  Thrown.expect_fail Proof (Thrown.readable f) i n input st
  = Continue (Prove.expect_fail Proof f i n input st).
Proof.
  unfold Thrown.expect_fail. rewrite tryProve_readable. reflexivity.
Qed.

(** Where nothing unreadable is thrown, the general runner is the
    runner of section [Harness]. *)
Lemma main_readable (f : Input -> Exn + (Proof * list Z)) :
  Thrown.main Proof VKeyRest (Thrown.readable f) verify credHash srcHash
    vKey
  = Prove.main Proof VKeyRest f verify credHash srcHash vKey.
Proof.
  unfold Thrown.main, Prove.main. f_equal.
  unfold Thrown.scenarios, Thrown.S1, Thrown.S2, Thrown.S3, Thrown.S4,
    Thrown.S5a, Thrown.S5b.
  rewrite expect_pass_readable. cbn [Thrown.andThen].
  rewrite expect_fail_readable. cbn [Thrown.andThen].
  rewrite expect_fail_readable. cbn [Thrown.andThen].
  rewrite expect_fail_readable. cbn [Thrown.andThen].
  rewrite expect_pass_readable. cbn [Thrown.andThen].
  rewrite expect_fail_readable. cbn [Thrown.andThen].
  reflexivity.
Qed.

End ReadableFacts.
End ReadableFacts.

(* ===================================================================== *)
(** * Part VII.  The compile step of the ceremony                         *)
(* ===================================================================== *)

Module CeremonyFacts.
Import Ceremony.

Lemma events_log_all msgs : forall st, events (log_all msgs st) = events st.
Proof.
  unfold log_all. induction msgs as [|m ms IH]; intros st; simpl.
  - reflexivity.
  - rewrite IH. reflexivity.
Qed.

Lemma lines_log_all msgs : forall st,
  lines (log_all msgs st) = lines st ++ msgs.
Proof.
  unfold log_all. induction msgs as [|m ms IH]; intros st; simpl.
  - rewrite app_nil_r. reflexivity.
  - rewrite IH. simpl. rewrite <- app_assoc. reflexivity.
Qed.

Lemma summary_extends w st :
  events (summary w st) = events st
  /\ exists ls, lines (summary w st) = lines st ++ ls.
Proof.
  unfold summary, section. cbv zeta. split.
  - cbn [events log]. rewrite events_log_all. reflexivity.
  - cbn [lines log]. rewrite lines_log_all. cbn [lines log].
    rewrite <- !app_assoc. eexists. reflexivity.
Qed.

(** A run only ever appends to the trace and to the log. *)
Lemma run_later_extends w cs : forall st,
  (exists es, events (run_later w cs st) = events st ++ es)
  /\ (exists ls, lines (run_later w cs st) = lines st ++ ls).
Proof.
  induction cs as [|c cs IH]; intros st; cbn [run_later]; cbv zeta.
  - destruct (summary_extends w st) as [He [ls Hl]].
    unfold save, emit. cbn [events lines]. rewrite He, Hl. split.
    + eexists. reflexivity.
    + exists ls. reflexivity.
  - destruct (throws w c).
    + unfold emit. cbn [events lines].
      rewrite events_log_all, lines_log_all. split.
      * exists [Called c; ConsoleError; Exit 1].
        rewrite <- !app_assoc. reflexivity.
      * eexists. reflexivity.
    + destruct (IH (log_all (log_after w c)
                      (emit (Called c) (log_all (log_before w c) st))))
        as [[es Hes] [ls Hls]].
      rewrite Hes, Hls, events_log_all, !lines_log_all.
      unfold emit. cbn [events lines].
      rewrite events_log_all, lines_log_all. split.
      * exists (Called c :: es). rewrite <- app_assoc. reflexivity.
      * eexists. rewrite <- !app_assoc. reflexivity.
Qed.

Lemma run_later_calls_first w c cs st :
  In (Called c) (events (run_later w (c :: cs) st)).
Proof.
  cbn [run_later]; cbv zeta. destruct (throws w c).
  - unfold emit. cbn [events]. rewrite events_log_all.
    apply in_or_app. left. apply in_or_app. left.
    apply in_or_app. right. left. reflexivity.
  - destruct (run_later_extends w cs
                (log_all (log_after w c)
                   (emit (Called c) (log_all (log_before w c) st))))
      as [[es Hes] _].
    rewrite Hes, events_log_all. unfold emit. cbn [events].
    rewrite events_log_all.
    apply in_or_app. left. apply in_or_app. right. left. reflexivity.
Qed.

(** C8, as amended.  When the compile command fails, its output is logged;
    if no [prescription.r1cs] exists the script logs the error, saves the
    log and exits with status 1 before any later call; if the file exists
    (left by an earlier build, say) the script goes on with the rest of
    the ceremony, and [snarkjs.r1cs.info] is called next. *)
Theorem compile_failure (w : World) (stdout stderr : option string) :
  exec_circom w = ExecThrew stdout stderr ->
  let st0 := after_failed_compile w stdout stderr in
  (r1cs_exists w = false ->
     let aborted := lines st0 ++ ["ERROR: Compilation failed. Aborting."%string] in
     main w = {| lines := aborted;
                 events := events st0 ++ [SaveLog aborted; Exit 1] |}
     /\ forall c, ~ In (Called c) (events (main w)))
  /\ (r1cs_exists w = true ->
      main w = run_later w later_calls st0
      /\ In (Called R1csInfo) (events (main w))
      /\ exists ls, lines (main w) = lines st0 ++ ls).
Proof.
  intros Hexec st0. split; intros Hr.
  - assert (Hmain : main w
      = {| lines := lines st0 ++ ["ERROR: Compilation failed. Aborting."%string];
           events := events st0
             ++ [SaveLog (lines st0 ++ ["ERROR: Compilation failed. Aborting."%string]);
                 Exit 1] |}).
    { unfold main. rewrite Hexec, Hr. subst st0. unfold after_failed_compile.
      destruct (build_dir_exists w); reflexivity. }
    split; [exact Hmain|].
    intros c Hin. rewrite Hmain in Hin. subst st0. cbn [events] in Hin.
    unfold after_failed_compile in Hin. cbn [events] in Hin.
    destruct (build_dir_exists w); simpl in Hin;
      repeat (destruct Hin as [Hin|Hin]; [discriminate Hin|]); exact Hin.
  - assert (Hmain : main w = run_later w later_calls st0).
    { unfold main. rewrite Hexec, Hr. subst st0. unfold after_failed_compile.
      destruct (build_dir_exists w); reflexivity. }
    split; [exact Hmain|]. rewrite Hmain. split.
    + apply run_later_calls_first.
    + apply run_later_extends.
Qed.

(** C8, the claim as stated fails: the compiler call throws, an r1cs file
    is present, and the run neither saves-and-exits nor stops: all twenty
    later calls are made, in order, and the script never exits with an
    error status. *)
Lemma compile_failure_counterexample :
  exec_circom Demo.stale_build
    = ExecThrew (Some ""%string) (Some "error[P1012]: illegal expression"%string)
  /\ calls_and_exits (events (main Demo.stale_build))
     = map Called later_calls.
Proof. split; [reflexivity|]. vm_compute. reflexivity. Qed.

(** C8 as amended, in a clean checkout. *)
Lemma compile_failure_witness :
  exec_circom Demo.clean_build
    = ExecThrew (Some ""%string) (Some "error[P1012]: illegal expression"%string)
  /\ r1cs_exists Demo.clean_build = false
  /\ forall c, ~ In (Called c) (events (main Demo.clean_build)).
Proof.
  split; [reflexivity|]. split; [reflexivity|].
  exact (proj2 (proj1 (compile_failure Demo.clean_build _ _ eq_refl) eq_refl)).
Defined.

End CeremonyFacts.

(* ===================================================================== *)
(** * Part VIII.  Further properties of the constraint system             *)
(* ===================================================================== *)

Module WitnessFacts.
Import Circomlib Circuit Hint FieldFacts GadgetFacts CircuitFacts DemoFacts.

Lemma Signals_eq (w1 w2 : Signals) :
  inputs w1 = inputs w2 ->
  credHasher_out w1 = credHasher_out w2 ->
  srcHasher_out w1 = srcHasher_out w2 ->
  freshCheck w1 = freshCheck w2 ->
  freshOk w1 = freshOk w2 ->
  authOk w1 = authOk w2 ->
  classDiff w1 = classDiff w2 ->
  classDiffInv w1 = classDiffInv w2 ->
  isZero w1 = isZero w2 ->
  noContraindication w1 = noContraindication w2 ->
  validCtx w1 = validCtx w2 ->
  computedOutcome w1 = computedOutcome w2 ->
  w1 = w2.
Proof. destruct w1, w2. cbn. intros. subst. reflexivity. Qed.

(** The signals of a comparator are determined by its two operands. *)
Lemma LessThan_unique n a b (s1 s2 : LessThanSignals) : (n <= 252)%nat ->
  LessThan_shape n s1 -> holds (LessThan n a b s1) ->
  LessThan_shape n s2 -> holds (LessThan n a b s2) ->
  s1 = s2.
Proof.
  intros Hn Hl1 H1 Hl2 H2.
  assert (Hbits : forall s, LessThan_shape n s -> holds (LessThan n a b s) ->
    n2b_in s = (a + pow2F n - b)%Zmod
    /\ (forall i, nth i (n2b_out s) Zmod.zero
          = b2F (Z.testbit (Zmod.to_Z (n2b_in s)) (Z.of_nat i)))
    /\ lt_out s = (Zmod.one - nth n (n2b_out s) Zmod.zero)%Zmod).
  { intros s Hl H. unfold LessThan in H.
    apply holds_cons in H. destruct H as [Hin H].
    apply holds_app in H. destruct H as [Hb Ho].
    apply holds_cons in Ho. destruct Ho as [Ho _].
    unfold LessThan_shape in Hl.
    destruct (Num2Bits_sound (n2b_in s) (n2b_out s)) as (_ & _ & _ & Hnth);
      [lia | exact Hb |].
    split; [exact Hin|]. split; [exact Hnth|exact Ho]. }
  destruct (Hbits s1 Hl1 H1) as (Hi1 & Hb1 & Ho1).
  destruct (Hbits s2 Hl2 H2) as (Hi2 & Hb2 & Ho2).
  assert (Hout : n2b_out s1 = n2b_out s2).
  { apply (nth_ext _ _ Zmod.zero Zmod.zero).
    - unfold LessThan_shape in Hl1, Hl2. congruence.
    - intros i _. rewrite Hb1, Hb2, Hi1, Hi2. reflexivity. }
  destruct s1, s2. cbn [n2b_in n2b_out lt_out] in *.
  subst. reflexivity.
Qed.

(** Where the class difference is not zero the inverse is forced. *)
Lemma inverse_forced (d inv1 inv2 : F) :
  d <> Zmod.zero ->
  (d * (Zmod.one - d * inv1))%Zmod = Zmod.zero ->
  (d * (Zmod.one - d * inv2))%Zmod = Zmod.zero ->
  inv1 = inv2.
Proof.
  intros Hd H1 H2.
  assert (E : forall v : F, (d * (Zmod.one - d * v))%Zmod = Zmod.zero ->
                (d * v)%Zmod = Zmod.one).
  { intros v H. destruct (F_integral _ _ H) as [H0|H0]; [contradiction|].
    apply Zmod.sub_eq_0 in H0. symmetry. exact H0. }
  apply E in H1. apply E in H2.
  assert (Hz : (d * (inv1 - inv2))%Zmod = Zmod.zero).
  { transitivity (d * inv1 - d * inv2)%Zmod; [ring|].
    rewrite H1, H2. ring. }
  destruct (F_integral _ _ Hz) as [H0|H0]; [contradiction|].
  apply Zmod.sub_eq_0 in H0. exact H0.
Qed.

Section WitnessFacts.

Variable Poseidon1 : F -> F.
Variable Poseidon2 : F -> F -> F.

Local Abbreviation sat := (satisfies Poseidon1 Poseidon2).
Local Abbreviation calc := (calcWitness Poseidon1 Poseidon2).

(** X1 (the witness calculator is correct).  What the calculator returns
    extends the inputs and satisfies every constraint, and it fails only
    on inputs that no assignment of the other signals can satisfy. *)
Theorem witness_calculator_correct (i : Inputs) :
  (forall w, calc i = Some w -> inputs w = i /\ sat w)
  /\ (calc i = None <-> forall w, inputs w = i -> ~ sat w).
Proof.
  split; [intros w; apply calcWitness_sound|].
  split.
  - intros Hn w Hi Hw.
    assert (Ha : accepted Poseidon1 Poseidon2 i)
      by (apply accepted_iff_satisfiable; exists w; split; assumption).
    apply accepted_iff_calcWitness in Ha. destruct Ha as [w' Hw'].
    congruence.
  - intros Hno. destruct (calc i) as [w|] eqn:E; [|reflexivity].
    destruct (calcWitness_sound _ _ i w E) as [Hi Hw].
    exfalso. exact (Hno w Hi Hw).
Qed.

(** X2 (the witness is unique up to the hint).  Every signal other than
    the hint is a function of the inputs: two satisfying assignments of
    the same inputs differ at most in [classDiffInv], and not even there
    when the two classes differ. *)
Theorem witness_unique (w1 w2 : Signals) :
  sat w1 -> sat w2 -> inputs w1 = inputs w2 ->
  w2 = with_classDiffInv (classDiffInv w2) w1
  /\ (allergyClassId (inputs w1) <> medicationClassId (inputs w1) ->
      w2 = w1).
Proof.
  intros H1 H2 Hi.
  pose proof (proj1 (satisfies_iff _ _ w1) H1) as S1.
  pose proof (proj1 (satisfies_iff _ _ w2) H2) as S2.
  cbv zeta in S1, S2. rewrite <- Hi in S2.
  destruct S1 as (L1 & A1 & _ & B1 & _ & C1 & D1 & E1 & _ & G1 & I1 & J1
                  & K1 & M1 & N1 & _).
  destruct S2 as (L2 & A2 & _ & B2 & _ & C2 & D2 & E2 & _ & G2 & I2 & J2
                  & K2 & M2 & N2 & _).
  assert (Hfc : freshCheck w2 = freshCheck w1)
    by (apply (LessThan_unique 32 _ _ _ _ ltac:(lia) L2 C2 L1 C1)).
  destruct (satisfies_forced _ _ w1 H1) as (_ & _ & _ & Z1 & _).
  destruct (satisfies_forced _ _ w2 H2) as (_ & _ & _ & Z2 & _).
  cbv zeta in Z1, Z2. rewrite <- Hi in Z2.
  assert (Hz : isZero w2 = isZero w1) by congruence.
  assert (Hcd : classDiff w2 = classDiff w1) by congruence.
  assert (Hnc : noContraindication w2 = noContraindication w1)
    by congruence.
  assert (Hfo : freshOk w2 = freshOk w1) by congruence.
  assert (Hvc : validCtx w2 = validCtx w1) by congruence.
  assert (Hco : computedOutcome w2 = computedOutcome w1) by congruence.
  split.
  - apply Signals_eq; cbn [with_classDiffInv inputs credHasher_out
      srcHasher_out freshCheck freshOk authOk classDiff classDiffInv
      isZero noContraindication validCtx computedOutcome];
      congruence.
  - intros Hne. apply Signals_eq; try congruence.
    apply (inverse_forced (classDiff w1)).
    + rewrite G1. intros H0. apply Zmod.sub_eq_0 in H0. contradiction.
    + rewrite <- Hcd at 1 2. rewrite <- I2. exact J2.
    + rewrite <- I1. exact J1.
Qed.

(** X3 (the hint is free where it does not matter).  When the two classes
    are equal, a satisfying assignment stays satisfying with any value in
    [classDiffInv]. *)
Theorem hint_unconstrained_at_zero (w : Signals) (v : F) :
  sat w ->
  allergyClassId (inputs w) = medicationClassId (inputs w) ->
  sat (with_classDiffInv v w).
Proof.
  intros Hw Heq.
  pose proof (proj1 (satisfies_iff _ _ w) Hw) as S. cbv zeta in S.
  destruct S as (L & A & A' & B & B' & C & D & E & E' & G & I & J & K
                 & M & N & O).
  assert (Hd : classDiff w = Zmod.zero).
  { rewrite G, Heq. ring. }
  apply satisfies_iff.
  cbn [with_classDiffInv inputs credHasher_out srcHasher_out freshCheck
       freshOk authOk classDiff classDiffInv isZero noContraindication
       validCtx computedOutcome].
  repeat (split; [assumption|]).
  split; [|repeat (split; try assumption)].
  rewrite I, Hd. ring.
Qed.

(** X4 (flags are bits).  Every flag of a satisfying assignment, and with
    them the public outcome, is 0 or 1: the freshness bit, the is-zero
    bit, its complement, the context bit and the computed outcome. *)
Theorem flags_are_bits (w : Signals) :
  sat w ->
  is_bit (freshOk w) /\ is_bit (isZero w)
  /\ is_bit (noContraindication w) /\ is_bit (validCtx w)
  /\ is_bit (computedOutcome w) /\ is_bit (outcome (inputs w))
  /\ Forall is_bit (n2b_out (freshCheck w)).
Proof.
  intros Hw.
  destruct (satisfies_forced _ _ w Hw) as (_ & _ & Hf & Hz & Hn & Hc & Ho).
  cbv zeta in *.
  pose proof (proj1 (satisfies_iff _ _ w) Hw) as S. cbv zeta in S.
  destruct S as (L & _ & _ & _ & _ & C & _ & _ & _ & _ & _ & _ & _
                 & M & _ & _).
  rewrite M, Hf, Hz, Hn, Hc, Ho.
  repeat (split; [apply is_bit_b2F; eexists; reflexivity|]).
  unfold LessThan in C. apply holds_cons in C. destruct C as [_ C].
  apply holds_app in C. destruct C as [C _].
  unfold LessThan_shape in L.
  destruct (Num2Bits_sound (n2b_in (freshCheck w)) (n2b_out (freshCheck w)))
    as [Hb _]; [lia | exact C | exact Hb].
Qed.

(** X5 (the outcome is determined).  The prover cannot choose the outcome:
    for given values of the other eleven inputs at most one declared
    outcome has a satisfying assignment. *)
Theorem outcome_determined (w1 w2 : Signals) (o : F) :
  sat w1 -> sat w2 ->
  inputs w2 = with_outcome o (inputs w1) ->
  o = outcome (inputs w1).
Proof.
  intros H1 H2 Hi.
  destruct (satisfies_forced _ _ w1 H1) as (_ & _ & _ & _ & _ & _ & O1).
  destruct (satisfies_forced _ _ w2 H2) as (_ & _ & _ & _ & _ & _ & O2).
  cbv zeta in O1, O2. rewrite Hi in O2.
  unfold freshBit, noContraBit in O1, O2.
  cbn [with_outcome outcome dataAge deltaMax allergyClassId
       medicationClassId] in O2.
  congruence.
Qed.

(** X6 (what a proved outcome means).  The relation of the header comment,
    for operands inside the comparator's width: a satisfying assignment
    declares 1 exactly when the data is fresh and the classes differ, and
    0 exactly when the data is stale or the classes coincide; in both
    cases the credential, source and action checks hold. *)
Theorem outcome_meaning (w : Signals) :
  sat w ->
  Zmod.to_Z (dataAge (inputs w)) < 2 ^ 32 ->
  Zmod.to_Z (deltaMax (inputs w)) < 2 ^ 32 ->
  let i := inputs w in
  hard_checks Poseidon1 Poseidon2 i
  /\ (outcome i = Zmod.one <->
      Zmod.to_Z (dataAge i) < Zmod.to_Z (deltaMax i)
      /\ allergyClassId i <> medicationClassId i)
  /\ (outcome i = Zmod.zero <->
      Zmod.to_Z (deltaMax i) <= Zmod.to_Z (dataAge i)
      \/ allergyClassId i = medicationClassId i).
Proof.
  intros Hw Ha Hb i.
  destruct (satisfies_forced _ _ w Hw) as (Hh & _ & _ & _ & _ & _ & Ho).
  cbv zeta in Hh, Ho. fold i in Hh, Ho.
  destruct (fits32_accepts (inputs w) Ha Hb) as [_ Hbit]. fold i in Hbit.
  split; [exact Hh|].
  rewrite Ho, Hbit. unfold noContraBit.
  pose proof F_one_neq_zero as Hne.
  destruct (Z.ltb_spec (Zmod.to_Z (dataAge i)) (Zmod.to_Z (deltaMax i)));
    destruct (Zmod.eqb_spec (allergyClassId i) (medicationClassId i));
    cbn [negb andb]; rewrite ?b2F_true, ?b2F_false;
    split; split; intros; try reflexivity; try tauto; try lia;
    try congruence.
  destruct H1; [lia|contradiction].
Qed.

(** X21 (the window of accepted ages).  For a bound below [2^32] the
    comparator admits exactly the ages below [deltaMax + 2^32] and the top
    [2^32 - deltaMax] elements of the field.  It reports the data as fresh
    for the ages below [deltaMax] and for that top range, where the
    difference wraps around, and as stale for the ages from [deltaMax] to
    below [deltaMax + 2^32]. *)
Theorem freshness_window (w : Signals) :
  sat w ->
  Zmod.to_Z (deltaMax (inputs w)) < 2 ^ 32 ->
  let age := Zmod.to_Z (dataAge (inputs w)) in
  let bound := Zmod.to_Z (deltaMax (inputs w)) in
  (age < bound + 2 ^ 32 \/ bn128_r - 2 ^ 32 + bound <= age)
  /\ (freshOk w = Zmod.one <->
      age < bound \/ bn128_r - 2 ^ 32 + bound <= age)
  /\ (freshOk w = Zmod.zero <-> bound <= age < bound + 2 ^ 32).
Proof.
  intros Hw Hb age bound.
  destruct (satisfies_forced _ _ w Hw) as (_ & Hacc & Hf & _).
  cbv zeta in Hacc, Hf. unfold comparator_accepts in Hacc.
  unfold freshBit in Hf.
  rewrite (lt_diff_mod 32) in Hacc, Hf by lia.
  fold age bound in Hacc, Hf.
  pose proof (F_range (dataAge (inputs w))) as Ra. fold age in Ra.
  pose proof (F_range (deltaMax (inputs w))) as Rb. fold bound in Rb.
  fold bound in Hb.
  pose proof bn128_r_big as [Hr1 Hr2].
  pose proof F_one_neq_zero as Hne.
  change (Z.of_nat 32) with 32 in *.
  assert (H253 : 2 ^ 33 < 2 ^ 253) by (vm_compute; reflexivity).
  assert (H32 : 2 ^ 33 = 2 * 2 ^ 32) by reflexivity.
  set (P32 := 2 ^ 32) in *. set (P33 := 2 ^ 33) in *.
  set (P253 := 2 ^ 253) in *.
  destruct (Z_lt_le_dec (age + P32 - bound) bn128_r) as [Hlt|Hge].
  - rewrite (Z.mod_small (age + P32 - bound) bn128_r) in Hacc, Hf by lia.
    rewrite (testbit_top 32 (age + P32 - bound)) in Hf
      by (fold P32 P33; change (2 ^ (32 + 1)) with P33; lia).
    fold P32 in Hf.
    split; [left; lia|]. rewrite Hf.
    destruct (Z.leb_spec P32 (age + P32 - bound)); cbn [negb];
      rewrite ?b2F_true, ?b2F_false; split; split; intros;
      try reflexivity; try lia; try congruence.
  - assert (Hm : (age + P32 - bound) mod bn128_r
                 = age + P32 - bound - bn128_r).
    { symmetry. apply (Z.mod_unique _ _ 1); lia. }
    rewrite Hm in Hacc, Hf.
    rewrite (testbit_top 32 (age + P32 - bound - bn128_r)) in Hf
      by (fold P32 P33; change (2 ^ (32 + 1)) with P33; lia).
    fold P32 in Hf.
    split; [right; lia|]. rewrite Hf.
    destruct (Z.leb_spec P32 (age + P32 - bound - bn128_r)); cbn [negb];
      rewrite ?b2F_true, ?b2F_false; split; split; intros;
      try reflexivity; try lia; try congruence.
Qed.

End WitnessFacts.

(** X2 at the baseline, whose classes are 2 and 5. *)
Lemma witness_unique_witness :
  exists w,
    satisfies Demo.hash1 Demo.hash2 w
    /\ inputs w = Demo.baseline
    /\ forall w', satisfies Demo.hash1 Demo.hash2 w' -> inputs w = inputs w' ->
         w' = w.
Proof.
  destruct (calcWitness_complete _ _ _ demo_baseline_accepted) as [w Hw].
  destruct (calcWitness_sound _ _ _ _ Hw) as [Hi Hs].
  exists w. split; [exact Hs|]. split; [exact Hi|].
  intros w' Hs' Hi'.
  apply (witness_unique Demo.hash1 Demo.hash2 w w' Hs Hs' Hi').
  rewrite Hi. apply fe_neq. vm_compute. discriminate.
Defined.

(** X3 at the honest reject of S5a, with the hint replaced by 7. *)
Lemma hint_unconstrained_at_zero_witness :
  exists w,
    inputs w = Demo.honest_reject
    /\ satisfies Demo.hash1 Demo.hash2 w
    /\ allergyClassId (inputs w) = medicationClassId (inputs w)
    /\ satisfies Demo.hash1 Demo.hash2 (with_classDiffInv (Demo.fe 7) w).
Proof.
  destruct (calcWitness_complete _ _ _ demo_honest_reject_accepted) as [w Hw].
  destruct (calcWitness_sound _ _ _ _ Hw) as [Hi Hs].
  assert (He : allergyClassId (inputs w) = medicationClassId (inputs w))
    by (rewrite Hi; reflexivity).
  exists w. split; [exact Hi|]. split; [exact Hs|]. split; [exact He|].
  exact (hint_unconstrained_at_zero Demo.hash1 Demo.hash2 w (Demo.fe 7) Hs He).
Defined.

(** X4 at the baseline. *)
Lemma flags_are_bits_witness :
  exists w,
    inputs w = Demo.baseline
    /\ satisfies Demo.hash1 Demo.hash2 w
    /\ is_bit (outcome (inputs w)).
Proof.
  destruct (calcWitness_complete _ _ _ demo_baseline_accepted) as [w Hw].
  destruct (calcWitness_sound _ _ _ _ Hw) as [Hi Hs].
  exists w. split; [exact Hi|]. split; [exact Hs|].
  apply (flags_are_bits Demo.hash1 Demo.hash2 w Hs).
Defined.

(** X5 at the honest reject of S5a: no other outcome than 0 has a witness. *)
Lemma outcome_determined_witness :
  exists w,
    inputs w = Demo.honest_reject
    /\ satisfies Demo.hash1 Demo.hash2 w
    /\ forall w' o, satisfies Demo.hash1 Demo.hash2 w' ->
         inputs w' = with_outcome o (inputs w) -> o = Demo.fe 0.
Proof.
  destruct (calcWitness_complete _ _ _ demo_honest_reject_accepted) as [w Hw].
  destruct (calcWitness_sound _ _ _ _ Hw) as [Hi Hs].
  exists w. split; [exact Hi|]. split; [exact Hs|].
  intros w' o Hs' Hi'.
  rewrite (outcome_determined Demo.hash1 Demo.hash2 w w' o Hs Hs' Hi').
  rewrite Hi. reflexivity.
Defined.

(** X6 at the baseline: [30 < 90] and classes 2 and 5. *)
Lemma outcome_meaning_witness :
  exists w,
    inputs w = Demo.baseline
    /\ satisfies Demo.hash1 Demo.hash2 w
    /\ Zmod.to_Z (dataAge (inputs w)) < 2 ^ 32
    /\ Zmod.to_Z (deltaMax (inputs w)) < 2 ^ 32
    /\ (outcome (inputs w) = Zmod.one <->
        Zmod.to_Z (dataAge (inputs w)) < Zmod.to_Z (deltaMax (inputs w))
        /\ allergyClassId (inputs w) <> medicationClassId (inputs w)).
Proof.
  destruct (calcWitness_complete _ _ _ demo_baseline_accepted) as [w Hw].
  destruct (calcWitness_sound _ _ _ _ Hw) as [Hi Hs].
  assert (Ha : Zmod.to_Z (dataAge (inputs w)) < 2 ^ 32)
    by (rewrite Hi; vm_compute; reflexivity).
  assert (Hb : Zmod.to_Z (deltaMax (inputs w)) < 2 ^ 32)
    by (rewrite Hi; vm_compute; reflexivity).
  exists w. split; [exact Hi|]. split; [exact Hs|].
  split; [exact Ha|]. split; [exact Hb|].
  exact (proj1 (proj2 (outcome_meaning Demo.hash1 Demo.hash2 w Hs Ha Hb))).
Defined.

(** X21 at the baseline with [dataAge = -1], the largest element of the
    field. *)
Lemma freshness_window_witness :
  exists w,
    inputs w = Demo.wrapped_age
    /\ satisfies Demo.hash1 Demo.hash2 w
    /\ Zmod.to_Z (deltaMax (inputs w)) < 2 ^ 32
    /\ (freshOk w = Zmod.one <->
        Zmod.to_Z (dataAge (inputs w)) < Zmod.to_Z (deltaMax (inputs w))
        \/ bn128_r - 2 ^ 32 + Zmod.to_Z (deltaMax (inputs w))
           <= Zmod.to_Z (dataAge (inputs w))).
Proof.
  destruct (calcWitness_complete _ _ _ demo_wrapped_accepted) as [w Hw].
  destruct (calcWitness_sound _ _ _ _ Hw) as [Hi Hs].
  assert (Hb : Zmod.to_Z (deltaMax (inputs w)) < 2 ^ 32)
    by (rewrite Hi; vm_compute; reflexivity).
  exists w. split; [exact Hi|]. split; [exact Hs|]. split; [exact Hb|].
  exact (proj1 (proj2 (freshness_window Demo.hash1 Demo.hash2 w Hs Hb))).
Defined.

End WitnessFacts.

(* ===================================================================== *)
(** * Part IX.  Further properties of the scenario runner                 *)
(* ===================================================================== *)

Module StringFacts.

Lemma substring_0_0 s : String.substring 0 0 s = EmptyString.
Proof. destruct s; reflexivity. Qed.

Lemma substring_0_length n : forall s,
  String.length (String.substring 0 n s) = Nat.min n (String.length s).
Proof.
  induction n as [|n IH]; intros s.
  - rewrite substring_0_0. reflexivity.
  - destruct s as [|c s]; simpl.
    + reflexivity.
    + rewrite IH. reflexivity.
Qed.

Lemma append_nil_l s : String.append EmptyString s = s.
Proof. reflexivity. Qed.

Lemma append_cons c a b :
  String.append (String c a) b = String c (String.append a b).
Proof. reflexivity. Qed.

Lemma append_length a b :
  String.length (String.append a b) = (String.length a + String.length b)%nat.
Proof.
  induction a as [|c a IH].
  - reflexivity.
  - rewrite append_cons. simpl. rewrite IH. reflexivity.
Qed.

Lemma append_inv_head a b c :
  String.append a b = String.append a c -> b = c.
Proof.
  induction a as [|x a IH]; intros H.
  - exact H.
  - rewrite !append_cons in H. injection H as H. exact (IH H).
Qed.

(** A string is its first [k] characters followed by the rest. *)
Lemma substring_split s : forall k, (k <= String.length s)%nat ->
  s = String.append (String.substring 0 k s)
        (String.substring k (String.length s - k) s).
Proof.
  induction s as [|c s IH]; intros k Hk.
  - simpl in Hk. assert (k = 0%nat) by lia. subst. reflexivity.
  - destruct k as [|k].
    + simpl. rewrite append_nil_l. f_equal. specialize (IH 0%nat ltac:(lia)).
      rewrite substring_0_0, Nat.sub_0_r, append_nil_l in IH.
      exact IH.
    + simpl in Hk. simpl. rewrite append_cons. f_equal. apply IH. lia.
Qed.

Lemma substring_append_tail a b m :
  String.substring (String.length a) m (String.append a b)
  = String.substring 0 m b.
Proof.
  induction a as [|c a IH].
  - reflexivity.
  - rewrite append_cons. simpl. exact IH.
Qed.

(** A string that is at most [n] long is its own prefix of length [n]. *)
Lemma substring_0_short n : forall s, (String.length s <= n)%nat ->
  String.substring 0 n s = s.
Proof.
  induction n as [|n IH]; intros s Hs.
  - destruct s; [reflexivity|simpl in Hs; lia].
  - destruct s as [|c s]; [reflexivity|].
    simpl. f_equal. apply IH. simpl in Hs. lia.
Qed.

Lemma substring_0_prefix n : forall s,
  String.prefix (String.substring 0 n s) s = true.
Proof.
  induction n as [|n IH]; intros s.
  - rewrite substring_0_0. destruct s; reflexivity.
  - destruct s as [|c s]; [reflexivity|]. simpl.
    destruct (Ascii.ascii_dec c c) as [_|Hne]; [apply IH|contradiction].
Qed.

End StringFacts.

Module RunnerFacts.
Import Prove Probes HarnessFacts StringFacts.

(** ** The expression [orig.slice(0, -6) + "000000"] *)

Lemma corrupt_length s :
  String.length (corrupt s) = Nat.max (String.length s) 6.
Proof.
  unfold corrupt. rewrite append_length, substring_0_length.
  cbn [String.length]. lia.
Qed.

Lemma corrupt_ends s : ends_with "000000" (corrupt s) = true.
Proof.
  unfold ends_with. rewrite corrupt_length. cbn [String.length].
  apply andb_true_iff. split; [|apply Nat.leb_le; lia].
  unfold corrupt.
  set (pre := String.substring 0 (String.length s - 6) s).
  assert (Hpre : String.length pre = (Nat.max (String.length s) 6 - 6)%nat).
  { unfold pre. rewrite substring_0_length. lia. }
  rewrite <- Hpre, substring_append_tail. reflexivity.
Qed.

Lemma corrupt_fixed s : corrupt s = s <-> ends_with "000000" s = true.
Proof.
  unfold ends_with. cbn [String.length].
  rewrite andb_true_iff, String.eqb_eq, Nat.leb_le.
  split.
  - intros H.
    assert (Hlen : (6 <= String.length s)%nat).
    { pose proof (corrupt_length s) as L. rewrite H in L. lia. }
    split; [|exact Hlen].
    pose proof (substring_split s (String.length s - 6) ltac:(lia)) as Hs.
    replace (String.length s - (String.length s - 6))%nat with 6%nat in Hs
      by lia.
    unfold corrupt in H. rewrite Hs in H at 3.
    apply append_inv_head in H. symmetry. exact H.
  - intros [Hsuf Hlen].
    pose proof (substring_split s (String.length s - 6) ltac:(lia)) as Hs.
    replace (String.length s - (String.length s - 6))%nat with 6%nat in Hs
      by lia.
    rewrite Hsuf in Hs. unfold corrupt. symmetry. exact Hs.
Qed.

(** X7 (the altered coordinate of S7).  What line 208 does to a coordinate:
    the result is as long as the original (six characters for a shorter
    one), ends in six zeros and keeps every character before them; doing it
    again changes nothing, and a coordinate is left as it was exactly when
    it already ended in six zeros. *)
Theorem corrupt_spec (orig : string) :
  String.length (corrupt orig) = Nat.max (String.length orig) 6
  /\ ends_with "000000" (corrupt orig) = true
  /\ String.substring 0 (String.length orig - 6) (corrupt orig)
     = String.substring 0 (String.length orig - 6) orig
  /\ corrupt (corrupt orig) = corrupt orig
  /\ (corrupt orig = orig <-> ends_with "000000" orig = true).
Proof.
  split; [apply corrupt_length|]. split; [apply corrupt_ends|].
  split; [|split; [apply corrupt_fixed, corrupt_ends|apply corrupt_fixed]].
  unfold corrupt.
  set (pre := String.substring 0 (String.length orig - 6) orig).
  assert (Hpre : String.length pre = (String.length orig - 6)%nat).
  { unfold pre. rewrite substring_0_length. lia. }
  pose proof (substring_split (String.append pre "000000")
                (String.length pre)) as Hs.
  rewrite append_length in Hs. specialize (Hs ltac:(lia)).
  rewrite substring_append_tail in Hs.
  replace (String.length pre + String.length "000000" - String.length pre)%nat
    with 6%nat in Hs by (cbn [String.length]; lia).
  change (String.substring 0 6 "000000") with "000000"%string in Hs.
  apply eq_sym in Hs.
  assert (Hinv : forall a b c, String.append a c = String.append b c ->
                   String.length a = String.length b -> a = b).
  { induction a as [|x a IH]; intros [|y b] c H L;
      cbn [String.length] in L; try discriminate; [reflexivity|].
    rewrite !append_cons in H. injection H as -> H.
    f_equal. apply (IH b c H). lia. }
  rewrite <- Hpre. apply (Hinv _ _ "000000"%string Hs).
  rewrite substring_0_length, append_length. lia.
Qed.

(** ** The error line of [printResult] *)

(** X8 (the error line of a result).  No line is printed for a missing or
    empty error; otherwise the line shows a beginning of the error text, the
    whole of it when it has at most 120 characters and its first 120
    otherwise. *)
Theorem printResult_error_line (i n : string) (ok_ proofOk verifyOk : bool)
    (e : option string) :
  exists shown,
    printResult i n ok_ proofOk verifyOk e
      = Result i n ok_ proofOk verifyOk shown
    /\ (shown = None <-> e = None \/ e = Some ""%string)
    /\ forall s, shown = Some s ->
         exists text,
           e = Some text
           /\ String.prefix s text = true
           /\ String.length s = Nat.min 120 (String.length text)
           /\ ((String.length text <= 120)%nat -> s = text).
Proof.
  unfold printResult. eexists. split; [reflexivity|].
  destruct e as [text|].
  - destruct (String.eqb_spec text "") as [->|Hne].
    + split; [split; [intros _; right; reflexivity|reflexivity]|].
      intros s H. discriminate H.
    + split.
      * split; [intros H; discriminate H|].
        intros [H|H]; [discriminate H|]. injection H as H. contradiction.
      * intros s H. injection H as <-. exists text.
        split; [reflexivity|]. split; [apply substring_0_prefix|].
        split; [apply substring_0_length|apply substring_0_short].
  - split; [split; [intros _; left; reflexivity|reflexivity]|].
    intros s H. discriminate H.
Qed.

(** ** The copy of the public signals handed to the verifier by S6 *)

Lemma tamper_length ps : length (tamper ps) = length ps.
Proof. unfold tamper. cbv zeta. apply length_insert. Qed.

(** X9 (the tampered copy of S6).  What lines 187-188 do to the public
    signals: the copy has the same length and the same elements except the
    last; the last element becomes 0 where it was 1 and 1 otherwise, so a
    non-empty vector never stays as it was, while an empty one does. *)
Theorem tamper_spec (publicSignals : list Z) :
  length (tamper publicSignals) = length publicSignals
  /\ (forall k, (k < length publicSignals - 1)%nat ->
        tamper publicSignals !! k = publicSignals !! k)
  /\ (forall x, last publicSignals = Some x ->
        last (tamper publicSignals) = Some (if Z.eqb x 1 then 0 else 1))
  /\ (publicSignals <> [] -> tamper publicSignals <> publicSignals)
  /\ tamper [] = [].
Proof.
  split; [apply tamper_length|].
  split.
  { intros k Hk. unfold tamper. cbv zeta.
    apply list_lookup_insert_ne. lia. }
  assert (Hlast : forall x, last publicSignals = Some x ->
            last (tamper publicSignals) = Some (if Z.eqb x 1 then 0 else 1)).
  { intros x Hx. rewrite last_lookup in Hx |- *.
    rewrite tamper_length. unfold tamper. cbv zeta.
    replace (Nat.pred (length publicSignals))
      with (length publicSignals - 1)%nat in * by lia.
    rewrite Hx.
    rewrite list_lookup_insert_eq
      by (apply lookup_lt_Some in Hx; exact Hx).
    f_equal. destruct (Z.eqb_spec x 1) as [->|Hne]; [reflexivity|].
    destruct x as [|[p|p|]|]; try reflexivity. contradiction. }
  split; [exact Hlast|]. split; [|reflexivity].
  intros Hne Heq.
  destruct (last publicSignals) as [x|] eqn:Hx.
  - specialize (Hlast x eq_refl). rewrite Heq, Hx in Hlast.
    destruct (Z.eqb_spec x 1); congruence.
  - apply last_None in Hx. contradiction.
Qed.

Section RunnerFacts.

Variable Proof : Type.
Variable VKeyRest : Type.
Variable fullProve : Input -> Exn + (Proof * list Z).
Variable verify : VKey VKeyRest -> list Z -> Proof -> bool.
Variable credHash : Z.
Variable srcHash : Z.
Variable vKey : VKey VKeyRest.

Local Abbreviation tryProve := (Prove.tryProve Proof fullProve).
Local Abbreviation expect_pass :=
  (Prove.expect_pass Proof VKeyRest fullProve verify vKey).
Local Abbreviation expect_fail := (Prove.expect_fail Proof fullProve).
Local Abbreviation S6 := (Prove.S6 Proof VKeyRest verify vKey).
Local Abbreviation S7 := (Prove.S7 Proof VKeyRest verify vKey).
Local Abbreviation S1_ok :=
  (Prove.S1_ok Proof VKeyRest fullProve verify credHash srcHash vKey).
Local Abbreviation scenarios :=
  (Prove.scenarios Proof VKeyRest fullProve verify credHash srcHash vKey).
Local Abbreviation main :=
  (Prove.main Proof VKeyRest fullProve verify credHash srcHash vKey).
Local Abbreviation after_S5b :=
  (Prove.after_S5b Proof VKeyRest fullProve verify credHash srcHash vKey).
Local Abbreviation Track := (Prove.Track Proof).

Local Abbreviation Ending :=
  (Probes.Ending Proof VKeyRest fullProve verify credHash srcHash vKey).

Lemma scenarios_Ending : Ending scenarios.
Proof.
  rewrite scenarios_unfold.
  pose proof (proofCache_after_S5b Proof VKeyRest fullProve verify
                credHash srcHash vKey) as HC.
  destruct S1_ok eqn:Hok.
  - destruct (S1_ok_Proved _ _ _ _ _ _ _ Hok) as (pf & ps & Hr).
    assert (Hv : verify vKey ps pf = true).
    { unfold Prove.S1_ok in Hok. rewrite Hr in Hok. exact Hok. }
    rewrite Hr in HC.
    unfold Prove.S6. rewrite HC, lookup_singleton_eq. cbv zeta.
    unfold Prove.S7. cbn [proofCache probe].
    rewrite HC, lookup_singleton_eq.
    destruct (IC vKey) as [|[|orig row] rest] eqn:HIC.
    + apply Crashed; try assumption. unfold badVkey. rewrite HIC.
      reflexivity.
    + apply Crashed; try assumption. unfold badVkey. rewrite HIC.
      reflexivity.
    + cbv zeta.
      apply Probed; try assumption. unfold badVkey. rewrite HIC.
      reflexivity.
  - unfold Prove.S6. rewrite HC, lookup_empty.
    unfold Prove.S7. cbn [proofCache skip]. rewrite HC, lookup_empty.
    apply Skipped. exact Hok.
Qed.

(** The first entry of the report is that of S1, and its result says
    whether S1 passed. *)
Lemma report_after_S5b_head :
  exists rest,
    report after_S5b
    = {| id := "S1"; name := "Valid baseline — accept prescription";
         expectProof := true; expectVerify := true; result := S1_ok |}
      :: rest.
Proof.
  unfold Prove.after_S5b, Prove.S5b, Prove.S5a, Prove.S4, Prove.S3,
    Prove.S2, Prove.S1.
  repeat (rewrite report_expect_fail || rewrite report_expect_pass).
  cbn [report init app]. eexists. f_equal. f_equal.
  unfold Prove.S1_ok.
  destruct (Prove.tryProve Proof fullProve (baseline credHash srcHash));
    reflexivity.
Qed.

Lemma console_expect_fail i n input st :
  console (expect_fail i n input st)
  = console st
    ++ [printResult i n (negb (ok (tryProve input))) (ok (tryProve input))
          false (error (tryProve input))].
Proof. reflexivity. Qed.

Lemma console_expect_pass cache i n input st :
  exists l, console (expect_pass cache i n input st) = console st ++ [l]
            /\ is_result l = true.
Proof. eexists. split; reflexivity. Qed.

Lemma results_after_S5b :
  exists ls, console after_S5b = Banner :: ls
             /\ Forall (fun l => is_result l = true) ls
             /\ length ls = 6%nat.
Proof.
  unfold Prove.after_S5b, Prove.S5b, Prove.S5a, Prove.S4, Prove.S3,
    Prove.S2, Prove.S1.
  rewrite console_expect_fail.
  destruct (console_expect_pass false "S5a"
              "Contraindication — reject outcome proved correctly"
              (input_S5a credHash srcHash)
              (Prove.expect_fail Proof fullProve "S4"
                 "Freshness violation — dataAge exceeds Δmax"
                 (input_S4 credHash srcHash)
                 (Prove.expect_fail Proof fullProve "S3"
                    "Untrusted source — sourceId not in governance registry"
                    (input_S3 credHash srcHash)
                    (Prove.expect_fail Proof fullProve "S2"
                       "Invalid credential — forged doctorSecret"
                       (input_S2 credHash srcHash)
                       (Prove.expect_pass Proof VKeyRest fullProve verify
                          vKey true "S1"
                          "Valid baseline — accept prescription"
                          (baseline credHash srcHash) (init Proof))))))
    as (l5 & -> & H5).
  rewrite !console_expect_fail.
  destruct (console_expect_pass true "S1"
              "Valid baseline — accept prescription"
              (baseline credHash srcHash) (init Proof))
    as (l1 & -> & H1).
  cbn [console init app]. eexists. split; [reflexivity|].
  split; [|reflexivity].
  repeat (apply List.Forall_cons; [first [assumption|reflexivity]|]).
  apply List.Forall_nil.
Qed.

Lemma all_passed (rep : list ReportEntry) :
  length (List.filter result rep) = length rep ->
  Forall (fun r => result r = true) rep.
Proof.
  induction rep as [|r rep IH]; intros H; [apply List.Forall_nil|].
  cbn [List.filter] in H. pose proof (List.filter_length_le result rep).
  destruct (result r) eqn:E; cbn [length] in H; [|lia].
  apply List.Forall_cons; [exact E|]. apply IH. lia.
Qed.

Lemma all_true_pairs (rep : list ReportEntry) (ids : list string) :
  map id rep = ids ->
  Forall (fun r => result r = true) rep ->
  map (fun r => (id r, result r)) rep = map (fun i => (i, true)) ids.
Proof.
  intros <- H. induction H as [|r rep Hr _ IH]; [reflexivity|].
  cbn [map]. rewrite Hr, IH. reflexivity.
Qed.

(** X10 (a green summary is a complete one).  When the summary line shows
    as many passes as scenarios, all eight scenarios were run and each of
    them is saved as passed; a run that skipped S6 and S7 always shows
    fewer passes than scenarios. *)
Theorem green_summary (n : nat) :
  In (Summary n n) (run_console main) ->
  n = 8%nat
  /\ option_map (map (fun r => (id r, result r))) (test_results main)
     = Some [("S1", true); ("S2", true); ("S3", true); ("S4", true);
             ("S5a", true); ("S5b", true); ("S6", true); ("S7", true)]%string.
Proof.
  intros Hin. unfold Prove.main in *.
  pose proof (Track_after_S5b Proof VKeyRest fullProve verify
                credHash srcHash vKey) as HT.
  destruct results_after_S5b as (ls & Hcon & Hres & _).
  destruct report_after_S5b_head as (rest & Hhead).
  assert (Hsum : forall (st : State Proof) extra,
    console st = console after_S5b ++ extra ->
    Forall (fun l => is_summary l = false) extra ->
    In (Summary n n)
       (console st ++ [Summary (passed st) (length (report st)); Saved]) ->
    passed st = n /\ length (report st) = n).
  { intros st extra Hc Hex H. rewrite Hc, Hcon in H.
    apply in_app_or in H. destruct H as [H|H].
    - exfalso. destruct H as [H|H]; [discriminate|].
      apply in_app_or in H. destruct H as [H|H].
      + rewrite List.Forall_forall in Hres. specialize (Hres _ H).
        discriminate.
      + rewrite List.Forall_forall in Hex. specialize (Hex _ H).
        discriminate.
    - destruct H as [H|[H|[]]]; [|discriminate].
      injection H as H1 H2. split; assumption. }
  destruct scenarios_Ending
    as [Hok|pf ps bad Hok Hr Hv Hbad|pf ps Hok Hr Hv Hbad];
    set (st5 := after_S5b) in *; clearbody st5.
  - exfalso.
    destruct (Hsum (skip Proof "S7" (skip Proof "S6" st5))
                [Skip "S6"; Skip "S7"]) as [Hp Hl].
    { cbn [console skip]. rewrite <- app_assoc. reflexivity. }
    { repeat constructor. }
    { exact Hin. }
    cbn [passed report skip] in Hp, Hl.
    destruct HT as (_ & HP & _ & _). rewrite HP, <- Hl in Hp.
    apply all_passed in Hp. rewrite Hhead, Hok in Hp.
    inversion Hp as [|? ? Hbadr _]. discriminate.
  - pose proof (Track_probe Proof "S7" name_S7 (verify bad ps pf) _ _ _
                  (Track_probe Proof "S6" name_S6
                     (verify vKey (tamper ps) pf) _ _ _ HT))
      as (_ & HP & Hids & _).
    destruct (Hsum (probe Proof "S7" name_S7 (verify bad ps pf)
                      (probe Proof "S6" name_S6
                         (verify vKey (tamper ps) pf) st5))
                [printResult "S6" name_S6 (negb (verify vKey (tamper ps) pf))
                   true (verify vKey (tamper ps) pf) None;
                 printResult "S7" name_S7 (negb (verify bad ps pf))
                   true (verify bad ps pf) None]) as [Hp Hl].
    { cbn [console probe]. rewrite <- app_assoc. reflexivity. }
    { repeat constructor. }
    { exact Hin. }
    rewrite HP in Hp.
    assert (Hlen : n = 8%nat).
    { rewrite <- Hl, <- (length_map id), Hids. reflexivity. }
    split; [exact Hlen|].
    rewrite <- Hl in Hp. apply all_passed in Hp.
    cbn [test_results option_map]. f_equal.
    rewrite (all_true_pairs _ _ Hids Hp). reflexivity.
  - exfalso. cbn [run_console] in Hin.
    set (st6 := probe Proof "S6" name_S6 (verify vKey (tamper ps) pf)
                  st5) in *.
    assert (Hc : console st6 = Banner :: ls ++
              [printResult "S6" name_S6 (negb (verify vKey (tamper ps) pf))
                 true (verify vKey (tamper ps) pf) None]).
    { subst st6. cbn [console probe]. rewrite Hcon. reflexivity. }
    rewrite Hc in Hin. destruct Hin as [H|H]; [discriminate|].
    apply in_app_or in H. destruct H as [H|[H|[]]]; [|discriminate].
    rewrite List.Forall_forall in Hres. specialize (Hres _ H).
    discriminate.
Qed.

Lemma printed_ids_reports c : forall rep,
  Forall2 reports (List.filter is_result c) rep ->
  printed_ids c = map id rep.
Proof.
  induction c as [|l c IH]; intros rep H.
  - inversion H. reflexivity.
  - cbn [List.filter] in H.
    destruct l; cbn [is_result] in H;
      try (cbn [printed_ids flat_map app]; apply IH; exact H).
    inversion H as [|? r ? rep' Hr Hrest]; subst.
    cbn [printed_ids flat_map app map]. cbn [reports] in Hr.
    destruct Hr as (-> & _). f_equal. apply IH. exact Hrest.
Qed.

(** X11 (failed scenarios do not make the runner exit with an error).
    In a run in which the hashes and the key have been loaded, every
    thrown value can be read by the handler (such a run of the general
    runner is the run [main] of section [Harness]), the verifier
    answers and the report can be written: when S1 passed and the key
    has no [IC[0][0]] for S7 to alter, S7 throws, the results of S1 to
    S6 have been printed, no summary is printed, no report is saved
    and [main().catch] calls [process.exit(1)]; in every other such
    run, whatever the scenarios' results, [main] prints the summary,
    saves the report and returns without a call of [process.exit]. *)
Theorem exit_status_of_main :
  Thrown.main Proof VKeyRest (Thrown.readable fullProve) verify credHash
    srcHash vKey = main
  /\ (S1_ok = true -> badVkey vKey = None ->
     exit_status main = Some 1
     /\ test_results main = None
     /\ printed_ids (run_console main) = first_six ++ ["S6"%string]
     /\ Forall (fun l => is_summary l = false) (run_console main))
  /\ (S1_ok = false \/ badVkey vKey <> None ->
      exit_status main = None
      /\ test_results main <> None
      /\ exists p t, In (Summary p t) (run_console main)).
Proof.
  split; [apply ReadableFacts.main_readable|].
  pose proof (Track_after_S5b Proof VKeyRest fullProve verify
                credHash srcHash vKey) as HT.
  destruct results_after_S5b as (ls & Hcon & Hres & _).
  unfold Prove.main.
  destruct scenarios_Ending
    as [Hok|pf ps bad Hok Hr Hv Hbad|pf ps Hok Hr Hv Hbad];
    set (st5 := after_S5b) in *; clearbody st5;
    cbn [exit_status test_results run_console].
  - split; [intros H; congruence|]. intros _.
    split; [reflexivity|]. split; [discriminate|].
    eexists _, _. apply in_or_app. right. left. reflexivity.
  - split; [intros _ H; congruence|]. intros _.
    split; [reflexivity|]. split; [discriminate|].
    eexists _, _. apply in_or_app. right. left. reflexivity.
  - split; [|intros [H|H]; [congruence|contradiction]].
    intros _ _. split; [reflexivity|]. split; [reflexivity|].
    pose proof (Track_probe Proof "S6" name_S6 (verify vKey (tamper ps) pf)
                  _ _ _ HT) as (HF & _ & Hids & _).
    split.
    + rewrite (printed_ids_reports _ _ HF). exact Hids.
    + cbn [console probe]. rewrite Hcon.
      apply List.Forall_cons; [reflexivity|].
      apply List.Forall_app. split.
      * eapply List.Forall_impl; [|exact Hres].
        intros l Hl. destruct l; try discriminate. reflexivity.
      * apply List.Forall_cons; [reflexivity|apply List.Forall_nil].
Qed.

Lemma some_failed (rep : list ReportEntry) (r : ReportEntry) :
  In r rep -> result r = false ->
  (length (List.filter result rep) < length rep)%nat.
Proof.
  induction rep as [|x rep IH]; intros Hin Hr; [contradiction|].
  pose proof (List.filter_length_le result rep) as Hle.
  cbn [List.filter]. destruct Hin as [->|Hin].
  - rewrite Hr. cbn [length]. lia.
  - specialize (IH Hin Hr). destruct (result x); cbn [length]; lia.
Qed.

(** X12 (S7 does not always present a wrong key).  When [IC[0][0]] of the
    key already ends in six zeros, the altered copy equals the key; if S1
    passed, S7 then verifies the genuine proof against the genuine key, is
    reported as failed, and the summary shows fewer passes than scenarios. *)
Theorem S7_on_a_key_ending_in_zeros (orig : string) (row : list string)
    (rest : list (list string)) :
  IC vKey = (orig :: row) :: rest ->
  ends_with "000000" orig = true ->
  S1_ok = true ->
  badVkey vKey = Some vKey
  /\ exists st,
       scenarios = Continue st
       /\ last (report st)
          = Some {| id := "S7"; name := name_S7; expectProof := true;
                    expectVerify := false; result := false |}
       /\ (passed st < length (report st))%nat.
Proof.
  intros HIC Hend Hok.
  assert (Hsame : badVkey vKey = Some vKey).
  { unfold badVkey. rewrite HIC.
    rewrite (proj2 (corrupt_fixed orig) Hend), <- HIC.
    destruct vKey; reflexivity. }
  split; [exact Hsame|].
  pose proof (Track_after_S5b Proof VKeyRest fullProve verify
                credHash srcHash vKey) as HT.
  destruct scenarios_Ending
    as [Hno|pf ps bad _ Hr Hv Hbad|pf ps _ Hr Hv Hbad]; try congruence.
  assert (bad = vKey) by congruence. subst bad.
  eexists. split; [reflexivity|].
  set (st5 := after_S5b) in *. clearbody st5.
  pose proof (Track_probe Proof "S7" name_S7 (verify vKey ps pf) _ _ _
                (Track_probe Proof "S6" name_S6
                   (verify vKey (tamper ps) pf) _ _ _ HT))
    as (_ & HP & _ & _).
  rewrite HP. cbn [report probe]. rewrite Hv. cbn [negb].
  split; [apply last_snoc|].
  apply (some_failed _ {| id := "S7"; name := name_S7; expectProof := true;
                          expectVerify := false; result := false |});
    [|reflexivity].
  apply in_or_app. right. left. reflexivity.
Qed.

End RunnerFacts.

(** X10 in the run of the suite on the circuit with the transparent proof
    system and a key the verifier checks. *)
Lemma green_summary_witness :
  In (Summary 8 8) (run_console (Demo2.run "123456" (Demo2.key "123456")))
  /\ option_map (map (fun r => (id r, result r)))
       (test_results (Demo2.run "123456" (Demo2.key "123456")))
     = Some [("S1", true); ("S2", true); ("S3", true); ("S4", true);
             ("S5a", true); ("S5b", true); ("S6", true); ("S7", true)]%string.
Proof.
  unfold Demo2.run.
  assert (H : In (Summary 8 8)
                (run_console
                   (Prove.main Circuit.Signals unit
                      (Pipeline.fullProve Demo.hash1 Demo.hash2
                         Circuit.Signals Demo.prove)
                      (Demo2.verify_key "123456") Demo2.credHash
                      Demo2.srcHash (Demo2.key "123456"))))
    by (vm_compute; repeat (first [left; reflexivity | right])).
  split; [exact H|].
  exact (proj2 (green_summary _ _ _ _ _ _ _ 8%nat H)).
Defined.

(** X11 in two runs: with a key without [IC[0][0]] after a passing S1
    the runner exits with status 1 and saves nothing; without build
    artifacts, where S1 and S5a fail, it saves the report and returns. *)
Lemma exit_status_of_main_witness :
  (exit_status Demo3.run_with_empty_key = Some 1
   /\ test_results Demo3.run_with_empty_key = None)
  /\ (exit_status Demo.run_without_artifacts = None
      /\ test_results Demo.run_without_artifacts <> None).
Proof.
  split.
  - destruct (proj1 (proj2 (exit_status_of_main unit unit
                       Demo3.always_proves Demo.accept_all 0 0
                       Demo.empty_key)))
      as (H1 & H2 & _); [reflexivity|reflexivity|].
    split; [exact H1|exact H2].
  - destruct (proj2 (proj2 (exit_status_of_main unit unit
                       Demo.no_artifacts Demo.accept_all 0 0
                       Demo.empty_key)))
      as (H1 & H2 & _); [left; reflexivity|].
    split; [exact H1|exact H2].
Defined.

(** X12 for a key whose first coordinate is ["77000000"]. *)
Lemma S7_on_a_key_ending_in_zeros_witness :
  ends_with "000000" "77000000" = true
  /\ Prove.S1_ok Circuit.Signals unit
       (Pipeline.fullProve Demo.hash1 Demo.hash2 Circuit.Signals Demo.prove)
       (Demo2.verify_key "77000000") Demo2.credHash Demo2.srcHash
       (Demo2.key "77000000") = true
  /\ badVkey (Demo2.key "77000000") = Some (Demo2.key "77000000").
Proof.
  assert (He : ends_with "000000" "77000000" = true) by reflexivity.
  assert (Hok : Prove.S1_ok Circuit.Signals unit
            (Pipeline.fullProve Demo.hash1 Demo.hash2 Circuit.Signals
               Demo.prove)
            (Demo2.verify_key "77000000") Demo2.credHash Demo2.srcHash
            (Demo2.key "77000000") = true)
    by (vm_compute; reflexivity).
  split; [exact He|]. split; [exact Hok|].
  exact (proj1 (S7_on_a_key_ending_in_zeros Circuit.Signals unit
                  (Pipeline.fullProve Demo.hash1 Demo.hash2 Circuit.Signals
                     Demo.prove)
                  (Demo2.verify_key "77000000") Demo2.credHash Demo2.srcHash
                  (Demo2.key "77000000") "77000000" ["1"%string]
                  [["2"%string; "3"%string]] eq_refl He Hok)).
Defined.

End RunnerFacts.

(* ===================================================================== *)
(** * Part X.  What the runner reports                                   *)
(* ===================================================================== *)

Module ReportFacts.
Import Prove Probes Reporting HarnessFacts RunnerFacts.

Lemma success_iff (o : Observation) :
  success o = true <-> declared o = (constructed o, verified o).
Proof.
  unfold success, classify. destruct (declared o) as [ep ev].
  cbn [fst snd].
  destruct ep, ev, (constructed o), (verified o); cbn; split;
    intros H; try reflexivity; try discriminate H.
Qed.

Lemma is_result_line_of (o : Observation) : is_result (line_of o) = true.
Proof. reflexivity. Qed.

Lemma is_skip_line_of (o : Observation) : is_skip (line_of o) = false.
Proof. reflexivity. Qed.

Lemma filter_result_lines (os : list Observation) :
  List.filter is_result (map line_of os) = map line_of os.
Proof.
  induction os as [|o os IH]; [reflexivity|].
  cbn [map List.filter]. rewrite is_result_line_of, IH. reflexivity.
Qed.

Lemma filter_skip_lines (os : list Observation) :
  List.filter is_skip (map line_of os) = [].
Proof.
  induction os as [|o os IH]; [reflexivity|].
  cbn [map List.filter]. rewrite is_skip_line_of, IH. reflexivity.
Qed.

Lemma passed_entries (os : list Observation) :
  length (List.filter result (map entry_of os))
  = length (List.filter success os).
Proof.
  induction os as [|o os IH]; [reflexivity|].
  cbn [map List.filter]. unfold entry_of at 1. cbn [result].
  destruct (success o); cbn [length]; rewrite IH; reflexivity.
Qed.

Section ReportFacts.

Variable Proof : Type.
Variable VKeyRest : Type.
Variable fullProve : Input -> Exn + (Proof * list Z).
Variable verify : VKey VKeyRest -> list Z -> Proof -> bool.
Variable credHash : Z.
Variable srcHash : Z.
Variable vKey : VKey VKeyRest.

Local Abbreviation tryProve := (Prove.tryProve Proof fullProve).
Local Abbreviation expect_pass :=
  (Prove.expect_pass Proof VKeyRest fullProve verify vKey).
Local Abbreviation expect_fail := (Prove.expect_fail Proof fullProve).
Local Abbreviation S1_ok :=
  (Prove.S1_ok Proof VKeyRest fullProve verify credHash srcHash vKey).
Local Abbreviation scenarios :=
  (Prove.scenarios Proof VKeyRest fullProve verify credHash srcHash vKey).
Local Abbreviation main :=
  (Prove.main Proof VKeyRest fullProve verify credHash srcHash vKey).
Local Abbreviation after_S5b :=
  (Prove.after_S5b Proof VKeyRest fullProve verify credHash srcHash vKey).
Local Abbreviation observe_pass :=
  (Reporting.observe_pass Proof VKeyRest fullProve verify vKey).
Local Abbreviation observe_fail := (Reporting.observe_fail Proof fullProve).
Local Abbreviation observe_probe :=
  (Reporting.observe_probe Proof VKeyRest verify).
Local Abbreviation first_six_observed :=
  (Reporting.first_six_observed Proof VKeyRest fullProve verify credHash
     srcHash vKey).
Local Abbreviation probes_observed :=
  (Reporting.probes_observed Proof VKeyRest fullProve verify credHash
     srcHash vKey).
Local Abbreviation observed :=
  (Reporting.observed Proof VKeyRest fullProve verify credHash srcHash vKey).

Lemma report_fail_observed i n input st :
  report (expect_fail i n input st)
  = report st ++ [entry_of (observe_fail i n input)].
Proof.
  rewrite report_expect_fail.
  unfold entry_of, success, Reporting.observe_fail.
  cbn [scenario title declared constructed verified fst snd].
  rewrite <- classify_fail. reflexivity.
Qed.

Lemma console_fail_observed i n input st :
  console (expect_fail i n input st)
  = console st ++ [line_of (observe_fail i n input)].
Proof.
  rewrite console_expect_fail.
  unfold line_of, success, Reporting.observe_fail.
  cbn [scenario title declared constructed verified error_shown fst snd].
  rewrite <- classify_fail. reflexivity.
Qed.

Lemma report_pass_observed cache i n input st :
  report (expect_pass cache i n input st)
  = report st ++ [entry_of (observe_pass i n input)].
Proof.
  rewrite report_expect_pass.
  unfold entry_of, success, Reporting.observe_pass.
  cbn [scenario title declared constructed verified fst snd].
  rewrite <- classify_pass. reflexivity.
Qed.

Lemma console_pass_observed cache i n input st :
  console (expect_pass cache i n input st)
  = console st ++ [line_of (observe_pass i n input)].
Proof.
  unfold line_of, success, Reporting.observe_pass.
  cbn [scenario title declared constructed verified error_shown fst snd].
  rewrite <- classify_pass. reflexivity.
Qed.

Lemma report_probe_observed i n key ps pf (st : State Proof) :
  report (probe Proof i n (verify key ps pf) st)
  = report st ++ [entry_of (observe_probe i n key ps pf)].
Proof.
  unfold entry_of, success, Reporting.observe_probe.
  cbn [scenario title declared constructed verified fst snd].
  rewrite <- classify_probe. reflexivity.
Qed.

Lemma console_probe_observed i n key ps pf (st : State Proof) :
  console (probe Proof i n (verify key ps pf) st)
  = console st ++ [line_of (observe_probe i n key ps pf)].
Proof.
  unfold line_of, success, Reporting.observe_probe.
  cbn [scenario title declared constructed verified error_shown fst snd].
  rewrite <- classify_probe. reflexivity.
Qed.

Lemma passed_probe_observed i n key ps pf (st : State Proof) :
  passed (probe Proof i n (verify key ps pf) st)
  = (passed st
     + length (List.filter success [observe_probe i n key ps pf]))%nat.
Proof.
  cbn [passed probe List.filter].
  unfold success, Reporting.observe_probe.
  cbn [declared constructed verified fst snd].
  destruct (verify key ps pf); cbn; lia.
Qed.

Lemma report_after_S5b_observed :
  report after_S5b = map entry_of first_six_observed.
Proof.
  unfold Prove.after_S5b, Prove.S5b, Prove.S5a, Prove.S4, Prove.S3,
    Prove.S2, Prove.S1.
  repeat (rewrite report_fail_observed || rewrite report_pass_observed).
  reflexivity.
Qed.

Lemma console_after_S5b_observed :
  console after_S5b = Banner :: map line_of first_six_observed.
Proof.
  unfold Prove.after_S5b, Prove.S5b, Prove.S5a, Prove.S4, Prove.S3,
    Prove.S2, Prove.S1.
  repeat (rewrite console_fail_observed || rewrite console_pass_observed).
  reflexivity.
Qed.

Lemma probes_skipped : S1_ok = false -> probes_observed = [].
Proof.
  unfold Prove.S1_ok, Reporting.probes_observed.
  destruct (Prove.tryProve Proof fullProve (baseline credHash srcHash))
    as [pf ps|e]; [|reflexivity].
  intros ->. reflexivity.
Qed.

Lemma probes_run pf ps :
  tryProve (baseline credHash srcHash) = Proved pf ps ->
  verify vKey ps pf = true ->
  probes_observed
  = observe_probe "S6" name_S6 vKey (tamper ps) pf
    :: match badVkey vKey with
       | Some bad => [observe_probe "S7" name_S7 bad ps pf]
       | None => []
       end.
Proof.
  intros Hr Hv. unfold Reporting.probes_observed. rewrite Hr, Hv.
  reflexivity.
Qed.

(** C9, as amended.  In a run in which every thrown value can be read
    by the handler and the verifier answers (such a run of the general
    runner is the run [main] of section [Harness]), what [main] prints
    and appends is what the test plan asks for, scenario by scenario.
    Each of S1 to S5b prints one result and appends one entry; S6 and
    S7 do so only when S1 passed, and otherwise print a SKIP line and
    append nothing.  The pair printed with a result is the observed
    one (was a proof constructed by [fullProve], what did the verifier
    answer, where it was asked); the result printed and appended is
    success exactly when that pair is the declared pair; [passed]
    counts the successes.  When the run reaches the summary, the saved
    report is the list of appended entries.  When S7 throws (a key
    without [IC[0][0]]), the results of S1 to S6 have been printed,
    nothing is saved and the run exits with status 1. *)
Theorem report_completeness :
  Thrown.main Proof VKeyRest (Thrown.readable fullProve) verify credHash
    srcHash vKey = main
  /\ (forall o : Observation,
        success o = true <-> declared o = (constructed o, verified o))
  /\ match scenarios with
     | Continue st =>
         report st = map entry_of observed
         /\ List.filter is_result (console st) = map line_of observed
         /\ passed st = length (List.filter success observed)
         /\ map scenario observed
            = first_six ++ (if S1_ok then ["S6"; "S7"]%string else [])
         /\ List.filter is_skip (console st)
            = (if S1_ok then [] else [Skip "S6"; Skip "S7"])
         /\ main
            = {| run_console :=
                   console st
                   ++ [Summary (passed st) (length (report st)); Saved];
                 test_results := Some (report st);
                 exit_status := None |}
     | Threw st =>
         S1_ok = true
         /\ badVkey vKey = None
         /\ map scenario observed = first_six ++ ["S6"%string]
         /\ report st = map entry_of observed
         /\ List.filter is_result (console st) = map line_of observed
         /\ test_results main = None
         /\ exit_status main = Some 1
     end.
Proof.
  split; [apply ReadableFacts.main_readable|].
  split; [exact success_iff|].
  pose proof report_after_S5b_observed as HR.
  pose proof console_after_S5b_observed as HC.
  pose proof (Track_after_S5b Proof VKeyRest fullProve verify
                credHash srcHash vKey) as (_ & HP & _ & _).
  unfold Prove.main, Reporting.observed.
  destruct (scenarios_Ending Proof VKeyRest fullProve verify credHash
              srcHash vKey)
    as [Hok|pf ps bad Hok Hr Hv Hbad|pf ps Hok Hr Hv Hbad];
    set (st5 := after_S5b) in *; clearbody st5.
  - rewrite (probes_skipped Hok), Hok, !app_nil_r.
    cbn [report console passed skip].
    rewrite HR, HC, !List.filter_app, HP, HR, passed_entries.
    cbn [List.filter is_result is_skip app].
    rewrite filter_result_lines, filter_skip_lines.
    repeat split; reflexivity.
  - rewrite (probes_run pf ps Hr Hv), Hbad, Hok.
    rewrite !report_probe_observed, !console_probe_observed,
      !passed_probe_observed.
    rewrite HR, HC.
    split.
    { rewrite <- !app_assoc. reflexivity. }
    split.
    { rewrite !List.filter_app. cbn [List.filter is_result].
      rewrite filter_result_lines, !is_result_line_of.
      rewrite map_app, <- !app_assoc. reflexivity. }
    split.
    { rewrite HP, HR, passed_entries.
      change [observe_probe "S6" name_S6 vKey (tamper ps) pf;
              observe_probe "S7" name_S7 bad ps pf]
        with ([observe_probe "S6" name_S6 vKey (tamper ps) pf]
              ++ [observe_probe "S7" name_S7 bad ps pf]).
      rewrite !List.filter_app, !length_app. lia. }
    split; [reflexivity|].
    split.
    { rewrite !List.filter_app. cbn [List.filter is_skip].
      rewrite filter_skip_lines, !is_skip_line_of. reflexivity. }
    reflexivity.
  - split; [exact Hok|]. split; [exact Hbad|].
    rewrite (probes_run pf ps Hr Hv), Hbad.
    rewrite !report_probe_observed, !console_probe_observed.
    rewrite HR, HC.
    split; [reflexivity|].
    split.
    { rewrite map_app. reflexivity. }
    split.
    { rewrite !List.filter_app. cbn [List.filter is_result].
      rewrite filter_result_lines, !is_result_line_of.
      rewrite map_app. reflexivity. }
    split; reflexivity.
Qed.

End ReportFacts.
End ReportFacts.

Module ThrownFacts.
Import Prove Probes.

Section ThrownFacts.

Variable Proof : Type.
Variable VKeyRest : Type.
Variable verify : VKey VKeyRest -> list Z -> Proof -> bool.
Variable credHash : Z.
Variable srcHash : Z.
Variable vKey : VKey VKeyRest.

Variable fullProve : Input -> Thrown.Thrown + (Proof * list Z).

Local Abbreviation S2 := (Thrown.S2 Proof fullProve credHash srcHash).
Local Abbreviation S3 := (Thrown.S3 Proof fullProve credHash srcHash).
Local Abbreviation S4 := (Thrown.S4 Proof fullProve credHash srcHash).
Local Abbreviation S5b := (Thrown.S5b Proof fullProve credHash srcHash).
Local Abbreviation main :=
  (Thrown.main Proof VKeyRest fullProve verify credHash srcHash vKey).

Lemma expect_fail_Readable i n input e st :
  fullProve input = inl (Thrown.Readable e) ->
  Thrown.recorded_pass st (Thrown.expect_fail Proof fullProve i n input st)
    i (error_text e).
Proof.
  intros H. unfold Thrown.recorded_pass, Thrown.expect_fail,
    Thrown.tryProve.
  rewrite H. eexists. split; [reflexivity|].
  split; [reflexivity|]. exists n. split; reflexivity.
Qed.

Lemma expect_fail_Nullish i n input st :
  fullProve input = inl Thrown.Nullish ->
  Thrown.expect_fail Proof fullProve i n input st = Threw st.
Proof.
  intros H. unfold Thrown.expect_fail, Thrown.tryProve. rewrite H.
  reflexivity.
Qed.

(** C10, as amended.  The caught error is never inspected: whatever
    value the proving pipeline throws on the input of S2, S3, S4 or S5b,
    provided the handler can read it, that block records a pass and
    prints the error's text; and when every call of [fullProve] throws
    such a value (a missing wasm or zkey file, say), the saved report
    marks all four expected-failure scenarios as passed.  A thrown
    [null] or [undefined] is not such a value: the handler itself
    throws, the block records nothing, and the run ends in
    [main().catch] with status 1 and no report. *)
Theorem expected_failure_passes_on_readable_exception (e : Exn)
    (st : State Proof) :
  (fullProve (input_S2 credHash srcHash) = inl (Thrown.Readable e) ->
     Thrown.recorded_pass st (S2 st) "S2" (error_text e))
  /\ (fullProve (input_S3 credHash srcHash) = inl (Thrown.Readable e) ->
       Thrown.recorded_pass st (S3 st) "S3" (error_text e))
  /\ (fullProve (input_S4 credHash srcHash) = inl (Thrown.Readable e) ->
       Thrown.recorded_pass st (S4 st) "S4" (error_text e))
  /\ (fullProve (input_S5b credHash srcHash) = inl (Thrown.Readable e) ->
       Thrown.recorded_pass st (S5b st) "S5b" (error_text e))
  /\ ((forall input, fullProve input = inl (Thrown.Readable e)) ->
      option_map (map (fun r => (id r, result r))) (test_results main)
      = Some [("S1", false); ("S2", true); ("S3", true); ("S4", true);
              ("S5a", false); ("S5b", true)]%string)
  /\ (fullProve (input_S2 credHash srcHash) = inl Thrown.Nullish ->
      S2 st = Threw st)
  /\ (fullProve (input_S3 credHash srcHash) = inl Thrown.Nullish ->
      S3 st = Threw st)
  /\ (fullProve (input_S4 credHash srcHash) = inl Thrown.Nullish ->
      S4 st = Threw st)
  /\ (fullProve (input_S5b credHash srcHash) = inl Thrown.Nullish ->
      S5b st = Threw st)
  /\ ((forall input, fullProve input = inl Thrown.Nullish) ->
      main = {| run_console := [Banner]; test_results := None;
                exit_status := Some 1 |}).
Proof.
  split; [apply expect_fail_Readable|].
  split; [apply expect_fail_Readable|].
  split; [apply expect_fail_Readable|].
  split; [apply expect_fail_Readable|].
  split.
  { intros H. unfold Thrown.main, Thrown.scenarios, Thrown.S1, Thrown.S2,
      Thrown.S3, Thrown.S4, Thrown.S5a, Thrown.S5b, Thrown.expect_pass,
      Thrown.expect_fail, Thrown.tryProve.
    rewrite !H. vm_compute. reflexivity. }
  split; [apply expect_fail_Nullish|].
  split; [apply expect_fail_Nullish|].
  split; [apply expect_fail_Nullish|].
  split; [apply expect_fail_Nullish|].
  intros H. unfold Thrown.main, Thrown.scenarios, Thrown.S1,
    Thrown.expect_pass, Thrown.tryProve.
  rewrite H. reflexivity.
Qed.

End ThrownFacts.

(** C10, the claim as stated fails: the pipeline throws the error of the
    missing wasm file on the input of S1 and [null] on the input of S2.
    An exception was thrown for S2, yet S2 is not classified: the run
    ends in [main().catch] with status 1 when S2 awaits [tryProve]; only
    the result of S1 has been printed and no report is saved. *)
Lemma expected_failure_counterexample :
  Demo3.null_at_S2 (input_S2 0 0) = inl Thrown.Nullish
  /\ test_results Demo3.run_null_at_S2 = None
  /\ exit_status Demo3.run_null_at_S2 = Some 1
  /\ printed_ids (run_console Demo3.run_null_at_S2) = ["S1"%string].
Proof. repeat split; vm_compute; reflexivity. Qed.

(** C10 as amended, in the run without build artifacts. *)
Lemma expected_failure_passes_witness :
  (forall input,
     Thrown.readable Demo.no_artifacts input
     = inl (Thrown.Readable Demo.missing_wasm))
  /\ option_map (map (fun r => (id r, result r)))
       (test_results Demo3.run_without_artifacts)
     = Some [("S1", false); ("S2", true); ("S3", true); ("S4", true);
             ("S5a", false); ("S5b", true)]%string.
Proof.
  assert (H : forall input,
            Thrown.readable Demo.no_artifacts input
            = inl (Thrown.Readable Demo.missing_wasm))
    by reflexivity.
  split; [exact H|].
  exact (proj1 (proj2 (proj2 (proj2 (proj2
    (expected_failure_passes_on_readable_exception unit unit Demo.accept_all
       0 0 Demo.empty_key (Thrown.readable Demo.no_artifacts)
       Demo.missing_wasm (init unit))))))
    H).
Defined.

End ThrownFacts.

(* ===================================================================== *)
(** * Part XI.  The runner on the circuit                                 *)
(* ===================================================================== *)

Module SuiteFacts.
Import Prove Probes HarnessFacts.
Import Circomlib Circuit FieldFacts GadgetFacts CircuitFacts DemoFacts.

Lemma to_Z_one_minus_b2F (b : bool) :
  Zmod.to_Z (Zmod.one - b2F b : F)%Zmod = Z.b2z (negb b).
Proof. rewrite one_minus_b2F. apply b2F_to_Z. Qed.

Section SuiteFacts.

Variable Poseidon1 : F -> F.
Variable Poseidon2 : F -> F -> F.
Variable Proof : Type.
Variable VKeyRest : Type.
Variable prove : Signals -> Proof.
Variable verify : VKey VKeyRest -> list Z -> Proof -> bool.
Variable vKey : VKey VKeyRest.

Local Abbreviation sat := (satisfies Poseidon1 Poseidon2).
Local Abbreviation okay := (accepted Poseidon1 Poseidon2).

(** [credHash] and [srcHash] as lines 54-55 of prove.js compute them. *)
Local Abbreviation credHash :=
  (Zmod.to_Z (Poseidon2 (Demo.fe 123) (Demo.fe 456))).
Local Abbreviation srcHash := (Zmod.to_Z (Poseidon1 (Demo.fe 1))).
Local Abbreviation fullProve :=
  (Pipeline.fullProve Poseidon1 Poseidon2 Proof prove).
Local Abbreviation tryProve := (Prove.tryProve Proof fullProve).
Local Abbreviation after_S5b :=
  (Prove.after_S5b Proof VKeyRest fullProve verify credHash srcHash vKey).
Local Abbreviation S1_ok :=
  (Prove.S1_ok Proof VKeyRest fullProve verify credHash srcHash vKey).

(** X13 (what S6 asks the verifier).  The copy of the public signals that
    S6 hands to the verifier is the public input vector of the same
    assignment with the opposite outcome, a statement that the
    assignment's own inputs do not satisfy. *)
Theorem tampered_signals_flip_outcome (w : Signals) :
  sat w ->
  let i := inputs w in
  tamper (publicSignals w)
  = map Zmod.to_Z
      [ doctorCredentialHash i; trustedSourceHash i; requiredAction i;
        deltaMax i; (Zmod.one - outcome i)%Zmod ]
  /\ tamper (publicSignals w) <> publicSignals w
  /\ forall w', inputs w' = with_outcome (Zmod.one - outcome i)%Zmod i ->
       ~ sat w'.
Proof.
  intros Hw i.
  destruct (satisfies_forced _ _ w Hw) as (_ & _ & _ & _ & _ & _ & Ho).
  cbv zeta in Ho. fold i in Ho.
  set (b := freshBit i && noContraBit i) in *.
  assert (Ht : tamper (publicSignals w)
               = map Zmod.to_Z
                   [ doctorCredentialHash i; trustedSourceHash i;
                     requiredAction i; deltaMax i;
                     (Zmod.one - outcome i)%Zmod ]).
  { unfold tamper, publicSignals. fold i. cbv zeta.
    cbn [map length Nat.sub lookup list_lookup insert list_insert].
    rewrite Ho, to_Z_one_minus_b2F, b2F_to_Z.
    destruct b; reflexivity. }
  split; [exact Ht|]. split.
  - rewrite Ht. unfold publicSignals. fold i. cbn [map].
    rewrite Ho, to_Z_one_minus_b2F, b2F_to_Z.
    destruct b; cbn [negb Z.b2z]; intros H; discriminate H.
  - intros w' Hi Hw'.
    destruct (satisfies_forced _ _ w' Hw') as (_ & _ & _ & _ & _ & _ & Ho').
    cbv zeta in Ho'. rewrite Hi in Ho'.
    unfold freshBit, noContraBit in Ho'.
    cbn [with_outcome outcome dataAge deltaMax allergyClassId
         medicationClassId] in Ho'.
    fold (freshBit i) (noContraBit i) b in Ho'.
    rewrite Ho, one_minus_b2F in Ho'. apply b2F_inj in Ho'.
    destruct b; discriminate Ho'.
Qed.

Lemma tryProve_accepted (input : Input) :
  okay (Pipeline.to_signals input) ->
  exists w, tryProve input = Proved (prove w) (publicSignals w) /\ sat w.
Proof.
  intros H. destruct (calcWitness_complete _ _ _ H) as [w Hw].
  exists w. split; [|apply (calcWitness_sound _ _ _ _ Hw)].
  unfold Prove.tryProve, Pipeline.fullProve. rewrite Hw. reflexivity.
Qed.

Lemma tryProve_rejected (input : Input) :
  ~ okay (Pipeline.to_signals input) ->
  tryProve input = Failed "Error: Assert Failed.".
Proof.
  intros H.
  assert (Hn : calcWitness Poseidon1 Poseidon2 (Pipeline.to_signals input)
               = None).
  { destruct (calcWitness Poseidon1 Poseidon2 (Pipeline.to_signals input))
      as [w|] eqn:E; [|reflexivity].
    exfalso. apply H. apply accepted_iff_calcWitness. exists w. exact E. }
  unfold Prove.tryProve, Pipeline.fullProve. rewrite Hn. reflexivity.
Qed.

Hypothesis proof_system_complete :
  Pipeline.complete Poseidon1 Poseidon2 Proof (VKey VKeyRest) prove verify
    vKey.
Hypothesis secret_binds :
  Poseidon2 (Demo.fe 123) (Demo.fe 999)
  <> Poseidon2 (Demo.fe 123) (Demo.fe 456).
Hypothesis source_binds : Poseidon1 (Demo.fe 99) <> Poseidon1 (Demo.fe 1).

Lemma hard_literal (input : Input) :
  Prove.doctorId input = 123 -> Prove.doctorSecret input = 456 ->
  Prove.sourceId input = 1 ->
  Prove.authorizedAction input = 1 -> Prove.requiredAction input = 1 ->
  Prove.doctorCredentialHash input = credHash ->
  Prove.trustedSourceHash input = srcHash ->
  hard_checks Poseidon1 Poseidon2 (Pipeline.to_signals input).
Proof.
  intros E1 E2 E3 E4 E5 E6 E7.
  unfold hard_checks, Pipeline.to_signals.
  cbn [doctorId doctorSecret doctorCredentialHash sourceId
       trustedSourceHash authorizedAction requiredAction].
  rewrite E1, E2, E3, E4, E5, E6, E7, !Zmod.of_Z_unsigned.
  repeat split.
Qed.

Lemma okay_S1 : okay (Pipeline.to_signals (baseline credHash srcHash)).
Proof.
  split; [apply hard_literal; reflexivity|]. split.
  - unfold comparator_accepts. vm_compute. reflexivity.
  - apply fe_eq. vm_compute. reflexivity.
Qed.

Lemma okay_S5a : okay (Pipeline.to_signals (input_S5a credHash srcHash)).
Proof.
  split; [apply hard_literal; reflexivity|]. split.
  - unfold comparator_accepts. vm_compute. reflexivity.
  - apply fe_eq. vm_compute. reflexivity.
Qed.

Lemma not_okay_S2 : ~ okay (Pipeline.to_signals (input_S2 credHash srcHash)).
Proof.
  intros ((H & _) & _). apply secret_binds.
  unfold Pipeline.to_signals in H.
  cbn [doctorId doctorSecret doctorCredentialHash input_S2
       Prove.doctorId Prove.doctorSecret Prove.doctorCredentialHash] in H.
  rewrite Zmod.of_Z_unsigned in H. exact H.
Qed.

Lemma not_okay_S3 : ~ okay (Pipeline.to_signals (input_S3 credHash srcHash)).
Proof.
  intros ((_ & H & _) & _). apply source_binds.
  unfold Pipeline.to_signals in H.
  cbn [sourceId trustedSourceHash input_S3
       Prove.sourceId Prove.trustedSourceHash] in H.
  rewrite Zmod.of_Z_unsigned in H. exact H.
Qed.

Lemma not_okay_S4 : ~ okay (Pipeline.to_signals (input_S4 credHash srcHash)).
Proof.
  intros (_ & _ & H). apply (f_equal Zmod.to_Z) in H.
  vm_compute in H. discriminate H.
Qed.

Lemma not_okay_S5b :
  ~ okay (Pipeline.to_signals (input_S5b credHash srcHash)).
Proof.
  intros (_ & _ & H). apply (f_equal Zmod.to_Z) in H.
  vm_compute in H. discriminate H.
Qed.

(** X14 (the expectations of the suite are those of the circuit).  With a
    complete proof system, and Poseidon separating the forged secret and
    the foreign source from the registered ones, each of S1 to S5b ends as
    the runner expects: the six entries are saved as passed, six passes
    are counted, and S1 leaves its proof in the cache for S6 and S7. *)
Theorem suite_agrees_with_circuit :
  map (fun r => (id r, result r)) (report after_S5b)
    = [("S1", true); ("S2", true); ("S3", true); ("S4", true);
       ("S5a", true); ("S5b", true)]%string
  /\ passed after_S5b = 6%nat
  /\ S1_ok = true
  /\ proofCache after_S5b !! "S1"%string
     = Some (tryProve (baseline credHash srcHash)).
Proof.
  destruct (tryProve_accepted _ okay_S1) as (w1 & E1 & Hw1).
  destruct (tryProve_accepted _ okay_S5a) as (w5 & E5 & Hw5).
  pose proof (tryProve_rejected _ not_okay_S2) as E2.
  pose proof (tryProve_rejected _ not_okay_S3) as E3.
  pose proof (tryProve_rejected _ not_okay_S4) as E4.
  pose proof (tryProve_rejected _ not_okay_S5b) as E6.
  assert (Hrep : map (fun r => (id r, result r)) (report after_S5b)
    = [("S1", true); ("S2", true); ("S3", true); ("S4", true);
       ("S5a", true); ("S5b", true)]%string).
  { unfold Prove.after_S5b, Prove.S5b, Prove.S5a, Prove.S4, Prove.S3,
      Prove.S2, Prove.S1.
    repeat (rewrite report_expect_fail || rewrite report_expect_pass).
    rewrite E1, E2, E3, E4, E5, E6.
    rewrite (proof_system_complete w1 Hw1), (proof_system_complete w5 Hw5).
    reflexivity. }
  assert (Hok : S1_ok = true).
  { unfold Prove.S1_ok. rewrite E1. apply proof_system_complete, Hw1. }
  split; [exact Hrep|]. split; [|split; [exact Hok|]].
  - destruct (Track_after_S5b Proof VKeyRest fullProve verify credHash
                srcHash vKey) as (_ & HP & _ & _).
    rewrite HP.
    rewrite <- (length_map (fun r => (id r, result r))).
    assert (Hf : map (fun r => (id r, result r))
                   (List.filter result (report after_S5b))
                 = List.filter snd
                     (map (fun r => (id r, result r)) (report after_S5b))).
    { generalize (report after_S5b). intros rep.
      induction rep as [|r rep IH]; [reflexivity|].
      cbn [List.filter map snd]. destruct (result r) eqn:E; cbn [map];
        rewrite IH, ?E; reflexivity. }
    rewrite Hf, Hrep. reflexivity.
  - rewrite (proofCache_after_S5b Proof VKeyRest fullProve verify credHash
               srcHash vKey), Hok.
    apply lookup_singleton_eq.
Qed.

End SuiteFacts.

(** X13 at the baseline. *)
Lemma tampered_signals_flip_outcome_witness :
  exists w,
    inputs w = Demo.baseline
    /\ satisfies Demo.hash1 Demo.hash2 w
    /\ tamper (publicSignals w) <> publicSignals w.
Proof.
  destruct (calcWitness_complete _ _ _ demo_baseline_accepted) as [w Hw].
  destruct (calcWitness_sound _ _ _ _ Hw) as [Hi Hs].
  exists w. split; [exact Hi|]. split; [exact Hs|].
  exact (proj1 (proj2
           (tampered_signals_flip_outcome Demo.hash1 Demo.hash2 w Hs))).
Defined.

Lemma verify_key_complete (good : string) :
  Pipeline.complete Demo.hash1 Demo.hash2 Signals (VKey unit) Demo.prove
    (Demo2.verify_key good) (Demo2.key good).
Proof.
  intros w Hw. unfold Demo2.verify_key, Demo2.key. cbn [IC].
  rewrite String.eqb_refl, andb_true_r. apply demo_complete. exact Hw.
Qed.

(** X14 for the stand-in hashes and the transparent proof system. *)
Lemma suite_agrees_with_circuit_witness :
  Demo.hash2 (Demo.fe 123) (Demo.fe 999)
    <> Demo.hash2 (Demo.fe 123) (Demo.fe 456)
  /\ Demo.hash1 (Demo.fe 99) <> Demo.hash1 (Demo.fe 1)
  /\ passed
       (Prove.after_S5b Signals unit
          (Pipeline.fullProve Demo.hash1 Demo.hash2 Signals Demo.prove)
          (Demo2.verify_key "123456")
          (Zmod.to_Z (Demo.hash2 (Demo.fe 123) (Demo.fe 456)))
          (Zmod.to_Z (Demo.hash1 (Demo.fe 1)))
          (Demo2.key "123456")) = 6%nat.
Proof.
  assert (H2 : Demo.hash2 (Demo.fe 123) (Demo.fe 999)
               <> Demo.hash2 (Demo.fe 123) (Demo.fe 456))
    by (apply fe_neq; vm_compute; discriminate).
  assert (H1 : Demo.hash1 (Demo.fe 99) <> Demo.hash1 (Demo.fe 1))
    by (apply fe_neq; vm_compute; discriminate).
  split; [exact H2|]. split; [exact H1|].
  exact (proj1 (proj2
           (suite_agrees_with_circuit Demo.hash1 Demo.hash2 Signals unit
              Demo.prove (Demo2.verify_key "123456") (Demo2.key "123456")
              (verify_key_complete "123456") H2 H1))).
Defined.

End SuiteFacts.

(* ===================================================================== *)
(** * Part XII.  Further properties of the ceremony script                *)
(* ===================================================================== *)

Module CeremonyRunFacts.
Import Ceremony CeremonyLog CeremonyFacts.

Lemma saved_logs_app a b : saved_logs (a ++ b) = saved_logs a ++ saved_logs b.
Proof. unfold saved_logs. apply flat_map_app. Qed.

Lemma saved_logs_Called cs : saved_logs (map Called cs) = [].
Proof. induction cs as [|c cs IH]; [reflexivity|exact IH]. Qed.

Lemma saved_logs_setup w : saved_logs (setup_events w) = [].
Proof. unfold setup_events. destruct (build_dir_exists w); reflexivity. Qed.

(** Either no call of the list throws, or there is a first one that does. *)
Lemma first_throw (w : World) (cs : list Call) :
  (existsb (throws w) cs = false /\ Forall (fun c => throws w c = false) cs)
  \/ (existsb (throws w) cs = true
      /\ exists pre c post,
           cs = pre ++ c :: post
           /\ Forall (fun x => throws w x = false) pre
           /\ throws w c = true).
Proof.
  induction cs as [|c cs IH].
  - left. split; [reflexivity|apply List.Forall_nil].
  - cbn [existsb]. destruct (throws w c) eqn:E.
    + right. split; [reflexivity|].
      exists [], c, cs. split; [reflexivity|].
      split; [apply List.Forall_nil|exact E].
    + destruct IH as [[H1 H2]|[H1 (pre & x & post & -> & Hp & Hx)]].
      * left. split; [exact H1|]. apply List.Forall_cons; assumption.
      * right. split; [exact H1|].
        exists (c :: pre), x, post. split; [reflexivity|].
        split; [apply List.Forall_cons; assumption|exact Hx].
Qed.

(** The trace of a run in which the call [c] is the first to throw. *)
Lemma run_later_throw w pre c post : forall st,
  Forall (fun x => throws w x = false) pre ->
  throws w c = true ->
  events (run_later w (pre ++ c :: post) st)
  = events st ++ map Called pre ++ [Called c; ConsoleError; Exit 1].
Proof.
  induction pre as [|x pre IH]; intros st Hpre Hc.
  - cbn [app run_later map]; cbv zeta. rewrite Hc.
    unfold emit. cbn [events]. rewrite events_log_all.
    rewrite <- !app_assoc. reflexivity.
  - apply List.Forall_cons_iff in Hpre. destruct Hpre as [Hx Hpre].
    cbn [app run_later map]; cbv zeta. rewrite Hx.
    rewrite (IH _ Hpre Hc), events_log_all. unfold emit. cbn [events].
    rewrite events_log_all, <- !app_assoc. reflexivity.
Qed.

Lemma summary_last w st :
  last (lines (summary w st))
  = Some (String.append "Ceremony finished at: " (now w)).
Proof. unfold summary. cbv zeta. cbn [lines log]. apply last_snoc. Qed.

(** The trace of a run in which no call throws. *)
Lemma run_later_ok w cs : forall st,
  Forall (fun x => throws w x = false) cs ->
  events (run_later w cs st)
  = events st ++ map Called cs ++ [SaveLog (lines (run_later w cs st))]
  /\ last (lines (run_later w cs st))
     = Some (String.append "Ceremony finished at: " (now w)).
Proof.
  induction cs as [|c cs IH]; intros st Hcs.
  - cbn [run_later map app]. unfold save, emit. cbn [events lines].
    destruct (summary_extends w st) as [He _]. rewrite He.
    split; [reflexivity|apply summary_last].
  - apply List.Forall_cons_iff in Hcs. destruct Hcs as [Hc Hcs].
    cbn [run_later map]; cbv zeta. rewrite Hc.
    destruct (IH (log_all (log_after w c)
                    (emit (Called c) (log_all (log_before w c) st))) Hcs)
      as [He Hl].
    split; [|exact Hl].
    rewrite He, events_log_all. unfold emit. cbn [events].
    rewrite events_log_all, <- !app_assoc. reflexivity.
Qed.

(** When the compile step lets the script go on, the rest of [main] is
    [run_later] on a state whose only effects are those of the set-up. *)
Lemma main_proceeds (w : World) :
  proceeds w = true ->
  exists st0, main w = run_later w later_calls st0
              /\ events st0 = setup_events w.
Proof.
  unfold proceeds, main, setup_events. cbv zeta.
  destruct (exec_circom w) as [out|so se]; intros Hp.
  - eexists. split; [reflexivity|].
    destruct (build_dir_exists w); reflexivity.
  - rewrite Hp. cbn [negb]. eexists. split; [reflexivity|].
    destruct (build_dir_exists w); reflexivity.
Qed.

Lemma main_aborts (w : World) :
  proceeds w = false ->
  events (main w) = setup_events w ++ [SaveLog (lines (main w)); Exit 1].
Proof.
  unfold proceeds, main, setup_events. cbv zeta.
  destruct (exec_circom w) as [out|so se]; intros Hp; [discriminate|].
  rewrite Hp. cbn [negb].
  destruct (build_dir_exists w); reflexivity.
Qed.

(** X15 (a failure after the compile step loses the log).  When the compile
    step lets the script go on and [c] is the first later call to throw, the
    calls before [c] and [c] itself are made, in order, the error is printed
    and the script exits with status 1: no later call is made and
    [ceremony_log.txt] is never written. *)
Theorem later_failure_loses_log (w : World) (pre : list Call) (c : Call)
    (post : list Call) :
  proceeds w = true ->
  later_calls = pre ++ c :: post ->
  Forall (fun x => throws w x = false) pre ->
  throws w c = true ->
  events (main w)
    = setup_events w ++ map Called pre ++ [Called c; ConsoleError; Exit 1]
  /\ saved_logs (events (main w)) = [].
Proof.
  intros Hp Hsplit Hpre Hc.
  destruct (main_proceeds w Hp) as (st0 & Hmain & Hev).
  assert (He : events (main w)
    = setup_events w ++ map Called pre ++ [Called c; ConsoleError; Exit 1]).
  { rewrite Hmain, Hsplit, (run_later_throw w pre c post st0 Hpre Hc), Hev.
    reflexivity. }
  split; [exact He|].
  rewrite He, !saved_logs_app, saved_logs_setup, saved_logs_Called.
  reflexivity.
Qed.

(** X16 (a ceremony without failures).  When the compile step lets the
    script go on and no later call throws, all twenty calls are made in
    source order, nothing exits, and the last effect is the one write of the
    log file, which holds every line logged, down to the closing ["Ceremony
    finished at: ..."]. *)
Theorem complete_ceremony (w : World) :
  proceeds w = true ->
  (forall c, throws w c = false) ->
  events (main w)
    = setup_events w ++ map Called later_calls ++ [SaveLog (lines (main w))]
  /\ saved_logs (events (main w)) = [lines (main w)]
  /\ last (lines (main w))
     = Some (String.append "Ceremony finished at: " (now w)).
Proof.
  intros Hp Hno.
  destruct (main_proceeds w Hp) as (st0 & Hmain & Hev).
  assert (Hall : Forall (fun x => throws w x = false) later_calls)
    by (apply List.Forall_forall; intros c _; apply Hno).
  destruct (run_later_ok w later_calls st0 Hall) as [He Hl].
  rewrite <- Hmain in He, Hl. rewrite Hev in He.
  split; [exact He|]. split; [|exact Hl].
  rewrite He, !saved_logs_app, saved_logs_setup, saved_logs_Called.
  reflexivity.
Qed.

(** X17 (the log file and the exit status).  In a run in which nothing
    fails except, possibly, the compile command and the twenty calls that
    follow it (the header of lines 51 to 55 completes and the log file can
    be written): the log is written at most once, and then with every line
    logged; it is missing exactly when the script got past the compile
    step and one of the twenty calls threw; and the script exits with
    status 1 exactly when the compile step aborted or one of the twenty
    calls threw. *)
Theorem log_and_exit (w : World) :
  saved_logs (events (main w))
    = (if proceeds w && existsb (throws w) later_calls then []
       else [lines (main w)])
  /\ (In (Exit 1) (events (main w))
      <-> proceeds w = false \/ existsb (throws w) later_calls = true).
Proof.
  destruct (proceeds w) eqn:Hp.
  - destruct (main_proceeds w Hp) as (st0 & Hmain & Hev).
    destruct (first_throw w later_calls)
      as [[Hex Hall]|[Hex (pre & c & post & Hsplit & Hpre & Hc)]];
      rewrite Hex; cbn [andb].
    + destruct (run_later_ok w later_calls st0 Hall) as [He _].
      rewrite <- Hmain in He. rewrite Hev in He.
      split.
      * rewrite He, !saved_logs_app, saved_logs_setup, saved_logs_Called.
        reflexivity.
      * split; [|intros [H|H]; discriminate H].
        intros Hin. exfalso. rewrite He in Hin.
        apply in_app_or in Hin. destruct Hin as [Hin|Hin].
        { unfold setup_events in Hin.
          destruct (build_dir_exists w); cbn [app In] in Hin;
            intuition discriminate. }
        apply in_app_or in Hin. destruct Hin as [Hin|[Hin|[]]];
          [|discriminate Hin].
        apply in_map_iff in Hin. destruct Hin as (x & Hx & _).
        discriminate Hx.
    + assert (He : events (main w)
        = setup_events w ++ map Called pre
          ++ [Called c; ConsoleError; Exit 1]).
      { rewrite Hmain, Hsplit, (run_later_throw w pre c post st0 Hpre Hc),
          Hev. reflexivity. }
      split.
      * rewrite He, !saved_logs_app, saved_logs_setup, saved_logs_Called.
        reflexivity.
      * split; [intros _; right; reflexivity|]. intros _. rewrite He.
        apply in_or_app. right. apply in_or_app. right.
        right. right. left. reflexivity.
  - cbn [andb]. rewrite (main_aborts w Hp). split.
    + rewrite saved_logs_app, saved_logs_setup. reflexivity.
    + split; [intros _; left; reflexivity|]. intros _.
      apply in_or_app. right. right. left. reflexivity.
Qed.

(** X15 for a ceremony whose proof generation throws: fourteen calls before
    it, none after it, no log. *)
Lemma later_failure_loses_log_witness :
  proceeds Demo2.failing_proof = true
  /\ throws Demo2.failing_proof FullProve = true
  /\ events (main Demo2.failing_proof)
     = setup_events Demo2.failing_proof
       ++ map Called
            [ R1csInfo; NewAccumulator; PtauContribute1; PtauContribute2;
              PtauVerify; PreparePhase2; NewZKey; ZkeyContribute1;
              ZkeyContribute2; ZkeyVerifyFromR1cs; ExportVerificationKey;
              WriteVerificationKey; BuildPoseidon; WriteInput ]
       ++ [Called FullProve; ConsoleError; Exit 1]
  /\ saved_logs (events (main Demo2.failing_proof)) = [].
Proof.
  assert (Hp : proceeds Demo2.failing_proof = true) by reflexivity.
  assert (Hc : throws Demo2.failing_proof FullProve = true) by reflexivity.
  split; [exact Hp|]. split; [exact Hc|].
  apply (later_failure_loses_log Demo2.failing_proof
           [ R1csInfo; NewAccumulator; PtauContribute1; PtauContribute2;
             PtauVerify; PreparePhase2; NewZKey; ZkeyContribute1;
             ZkeyContribute2; ZkeyVerifyFromR1cs; ExportVerificationKey;
             WriteVerificationKey; BuildPoseidon; WriteInput ]
           FullProve
           [ WriteProof; WritePublic; Groth16Verify; ExportSolidityVerifier;
             WriteSolidity ] Hp eq_refl).
  - repeat (apply List.Forall_cons; [reflexivity|]). apply List.Forall_nil.
  - exact Hc.
Defined.

(** X16 for a ceremony in which every call returns. *)
Lemma complete_ceremony_witness :
  proceeds Demo2.good_run = true
  /\ (forall c, throws Demo2.good_run c = false)
  /\ saved_logs (events (main Demo2.good_run)) = [lines (main Demo2.good_run)].
Proof.
  assert (Hp : proceeds Demo2.good_run = true) by reflexivity.
  assert (Hno : forall c, throws Demo2.good_run c = false)
    by (intros c; reflexivity).
  split; [exact Hp|]. split; [exact Hno|].
  exact (proj1 (proj2 (complete_ceremony Demo2.good_run Hp Hno))).
Defined.

End CeremonyRunFacts.

Module FormatKeyFacts.
Import FormatKey.

(** Induction over the tree, through the lists of members. *)
Lemma Json_induction (P : Json -> Prop) :
  P JNull -> (forall b, P (JBool b)) -> (forall n, P (JNumber n)) ->
  (forall s, P (JString s)) ->
  (forall items, Forall P items -> P (JArray items)) ->
  (forall members, Forall (fun kv => P (snd kv)) members ->
     P (JObject members)) ->
  forall v, P v.
Proof.
  intros Hnull Hbool Hnum Hstr Harr Hobj.
  fix IH 1. intros [ |b|n|s|items|members].
  - exact Hnull.
  - apply Hbool.
  - apply Hnum.
  - apply Hstr.
  - apply Harr. induction items as [|x items IHl].
    + apply List.Forall_nil.
    + apply List.Forall_cons; [apply IH|exact IHl].
  - apply Hobj. induction members as [|[k x] members IHl].
    + apply List.Forall_nil.
    + apply List.Forall_cons; [apply IH|exact IHl].
Qed.

Lemma formatKey_JArray items :
  formatKey (JArray items) = replacer (JArray (map formatKey items)).
Proof. reflexivity. Qed.

Lemma formatKey_JObject members :
  formatKey (JObject members)
  = JObject (map (fun '(k, x) => (k, formatKey x)) members).
Proof. reflexivity. Qed.

(** The bottom-up recursion computes what [JSON.stringify] computes
    top-down: the replacer first, then the members of its result. *)
Lemma formatKey_visit (v : Json) : formatKey v = visit formatKey v.
Proof.
  destruct v as [ |b|n|s|items|members]; try reflexivity.
  rewrite formatKey_JArray. unfold visit, replacer.
  rewrite length_map.
  destruct (6 <? length items)%nat; [|reflexivity].
  rewrite map_app, firstn_map. reflexivity.
Qed.

Lemma brief_firstn n k items :
  forallb (brief n) items = true -> forallb (brief n) (firstn k items) = true.
Proof.
  revert k. induction items as [|x items IH]; intros [|k] H;
    try reflexivity.
  cbn [forallb firstn] in *. apply andb_true_iff in H. destruct H as [Hx H].
  rewrite Hx. exact (IH k H).
Qed.

Lemma formatKey_brief (v : Json) : brief 6 (formatKey v) = true.
Proof.
  induction v as [ |b|n|s|items IH|members IH] using Json_induction;
    try reflexivity.
  - rewrite formatKey_JArray.
    assert (Hall : forallb (brief 6) (map formatKey items) = true).
    { induction IH as [|x items Hx _ IHl]; [reflexivity|].
      cbn [map forallb]. rewrite Hx. exact IHl. }
    unfold replacer. rewrite length_map.
    destruct (6 <? length items)%nat eqn:E.
    + cbn [brief]. rewrite length_app, length_firstn, length_map.
      apply Nat.ltb_lt in E. apply andb_true_iff. split.
      * apply Nat.leb_le. cbn [length]. lia.
      * rewrite forallb_app, (brief_firstn _ _ _ Hall). reflexivity.
    + cbn [brief]. rewrite length_map, Hall, andb_true_r.
      apply Nat.ltb_ge in E. apply Nat.leb_le. exact E.
  - rewrite formatKey_JObject. cbn [brief].
    induction IH as [|[k x] members Hx _ IHl]; [reflexivity|].
    cbn [map forallb]. cbn [snd] in Hx. rewrite Hx. exact IHl.
Qed.

Lemma formatKey_fixes (v : Json) : brief 6 v = true -> formatKey v = v.
Proof.
  induction v as [ |b|n|s|items IH|members IH] using Json_induction;
    try reflexivity; intros Hb.
  - cbn [brief] in Hb. apply andb_true_iff in Hb. destruct Hb as [Hlen Hall].
    rewrite formatKey_JArray.
    assert (Hmap : map formatKey items = items).
    { clear Hlen. revert Hall.
      induction IH as [|x items Hx _ IHl]; intros Hall; [reflexivity|].
      cbn [forallb] in Hall. apply andb_true_iff in Hall.
      destruct Hall as [Hbx Hall]. cbn [map].
      rewrite (Hx Hbx), (IHl Hall). reflexivity. }
    rewrite Hmap. unfold replacer.
    apply Nat.leb_le in Hlen.
    destruct (Nat.ltb_spec 6 (length items)); [lia|reflexivity].
  - cbn [brief] in Hb. rewrite formatKey_JObject. f_equal. revert Hb.
    induction IH as [|[k x] members Hx _ IHl]; intros Hb; [reflexivity|].
    cbn [forallb] in Hb. apply andb_true_iff in Hb.
    destruct Hb as [Hbx Hb]. cbn [map]. cbn [snd] in Hx.
    rewrite (Hx Hbx), (IHl Hb). reflexivity.
Qed.

Lemma formatKey_long (items : list Json) :
  formatKey (JArray items)
  = JArray
      (if (6 <? length items)%nat
       then map formatKey (firstn 4 items)
            ++ [JString (String.append "... ("
                           (String.append (pretty (length items - 4)%nat)
                              " more)"))]
       else map formatKey items).
Proof.
  rewrite formatKey_JArray. unfold replacer. rewrite length_map.
  destruct (6 <? length items)%nat; [|reflexivity].
  rewrite firstn_map. reflexivity.
Qed.

(** X18 (what the key summary shows).  No array of the printed value, at any
    depth, has more than six elements.  An array of at most six elements
    keeps its length; a longer one, of [n] elements, is printed as five: its
    first four, themselves summarised, and the string ["... (n - 4 more)"]. *)
Theorem formatKey_truncates (v : Json) (items : list Json) :
  brief 6 (formatKey v) = true
  /\ formatKey (JArray items)
     = JArray
         (if (6 <? length items)%nat
          then map formatKey (firstn 4 items)
               ++ [JString (String.append "... ("
                              (String.append (pretty (length items - 4)%nat)
                                 " more)"))]
          else map formatKey items).
Proof.
  split; [apply formatKey_brief|apply formatKey_long].
Qed.

(** X19 (summarising is a projection).  A value without long arrays is
    printed as it is, and summarising a summary changes nothing. *)
Theorem formatKey_idempotent (v : Json) :
  (brief 6 v = true -> formatKey v = v)
  /\ formatKey (formatKey v) = formatKey v.
Proof.
  split; [apply formatKey_fixes|].
  apply formatKey_fixes, formatKey_brief.
Qed.

Lemma size_pos (v : Json) : (1 <= size v)%nat.
Proof. destruct v; cbn [size]; lia. Qed.

Lemma sum_sizes_firstn (items : list Json) : forall k,
  (list_sum (map size (firstn k items)) + (length items - k)
   <= list_sum (map size items))%nat.
Proof.
  induction items as [|x items IH]; intros [|k]; simpl; try lia.
  - pose proof (size_pos x). specialize (IH 0%nat).
    simpl in IH. rewrite Nat.sub_0_r in IH. lia.
  - specialize (IH k). lia.
Qed.

(** X20 (the summary is never larger than the value).  Summarising does not
    increase the number of values in the tree. *)
Theorem formatKey_shrinks (v : Json) : (size (formatKey v) <= size v)%nat.
Proof.
  induction v as [ |b|n|s|items IH|members IH] using Json_induction;
    try (cbn [formatKey size]; lia).
  - assert (Hsum : forall k,
      (list_sum (map size (map formatKey (firstn k items)))
       <= list_sum (map size (firstn k items)))%nat).
    { intros k.
      assert (Hk : Forall (fun x => (size (formatKey x) <= size x)%nat)
                     (firstn k items)).
      { apply Forall_take. exact IH. }
      induction Hk as [|x l Hx _ IHl]; simpl; lia. }
    rewrite formatKey_long.
    destruct (Nat.ltb_spec 6 (length items)) as [Hlong|Hshort].
    + cbn [size]. rewrite map_app, list_sum_app. simpl.
      pose proof (Hsum 4%nat). pose proof (sum_sizes_firstn items 4). lia.
    + cbn [size]. specialize (Hsum (length items)).
      rewrite firstn_all in Hsum. lia.
  - rewrite formatKey_JObject. cbn [size]. apply le_n_S.
    induction IH as [|[k x] members Hx _ IHl]; [reflexivity|].
    simpl. simpl in Hx. lia.
Qed.

End FormatKeyFacts.
